(** * Tech Pulse: the multi-source content dashboard

    A shallow embedding of [tech-pulse/src/App.jsx] (the column dashboard) and
    of the helpers it shares with the earlier single-feed version of the
    application, followed by the properties of the aggregation controller,
    of the view projection and of URL normalisation, and by further
    properties of the dashboard and of the single-feed version.

    Conventions of the embedding.
    - A JavaScript string is a [string]; [toLowerCase], [trim] and the
      [\s] character class are given on the ASCII range, other bytes are
      left as they are.
    - A property that may be [undefined] or [null] is an [option]; the
      truthiness test of [x || y] and [filter(Boolean)] is [truthy].
    - The [store] object is a [gmap] from column ids to column records;
      [{ ...p, [colId]: v }] is [<[colId := v]> p].
    - An [async] function is cut at its [await]: the part before it is a
      function on the state that may leave a suspended request behind, the
      part after it is the function [resolve] applied when the awaited
      promise settles. *)

From Stdlib Require Import String Ascii List ZArith Bool Lia Sorted DecimalString.
From stdpp Require Import base option list gmap strings fin_maps.

Open Scope string_scope.
Open Scope list_scope.

(** ** Strings as JavaScript uses them *)

Module Js.

Definition is_upper (c : ascii) : bool :=
  let n := nat_of_ascii c in (65 <=? n)%nat && (n <=? 90)%nat.

Definition is_lower (c : ascii) : bool :=
  let n := nat_of_ascii c in (97 <=? n)%nat && (n <=? 122)%nat.

Definition is_digit (c : ascii) : bool :=
  let n := nat_of_ascii c in (48 <=? n)%nat && (n <=? 57)%nat.

Definition is_alpha (c : ascii) : bool := is_upper c || is_lower c.

Definition lower_ascii (c : ascii) : ascii :=
  if is_upper c then ascii_of_nat (nat_of_ascii c + 32) else c.

(** [String.prototype.toLowerCase], on the ASCII range: the letters [A] to
    [Z] are mapped, every other character is left as it is. *)
Fixpoint toLowerCase (s : string) : string :=
  match s with
  | EmptyString => EmptyString
  | String c r => String (lower_ascii c) (toLowerCase r)
  end.

(** The white space of [trim] and of the regular expression class [\s],
    on the ASCII range: tab, line feed, vertical tab, form feed, carriage
    return, space.  The white space beyond that range (no-break space,
    byte order mark, the Unicode separators) is not in the model. *)
Definition is_space (c : ascii) : bool :=
  let n := nat_of_ascii c in ((9 <=? n)%nat && (n <=? 13)%nat) || (n =? 32)%nat.

Fixpoint trimStart (s : string) : string :=
  match s with
  | EmptyString => EmptyString
  | String c r => if is_space c then trimStart r else s
  end.

Definition trimEnd (s : string) : string :=
  String.rev (trimStart (String.rev s)).

(** [String.prototype.trim], for the white space above. *)
Definition trim (s : string) : string := trimEnd (trimStart s).

(** [hay.includes(needle)]. *)
Fixpoint includes (hay needle : string) : bool :=
  String.prefix needle hay ||
  match hay with
  | EmptyString => false
  | String _ r => includes r needle
  end.

(** [arr.join(sep)]. *)
Definition join (sep : string) (l : list string) : string :=
  String.concat sep l.

(** Truthiness of a value that is a string or [undefined]. *)
Definition truthy (o : option string) : bool :=
  match o with
  | Some EmptyString => false
  | Some _ => true
  | None => false
  end.

(** [x || y] where [x] is a string or [undefined] and [y] a string. *)
Definition or_else (x : option string) (y : string) : string :=
  match x with
  | Some s => if truthy x then s else y
  | None => y
  end.

(** A value interpolated in a template literal. *)
Definition interp (x : option string) : string :=
  match x with
  | Some s => s
  | None => "undefined"
  end.

(** [s.replace(/\s+/g, " ")]; [in_run] tells that the previous character
    was white space already replaced. *)
Fixpoint collapse_ws (in_run : bool) (s : string) : string :=
  match s with
  | EmptyString => EmptyString
  | String c r =>
      if is_space c
      then (if in_run then collapse_ws true r else String " " (collapse_ws true r))
      else String c (collapse_ws false r)
  end.

(** [s.replace(/&amp;/g, "&")]. *)
Fixpoint unescape_amp (s : string) : string :=
  match s with
  | EmptyString => EmptyString
  | String "&" (String "a" (String "m" (String "p" (String ";" r)))) =>
      String "&" (unescape_amp r)
  | String c r => String c (unescape_amp r)
  end.

(** [s.replace(/^www\./, "")]. *)
Definition strip_www (s : string) : string :=
  match s with
  | String "w" (String "w" (String "w" (String "." r))) => r
  | _ => s
  end.

End Js.

(** ** Meta + utils *)

Inductive SourceType := hn | reddit | nasa | quote.

#[global] Instance SourceType_eq_dec : EqDecision SourceType.
Proof. solve_decision. Defined.

(** The keys of [SOURCE_META], which are the values of [col.type]. *)
Definition type_name (t : SourceType) : string :=
  match t with
  | hn => "hn"
  | reddit => "reddit"
  | nasa => "nasa"
  | quote => "quote"
  end.

(** [clampText(s, max)].  The ellipsis is one character for JavaScript and
    three bytes here; lengths agree on ASCII text. *)
Definition ellipsis : string := "…".

Definition clampText (s : option string) (max : nat) : string :=
  if negb (Js.truthy s) then ""
  else
    let t := Js.trim (Js.collapse_ws false (Js.interp s)) in
    if (max <? String.length t)%nat
    then String.substring 0 (max - 1) t +:+ ellipsis
    else t.

(** *** The URL constructor

    [new URL(u)] is the platform's parser (WHATWG URL Standard) called
    without a base.  Its first stage is embedded here: leading and
    trailing C0 control characters and spaces are stripped, tabs and
    newlines are removed, and the input must start with a scheme followed
    by a colon; without a base, an input that has no scheme is a failure
    (the constructor throws a [TypeError]).  What the parser does after
    the scheme is left to the platform: [URL_after_scheme] below. *)

Record ParsedURL := { url_href : string; url_host : string }.

Module Url.

Definition is_c0_or_space (c : ascii) : bool := (nat_of_ascii c <=? 32)%nat.

Definition is_tab_or_newline (c : ascii) : bool :=
  let n := nat_of_ascii c in (n =? 9)%nat || (n =? 10)%nat || (n =? 13)%nat.

Fixpoint strip_leading (s : string) : string :=
  match s with
  | EmptyString => EmptyString
  | String c r => if is_c0_or_space c then strip_leading r else s
  end.

Definition strip (s : string) : string :=
  String.rev (strip_leading (String.rev (strip_leading s))).

Fixpoint remove_tab_newline (s : string) : string :=
  match s with
  | EmptyString => EmptyString
  | String c r =>
      if is_tab_or_newline c then remove_tab_newline r
      else String c (remove_tab_newline r)
  end.

Definition is_scheme_char (c : ascii) : bool :=
  Js.is_alpha c || Js.is_digit c ||
  let n := nat_of_ascii c in (n =? 43)%nat || (n =? 45)%nat || (n =? 46)%nat.

(** Scheme state: reads scheme characters up to the colon; any other
    character, or the end of the input, means there is no scheme. *)
Fixpoint scheme_state (buffer : string) (s : string) : option (string * string) :=
  match s with
  | EmptyString => None
  | String c r =>
      if is_scheme_char c
      then scheme_state (buffer +:+ String (Js.lower_ascii c) EmptyString) r
      else if Ascii.eqb c ":" then Some (buffer, r)
      else None
  end.

(** Scheme start state. *)
Definition split_scheme (s : string) : option (string * string) :=
  match s with
  | EmptyString => None
  | String c r =>
      if Js.is_alpha c
      then scheme_state (String (Js.lower_ascii c) EmptyString) r
      else None
  end.

End Url.

(** ** The unified item and the adapters' results *)

(** The item objects the four API clients build.  [url] is missing from the
    placeholder object of [loadColumn] only; [subreddit], [imageUrl] and
    [tags] are present for some sources only. *)
Record Item := {
  it_id : string;
  it_source : SourceType;
  it_title : string;
  it_url : option string;
  it_date : option Z;
  it_summary : string;
  it_score : Z;
  it_comments : Z;
  it_author : string;
  it_host : string;
  it_subreddit : option string;
  it_imageUrl : option string;
  it_tags : option (list string)
}.

(** The object an API client returns: [{ items, nextPage, hasMore }] for
    Hacker News, [{ items, nextAfter, hasMore }] for Reddit and
    [{ items, hasMore }] for the single-shot sources.  A property the
    client did not set reads as [undefined]. *)
Record AdapterResult := {
  res_items : list Item;
  res_nextPage : option nat;
  res_nextAfter : option string;
  res_hasMore : bool
}.

(** How an awaited client call settles. *)
Inductive Settled :=
  | Fulfilled (res : AdapterResult)
  | Rejected.

(** What [fetch] followed by [res.json()] yields. *)
Inductive Http (D : Type) :=
  | NetworkError
  | Response (ok : bool) (body : option D).

Arguments NetworkError {D}.
Arguments Response {D} ok body.

(** The part of the upstream payloads the clients read. *)
Record HNHit := {
  h_url : option string;
  h_objectID : option string;
  h_title : option string;
  h_created_at : option string;
  h_story_text : option string;
  h_points : option Z;
  h_num_comments : option Z;
  h_author : option string
}.

Record HNData := {
  d_hits : option (list HNHit);
  d_nbPages : option nat
}.

Record RedditPost := {
  p_url_overridden_by_dest : option string;
  p_permalink : option string;
  p_preview_url : option string;
  p_id : option string;
  p_title : option string;
  p_created_utc : option Z;
  p_selftext : option string;
  p_ups : option Z;
  p_num_comments : option Z;
  p_author : option string;
  p_subreddit_name_prefixed : option string
}.

Record RedditData := {
  d_children : option (list (option RedditPost));
  d_after : option string
}.

Record ApodData := {
  a_url : option string;
  a_hdurl : option string;
  a_media_type : option string;
  a_date : option string;
  a_title : option string;
  a_explanation : option string;
  a_copyright : option string
}.

Record QuoteData := {
  q_id : option string;
  q_author : option string;
  q_dateAdded : option string;
  q_content : option string;
  q_tags : option (list string)
}.

(** The awaited [fetch] and [res.json()] followed by the [res.ok] test:
    [None] when the client throws. *)
Definition json_of {D : Type} (resp : Http D) : option D :=
  match resp with
  | NetworkError => None
  | Response false _ => None
  | Response true body => body
  end.

Section Platform.

(** The rest of the URL parser, from the scheme and the input after the
    colon to the parsed URL or a failure. *)
Variable URL_after_scheme : string -> string -> option ParsedURL.

(** The date parser behind [new Date(iso)], in milliseconds; [None] is
    the invalid date. *)
Variable Date_parse : string -> option Z.

(** [new URL(u)]: [None] when the constructor throws. *)
Definition new_URL (u : string) : option ParsedURL :=
  match Url.split_scheme (Url.remove_tab_newline (Url.strip u)) with
  | None => None
  | Some (scheme, rest) => URL_after_scheme scheme rest
  end.

(** [isoToDate(iso)]. *)
Definition isoToDate (iso : option string) : option Z :=
  match iso with
  | Some s => Date_parse s
  | None => None
  end.

(** [hostFromUrl(u)]. *)
Definition hostFromUrl (u : string) : string :=
  match new_URL u with
  | Some p => Js.strip_www (url_host p)
  | None => ""
  end.

(** [safeUrl(u)]: the [catch] returns the empty string. *)
Definition safeUrl (u : string) : string :=
  match new_URL u with
  | Some p => url_href p
  | None => ""
  end.

(** *** API clients *)

Definition hn_item (h : HNHit) : Item :=
  let url :=
    safeUrl (Js.or_else (h_url h)
               (if Js.truthy (h_objectID h)
                then "https://news.ycombinator.com/item?id=" +:+ Js.interp (h_objectID h)
                else "")) in
  {| it_id := "hn_" +:+ Js.interp (h_objectID h);
     it_source := hn;
     it_title := Js.or_else (h_title h) "(Untitled)";
     it_url := Some url;
     it_date := isoToDate (h_created_at h);
     it_summary := clampText (Some (Js.or_else (h_story_text h) "")) 140;
     it_score := default 0%Z (h_points h);
     it_comments := default 0%Z (h_num_comments h);
     it_author := Js.or_else (h_author h) "";
     it_host := hostFromUrl url;
     it_subreddit := None;
     it_imageUrl := None;
     it_tags := None |}.

(** [fetchHN({ query, page, daysBack, signal })], as a function of the page
    asked for and of what the network answered. *)
Definition fetchHN (page : nat) (resp : Http HNData) : Settled :=
  match json_of resp with
  | None => Rejected
  | Some data =>
      Fulfilled
        {| res_items := map hn_item (default [] (d_hits data));
           res_nextPage := Some (page + 1);
           res_nextAfter := None;
           res_hasMore :=
             match d_nbPages data with
             | Some n => (page + 1 <? n)%nat
             | None => false
             end |}
  end.

Definition reddit_item (p : RedditPost) : Item :=
  let url :=
    safeUrl (Js.or_else (p_url_overridden_by_dest p)
               (if Js.truthy (p_permalink p)
                then "https://www.reddit.com" +:+ Js.interp (p_permalink p)
                else "")) in
  let thumb := safeUrl (Js.unescape_amp (Js.or_else (p_preview_url p) "")) in
  {| it_id := "rd_" +:+ Js.interp (p_id p);
     it_source := reddit;
     it_title := Js.or_else (p_title p) "(Untitled)";
     it_url := Some url;
     it_date :=
       match p_created_utc p with
       | Some n => Some (n * 1000)%Z
       | None => None
       end;
     it_summary := clampText (Some (Js.or_else (p_selftext p) "")) 160;
     it_score := default 0%Z (p_ups p);
     it_comments := default 0%Z (p_num_comments p);
     it_author := Js.or_else (p_author p) "";
     it_host := hostFromUrl url;
     it_subreddit := Some (Js.or_else (p_subreddit_name_prefixed p) "");
     it_imageUrl := Some (Js.or_else (Some thumb) "");
     it_tags := None |}.

(** The client-side query of [fetchReddit]. *)
Definition reddit_matches (q : string) (it : Item) : bool :=
  Js.includes
    (Js.toLowerCase
       (it_title it +:+ " " +:+ it_summary it +:+ " " +:+ Js.interp (it_subreddit it)))
    q.

(** [fetchReddit({ query, after, signal })]. *)
Definition fetchReddit (query : string) (resp : Http RedditData) : Settled :=
  match json_of resp with
  | None => Rejected
  | Some data =>
      let children := default [] (d_children data) in
      let mapped := map reddit_item (omap (fun c => c) children) in
      let q := Js.toLowerCase (Js.trim query) in
      let mapped := if Js.truthy (Some q) then filter (fun it => reddit_matches q it = true) mapped else mapped in
      let nextAfter := if Js.truthy (d_after data) then d_after data else None in
      Fulfilled
        {| res_items := mapped;
           res_nextPage := None;
           res_nextAfter := nextAfter;
           res_hasMore := Js.truthy nextAfter |}
  end.

Definition nasa_item (d : ApodData) : Item :=
  let url := safeUrl (Js.or_else (a_url d) "") in
  let hd := safeUrl (Js.or_else (a_hdurl d) "") in
  let bestImage :=
    if bool_decide (a_media_type d = Some "image")
    then Js.or_else (Some hd) url
    else "" in
  {| it_id := "nasa_" +:+ Js.or_else (a_date d) "apod";
     it_source := nasa;
     it_title := Js.or_else (a_title d) "Astronomy Picture of the Day";
     it_url := Some (Js.or_else (Some url) "https://apod.nasa.gov/");
     it_date :=
       if Js.truthy (a_date d)
       then isoToDate (Some (Js.interp (a_date d) +:+ "T00:00:00Z"))
       else None;
     it_summary := clampText (Some (Js.or_else (a_explanation d) "")) 240;
     it_score := 0%Z;
     it_comments := 0%Z;
     it_author := Js.or_else (a_copyright d) "NASA";
     it_host := "api.nasa.gov";
     it_subreddit := None;
     it_imageUrl := Some bestImage;
     it_tags := None |}.

(** [fetchNASA({ signal })]: a response that is not [ok] throws. *)
Definition fetchNASA (resp : Http ApodData) : Settled :=
  match json_of resp with
  | None => Rejected
  | Some d =>
      Fulfilled
        {| res_items := [nasa_item d];
           res_nextPage := None;
           res_nextAfter := None;
           res_hasMore := false |}
  end.

Definition quote_item (q : QuoteData) : Item :=
  {| it_id := "quote_" +:+ Js.interp (q_id q);
     it_source := quote;
     it_title :=
       if Js.truthy (q_author q) then "Quote by " +:+ Js.interp (q_author q) else "Quote";
     it_url := Some "";
     it_date := if Js.truthy (q_dateAdded q) then isoToDate (q_dateAdded q) else None;
     it_summary := "“" +:+ Js.interp (q_content q) +:+ "”";
     it_score := 0%Z;
     it_comments := 0%Z;
     it_author := Js.or_else (q_author q) "";
     it_host := "quotable.io";
     it_subreddit := None;
     it_imageUrl := None;
     it_tags := Some (default [] (q_tags q)) |}.

(** [fetchQuote({ signal })]. *)
Definition fetchQuote (resp : Http QuoteData) : Settled :=
  match json_of resp with
  | None => Rejected
  | Some q =>
      Fulfilled
        {| res_items := [quote_item q];
           res_nextPage := None;
           res_nextAfter := None;
           res_hasMore := false |}
  end.

End Platform.

(** ** App: the state of the dashboard *)

Record Column := { col_id : string; col_type : SourceType }.

#[global] Instance Column_eq_dec : EqDecision Column.
Proof. solve_decision. Defined.

(** The second argument of [loadColumn]: ["refresh"] or ["more"]. *)
Inductive Mode := Refresh | More.

(** A record of [store].  [items], [page] and [after] are [None] when the
    property is [undefined] (or [null], for [after]); [loading], [hasMore]
    and [error] are only ever read through [Boolean(...)] and [... || ""],
    so that an absent property is [false], respectively the empty string. *)
Record ColState := {
  items : option (list Item);
  loading : bool;
  error : string;
  page : option nat;
  after : option string;
  hasMore : bool
}.

(** The calls of API clients that the body of [loadColumn] contains, with
    their arguments; it contains no call of [fetchNASA]. *)
Inductive Call :=
  | CallHN (query : string) (page : nat) (daysBack : string)
  | CallReddit (query : string) (after : option string)
  | CallQuote.

(** A call of [loadColumn] suspended at its [await]: the local variables
    [col] and [mode], the client called, and the abort signal handed to
    [fetch], which is [abortRef.current?.signal] at the time of the call. *)
Record Request := {
  req_col : Column;
  req_mode : Mode;
  req_call : Call;
  req_signal : option nat
}.

(** [controllers] is the heap of the [AbortController] objects created so
    far, each with its [aborted] flag; [abortRef] is [abortRef.current],
    [None] for [null]. *)
Record State := {
  columns : list Column;
  store : gmap string ColState;
  abortRef : option nat;
  controllers : list bool;
  inflight : list Request;
  hnQuery : string;
  hnDaysBack : string;
  globalSearch : string
}.

Definition setStore (f : gmap string ColState -> gmap string ColState) (s : State) : State :=
  {| columns := columns s; store := f (store s); abortRef := abortRef s;
     controllers := controllers s; inflight := inflight s;
     hnQuery := hnQuery s; hnDaysBack := hnDaysBack s; globalSearch := globalSearch s |}.

Definition setColumns (f : list Column -> list Column) (s : State) : State :=
  {| columns := f (columns s); store := store s; abortRef := abortRef s;
     controllers := controllers s; inflight := inflight s;
     hnQuery := hnQuery s; hnDaysBack := hnDaysBack s; globalSearch := globalSearch s |}.

Definition set_inflight (l : list Request) (s : State) : State :=
  {| columns := columns s; store := store s; abortRef := abortRef s;
     controllers := controllers s; inflight := l;
     hnQuery := hnQuery s; hnDaysBack := hnDaysBack s; globalSearch := globalSearch s |}.

Definition setHnQuery (q : string) (s : State) : State :=
  {| columns := columns s; store := store s; abortRef := abortRef s;
     controllers := controllers s; inflight := inflight s;
     hnQuery := q; hnDaysBack := hnDaysBack s; globalSearch := globalSearch s |}.

Definition setHnDaysBack (d : string) (s : State) : State :=
  {| columns := columns s; store := store s; abortRef := abortRef s;
     controllers := controllers s; inflight := inflight s;
     hnQuery := hnQuery s; hnDaysBack := d; globalSearch := globalSearch s |}.

Definition setGlobalSearch (t : string) (s : State) : State :=
  {| columns := columns s; store := store s; abortRef := abortRef s;
     controllers := controllers s; inflight := inflight s;
     hnQuery := hnQuery s; hnDaysBack := hnDaysBack s; globalSearch := t |}.

(** [{ ...p[colId] }]: spreading [undefined] gives the empty object. *)
Definition empty_record : ColState :=
  {| items := None; loading := false; error := ""; page := None; after := None;
     hasMore := false |}.

Definition spread (o : option ColState) : ColState := default empty_record o.

(** The records the [useState] initialiser and the [columns] effect create. *)
Definition initial_record (t : SourceType) : ColState :=
  match t with
  | hn => {| items := Some []; loading := false; error := ""; page := Some 0;
             after := None; hasMore := true |}
  | reddit => {| items := Some []; loading := false; error := ""; page := None;
                 after := None; hasMore := true |}
  | nasa | quote => {| items := Some []; loading := false; error := ""; page := None;
                       after := None; hasMore := false |}
  end.

Definition init : State :=
  {| columns := [ {| col_id := "col_hn"; col_type := hn |};
                  {| col_id := "col_reddit"; col_type := reddit |};
                  {| col_id := "col_nasa"; col_type := nasa |} ];
     store := <["col_hn" := initial_record hn]>
                (<["col_reddit" := initial_record reddit]>
                   (<["col_nasa" := initial_record nasa]> ∅));
     abortRef := None;
     controllers := [];
     inflight := [];
     hnQuery := "";
     hnDaysBack := "7d";
     globalSearch := "" |}.

(** The effect on [columns]: ensure store exists for newly added columns. *)
Definition ensure_store (cols : list Column) (prev : gmap string ColState) : gmap string ColState :=
  foldl (fun next c =>
           match next !! col_id c with
           | Some _ => next
           | None => <[col_id c := initial_record (col_type c)]> next
           end) prev cols.

(** [removeColumn(id)]. *)
Definition removeColumn (id : string) (s : State) : State :=
  setColumns (filter (fun c => col_id c ≠ id)) s.

(** [addColumn(type)]; [suffix] is the random part of the new id. *)
Definition addColumn (type : SourceType) (suffix : string) (s : State) : State :=
  let id := "col_" +:+ type_name type +:+ "_" +:+ suffix in
  setColumns (fun prev => prev ++ [ {| col_id := id; col_type := type |} ]) s.

(** The effect on [columns], which runs after the render that follows a
    change of the columns (and after the first render). *)
Definition columns_effect (s : State) : State :=
  setStore (ensure_store (columns s)) s.

(** ** App: loading a column *)

(** The message of the [catch] block of [loadColumn]. *)
Definition failure_message (t : SourceType) : string :=
  match t with
  | reddit => "Could not load Reddit items. If you see a CORS error locally, try a different network or deploy (CORS often differs locally vs hosted)."
  | _ => "Could not load content. Try Refresh."
  end.

(** The object literal returned under [if (!res.ok)] in [loadColumn]; [now]
    is the value of [new Date()]. *)
Definition nasa_fallback (now : Z) : AdapterResult :=
  {| res_items :=
       [ {| it_id := "nasa_fallback";
            it_source := nasa;
            it_title := "NASA APOD temporarily unavailable";
            it_url := None;
            it_date := Some now;
            it_summary := "Rate limit reached. Please refresh later.";
            it_score := 0%Z;
            it_comments := 0%Z;
            it_author := "NASA";
            it_host := "api.nasa.gov";
            it_subreddit := None;
            it_imageUrl := Some "";
            it_tags := None |} ];
     res_nextPage := None;
     res_nextAfter := None;
     res_hasMore := false |}.

(** How the [try] block of [loadColumn] leaves its synchronous part. *)
Inductive Suspend :=
  | Await (c : Call)
  | Throw
  | ReturnPlaceholder
  | ReturnUndefined.

(** The identifier [res] at the test [if (!res.ok)] that follows the
    [reddit] branch.  Both [const res] of the [hn] and [reddit] branches
    are local to the block of their [if]; the function, the component and
    the module bind no [res].  [None]: evaluating the identifier throws a
    [ReferenceError]; [Some ok] would be the value of [res.ok]. *)
Definition res_in_scope : option bool := None.

(** The [try] block of [loadColumn] up to its first [await].  [store],
    [hnQuery] and [hnDaysBack] are the values of the render the handler
    belongs to. *)
Definition loadColumn_try (col : Column) (mode : Mode) (s : State) : Suspend :=
  let colId := col_id col in
  if decide (col_type col = hn) then
    let currentPage :=
      match mode with
      | More => default 0 ((store s !! colId) ≫= page)
      | Refresh => 0
      end in
    Await (CallHN (hnQuery s) currentPage (hnDaysBack s))
  else if decide (col_type col = reddit) then
    let after :=
      match mode with
      | More => (store s !! colId) ≫= after
      | Refresh => None
      end in
    Await (CallReddit (Js.or_else (Some (hnQuery s)) "") after)
  else
    match res_in_scope with
    | None => Throw
    | Some ok =>
        if negb ok then ReturnPlaceholder
        else if decide (col_type col = quote) then Await CallQuote
        else ReturnUndefined
    end.

(** [{ ...p[colId], loading: true, error: "" }]. *)
Definition mark_loading (r : ColState) : ColState :=
  {| items := items r; loading := true; error := ""; page := page r;
     after := after r; hasMore := hasMore r |}.

(** [{ ...p[colId], loading: false, error: msg }]. *)
Definition mark_failed (msg : string) (r : ColState) : ColState :=
  {| items := items r; loading := false; error := msg; page := page r;
     after := after r; hasMore := hasMore r |}.

(** The state update of the [catch] block. *)
Definition on_failure (col : Column) (p : gmap string ColState) : gmap string ColState :=
  <[col_id col := mark_failed (failure_message (col_type col)) (spread (p !! col_id col))]> p.

(** [columns.find((c) => c.id === colId)]. *)
Definition find_col (colId : string) (cols : list Column) : option Column :=
  find (fun c => bool_decide (col_id c = colId)) cols.

(** [loadColumn(colId, mode)] up to its first [await]. *)
Definition loadColumn (colId : string) (mode : Mode) (s : State) : State :=
  match find_col colId (columns s) with
  | None => s
  | Some col =>
      let s1 := setStore (fun p => <[colId := mark_loading (spread (p !! colId))]> p) s in
      match loadColumn_try col mode s with
      | Await call =>
          set_inflight
            (inflight s1 ++
               [ {| req_col := col; req_mode := mode; req_call := call;
                    req_signal := abortRef s |} ]) s1
      | Throw => setStore (on_failure col) s1
      | ReturnPlaceholder => s1
      | ReturnUndefined => s1
      end
  end.

(** [prevItems]: reading [p[colId].items] and spreading it throw a
    [TypeError] when the record or its [items] is missing. *)
Definition prevItems (mode : Mode) (p : gmap string ColState) (colId : string) : option (list Item) :=
  match mode with
  | More => (p !! colId) ≫= items
  | Refresh => Some []
  end.

(** The state update that follows each [await]; [None] when the updater
    throws. *)
Definition on_success (r : Request) (res : AdapterResult) (p : gmap string ColState)
  : option (gmap string ColState) :=
  let colId := col_id (req_col r) in
  let old := spread (p !! colId) in
  match req_call r with
  | CallHN _ _ _ =>
      prev ← prevItems (req_mode r) p colId;
      Some (<[colId := {| items := Some (prev ++ res_items res); loading := false;
                          error := ""; page := res_nextPage res; after := after old;
                          hasMore := res_hasMore res |}]> p)
  | CallReddit _ _ =>
      prev ← prevItems (req_mode r) p colId;
      Some (<[colId := {| items := Some (prev ++ res_items res); loading := false;
                          error := ""; page := page old; after := res_nextAfter res;
                          hasMore := res_hasMore res |}]> p)
  | CallQuote =>
      Some (<[colId := {| items := Some (res_items res); loading := false;
                          error := ""; page := page old; after := after old;
                          hasMore := false |}]> p)
  end.

(** [signal.aborted] for the signal a request carries. *)
Definition signal_aborted (s : State) (signal : option nat) : bool :=
  match signal with
  | Some n => default false (controllers s !! n)
  | None => false
  end.

(** What the [await] of a request yields when the client would settle as
    [o]: [fetch] and the reading of the body reject once the signal is
    aborted. *)
Definition awaited (s : State) (r : Request) (o : Settled) : Settled :=
  if signal_aborted s (req_signal r) then Rejected else o.

(** The rest of [loadColumn] for the [i]-th suspended call, whose client
    settles as [o].  [None]: a state updater threw. *)
Definition resolve (i : nat) (o : Settled) (s : State) : option State :=
  match inflight s !! i with
  | None => Some s
  | Some r =>
      let s1 := set_inflight (delete i (inflight s)) s in
      match awaited s r o with
      | Fulfilled res =>
          p ← on_success r res (store s);
          Some (setStore (fun _ => p) s1)
      | Rejected => Some (setStore (on_failure (req_col r)) s1)
      end
  end.

(** ** App: refreshing every column *)

(** The record [refreshAll] puts in place of [r] for a column of type [t]. *)
Definition reset_record (t : SourceType) (r : ColState) : ColState :=
  match t with
  | hn => {| items := Some []; loading := true; error := ""; page := Some 0;
             after := after r; hasMore := true |}
  | reddit => {| items := Some []; loading := true; error := ""; page := page r;
                 after := None; hasMore := true |}
  | nasa | quote => {| items := Some []; loading := true; error := ""; page := page r;
                       after := after r; hasMore := false |}
  end.

(** The updater of [refreshAll]: columns without a record are skipped. *)
Definition refresh_reset (cols : list Column) (p : gmap string ColState) : gmap string ColState :=
  foldl (fun next c =>
           match next !! col_id c with
           | None => next
           | Some r => <[col_id c := reset_record (col_type c) r]> next
           end) p cols.

(** [if (abortRef.current) abortRef.current.abort();
     abortRef.current = new AbortController();] *)
Definition renew_controller (s : State) : State :=
  let aborted :=
    match abortRef s with
    | Some n => <[n := true]> (controllers s)
    | None => controllers s
    end in
  {| columns := columns s; store := store s;
     abortRef := Some (length aborted);
     controllers := aborted ++ [false];
     inflight := inflight s;
     hnQuery := hnQuery s; hnDaysBack := hnDaysBack s; globalSearch := globalSearch s |}.

(** [refreshAll()] up to the [await] of [Promise.all]: every [loadColumn]
    has run up to its own [await]. *)
Definition refreshAll (s : State) : State :=
  let s1 := renew_controller s in
  let s2 := setStore (refresh_reset (columns s)) s1 in
  foldl (fun st c => loadColumn (col_id c) Refresh st) s2 (columns s).

(** ** App: the visible items *)

(** The text an item is searched in. *)
Definition haystack (it : Item) : string :=
  Js.toLowerCase
    (Js.join " "
       (omap (fun o => if Js.truthy o then o else None)
          [ Some (it_title it); Some (it_summary it); Some (it_author it);
            it_subreddit it; Some (it_host it);
            Some (Js.join " " (default [] (it_tags it))) ])).

(** [store[c.id]?.items || []]. *)
Definition bucket (p : gmap string ColState) (colId : string) : list Item :=
  default [] ((p !! colId) ≫= items).

Definition visible_bucket (s : string) (b : list Item) : list Item :=
  if negb (Js.truthy (Some s)) then b
  else filter (fun it => Js.includes (haystack it) s = true) b.

(** The [useMemo] that computes [visibleByColumn]. *)
Definition visibleByColumn (cols : list Column) (p : gmap string ColState) (search : string)
  : gmap string (list Item) :=
  let s := Js.toLowerCase (Js.trim search) in
  foldl (fun out c => <[col_id c := visible_bucket s (bucket p (col_id c))]> out) ∅ cols.

(** The props [ColumnShell] gets for a column. *)
Definition prop_loading (s : State) (colId : string) : bool :=
  default false (loading <$> store s !! colId).

Definition prop_error (s : State) (colId : string) : string :=
  default "" (error <$> store s !! colId).

Definition prop_hasMore (s : State) (colId : string) : bool :=
  default false (hasMore <$> store s !! colId).

(** A click on the Load More button of a column: [ColumnShell] renders it
    only when [hasMore], and [disabled] when [loading]. *)
Definition clickLoadMore (colId : string) (s : State) : State :=
  if prop_hasMore s colId && negb (prop_loading s colId)
  then loadColumn colId More s
  else s.

(** ** Runs of the application *)

Inductive Event :=
  | LoadColumn (colId : string) (mode : Mode)
  | ClickLoadMore (colId : string)
  | RefreshAll
  | RemoveColumn (id : string)
  | AddColumn (type : SourceType) (suffix : string)
  | Resolve (i : nat) (o : Settled)
  | SetHnQuery (q : string)
  | SetHnDaysBack (d : string)
  | SetGlobalSearch (t : string).

Definition step (e : Event) (s : State) : option State :=
  match e with
  | LoadColumn colId mode => Some (loadColumn colId mode s)
  | ClickLoadMore colId => Some (clickLoadMore colId s)
  | RefreshAll => Some (refreshAll s)
  | RemoveColumn id => Some (columns_effect (removeColumn id s))
  | AddColumn type suffix => Some (columns_effect (addColumn type suffix s))
  | Resolve i o => resolve i o s
  | SetHnQuery q => Some (setHnQuery q s)
  | SetHnDaysBack d => Some (setHnDaysBack d s)
  | SetGlobalSearch t => Some (setGlobalSearch t s)
  end.

Fixpoint run (evs : list Event) (s : State) : option State :=
  match evs with
  | [] => Some s
  | e :: rest => step e s ≫= run rest
  end.

(** The state after the two mount effects: the effect on [columns], then
    the one that calls [refreshAll]. *)
Definition mounted : State := refreshAll (columns_effect init).

(** ** Column ids and source types

    The ids of the initial columns are ["col_hn"], ["col_reddit"] and
    ["col_nasa"], and [addColumn] builds ["col_<type>_<suffix>"]: the id of
    a column tells its type. *)
Definition type_of_id (id : string) : option SourceType :=
  if String.prefix "col_hn" id then Some hn
  else if String.prefix "col_reddit" id then Some reddit
  else if String.prefix "col_nasa" id then Some nasa
  else if String.prefix "col_quote" id then Some quote
  else None.

Definition single_shot (t : SourceType) : Prop := t = nasa \/ t = quote.

Definition paged (t : SourceType) : Prop := t = hn \/ t = reddit.

(** The invariant of the runs from [init]: ids tell types, only paged
    columns have calls in flight, and the buffers of single-shot ids are
    empty. *)
Record id_typed (s : State) : Prop := {
  typed_columns :
    forall c, c ∈ columns s -> type_of_id (col_id c) = Some (col_type c);
  typed_inflight :
    forall r, r ∈ inflight s ->
      type_of_id (col_id (req_col r)) = Some (col_type (req_col r)) /\
      paged (col_type (req_col r));
  typed_store :
    forall k r t, store s !! k = Some r -> type_of_id k = Some t -> single_shot t ->
      default [] (items r) = []
}.

(** ** Records with items

    The invariant of the runs from [init] that keeps the updaters from
    throwing: every record has its [items], and every column, as well as
    every column that has a call in flight, has a record. *)
Record with_items (s : State) : Prop := {
  records_have_items : forall k r, store s !! k = Some r -> is_Some (items r);
  columns_have_records : forall c, c ∈ columns s -> is_Some (store s !! col_id c);
  inflight_have_records :
    forall r, r ∈ inflight s -> is_Some (store s !! col_id (req_col r))
}.

(** ** Signals of the requests in flight

    After the mount there is a current abort controller, and every request
    in flight carries its signal or the signal of a controller that has
    been aborted. *)
Record signalled (s : State) : Prop := {
  sig_current : exists n, abortRef s = Some n /\ n < length (controllers s);
  sig_inflight :
    forall r, r ∈ inflight s ->
      req_signal r = abortRef s \/ signal_aborted s (req_signal r) = true
}.

(** ** Valid URLs

    A string is a valid absolute URL for the platform when it is the
    serialisation of a URL that the constructor accepted (without a base);
    a URL field of an item is in order when it is absent, empty, or such a
    string. *)
Definition valid_absolute_url (U : string -> string -> option ParsedURL) (s : string) : Prop :=
  exists u p, new_URL U u = Some p /\ url_href p = s.

Definition url_field_ok (U : string -> string -> option ParsedURL) (o : option string) : Prop :=
  match o with
  | None => True
  | Some u => u = "" \/ valid_absolute_url U u
  end.

Definition item_urls_ok (U : string -> string -> option ParsedURL) (it : Item) : Prop :=
  url_field_ok U (it_url it) /\ url_field_ok U (it_imageUrl it).

(** ** The filter as the specification words it

    Membership by the lower-cased concatenation of title, summary, author
    and tags, for every non-empty filter text. *)
Definition spec_text (it : Item) : string :=
  Js.toLowerCase
    (it_title it +:+ it_summary it +:+ it_author it +:+
     String.concat "" (default [] (it_tags it))).

Definition spec_project_bucket (text : string) (b : list Item) : list Item :=
  if decide (text = "") then b
  else filter (fun it => Js.includes (spec_text it) (Js.toLowerCase text) = true) b.

(** ** Completing a refresh

    [outcome] tells, for the id of a column, how the client called for that
    column settles.  The branch of a single-shot column never calls a
    client: it throws, which its [catch] block handles like a rejection. *)
Definition is_paged (t : SourceType) : bool :=
  match t with
  | hn | reddit => true
  | nasa | quote => false
  end.

Definition branch_outcome (outcome : string -> Settled) (c : Column) : Settled :=
  if is_paged (col_type c) then outcome (col_id c) else Rejected.

(** The requests in flight settle one after the other; each entry of
    [sched] is the position, at that time, of the request that settles
    next (an entry past the end settles nothing). *)
Fixpoint complete (outcome : string -> Settled) (sched : list nat) (s : State) : option State :=
  match sched with
  | [] => Some s
  | i :: rest =>
      match inflight s !! i with
      | Some r => resolve i (outcome (col_id (req_col r))) s ≫= complete outcome rest
      | None => complete outcome rest s
      end
  end.

(** The branch of column [c] is over, with the result its outcome calls
    for. *)
Definition column_settled (outcome : string -> Settled) (c : Column) (t : State) : Prop :=
  match branch_outcome outcome c with
  | Fulfilled res =>
      bucket (store t) (col_id c) = res_items res /\
      prop_error t (col_id c) = "" /\
      prop_loading t (col_id c) = false
  | Rejected =>
      bucket (store t) (col_id c) = [] /\
      prop_error t (col_id c) = failure_message (col_type c) /\
      prop_loading t (col_id c) = false
  end.

(** The invariant of a refresh of the columns [cols]: [rest] are the
    columns [refreshAll] has not reached yet; every other column either
    has its one request in flight and an empty buffer, or is settled.
    [settling] tells whether requests of this refresh may have settled
    already; before that, only single-shot columns are settled. *)
Record isolating (cols : list Column) (outcome : string -> Settled)
    (rest : list Column) (settling : bool) (t : State) : Prop := {
  iso_live :
    forall r, r ∈ inflight t ->
      signal_aborted t (req_signal r) = false /\ req_mode r = Refresh /\
      req_col r ∈ cols /\ (req_col r ∉ rest);
  iso_nodup : NoDup (req_col <$> inflight t);
  iso_cols :
    forall c, c ∈ cols ->
      (c ∈ rest /\ bucket (store t) (col_id c) = []) \/
      ((c ∉ rest) /\ (exists r, r ∈ inflight t /\ req_col r = c) /\
       bucket (store t) (col_id c) = [] /\ is_paged (col_type c) = true) \/
      ((c ∉ rest) /\ (forall r, r ∈ inflight t -> req_col r <> c) /\
       column_settled outcome c t /\
       (settling = true \/ is_paged (col_type c) = false))
}.

(** The [catch] blocks of the requests [stale], which have been cancelled,
    run one after the other. *)
Definition flush (stale : list Request) (s : State) : State :=
  foldl (fun u r => setStore (on_failure (req_col r)) u) s stale.

(** ** The single-feed version of the application

    The earlier version of the application keeps one list of items for all
    sources; its [safeUrl] is the one above.  [view] is its projection:
    the source filter, the client-side search, then the sort. *)
Module Feed.

(** [sortBy]: ["newest"], ["oldest"] or ["score"]. *)
Inductive SortBy := newest | oldest | by_score.

(** [it.date?.getTime() || 0]. *)
Definition time_of (it : Item) : Z := default 0%Z (it_date it).

(** The comparison functions handed to [sort]; a negative result puts [a]
    first. *)
Definition compare_by (sortBy : SortBy) (a b : Item) : Z :=
  match sortBy with
  | by_score =>
      let d := (it_score b - it_score a)%Z in
      if (d =? 0)%Z then (time_of b - time_of a)%Z else d
  | oldest => (time_of a - time_of b)%Z
  | newest => (time_of b - time_of a)%Z
  end.

(** [Array.prototype.sort] is stable: with these comparison functions its
    result is the list sorted, items that compare equal staying in their
    order.  It is computed here by insertion. *)
Fixpoint insert (cmp : Item -> Item -> Z) (x : Item) (l : list Item) : list Item :=
  match l with
  | [] => [x]
  | y :: r => if (cmp x y <=? 0)%Z then x :: y :: r else y :: insert cmp x r
  end.

Fixpoint sort (cmp : Item -> Item -> Z) (l : list Item) : list Item :=
  match l with
  | [] => []
  | x :: r => insert cmp x (sort cmp r)
  end.

(** The text an item is searched in. *)
Definition hay (it : Item) : string :=
  Js.toLowerCase
    (Js.join " "
       (omap (fun o => if Js.truthy o then o else None)
          [ Some (it_title it); Some (it_summary it); Some (it_author it);
            Some (Js.join " " (default [] (it_tags it))) ])).

(** The [useMemo] that computes [view]. *)
Definition view (items : list Item) (selectedSources : list SourceType)
    (searchText : string) (sortBy : SortBy) : list Item :=
  let list := filter (fun it => it_source it ∈ selectedSources) items in
  let s := Js.toLowerCase (Js.trim searchText) in
  let list :=
    if Js.truthy (Some s)
    then filter (fun it => Js.includes (hay it) s = true) list
    else list in
  sort (compare_by sortBy) list.

End Feed.

(** ** Sample data

    A minimal platform to run the clients on examples: the parser accepts
    whatever follows the scheme and serialises it back unchanged, and no
    date parses. *)
Module Sample.

Definition URL_after_scheme (scheme rest : string) : option ParsedURL :=
  Some {| url_href := scheme +:+ ":" +:+ rest; url_host := "" |}.

Definition Date_parse (iso : string) : option Z := None.

Definition item (id title author host : string) : Item :=
  {| it_id := id; it_source := hn; it_title := title; it_url := Some "";
     it_date := None; it_summary := ""; it_score := 0%Z; it_comments := 0%Z;
     it_author := author; it_host := host; it_subreddit := None;
     it_imageUrl := None; it_tags := None |}.

Definition i1 : Item := item "hn_1" "One" "" "".
Definition i2 : Item := item "hn_2" "Two" "" "".
Definition i3 : Item := item "hn_3" "Three" "" "".
Definition i4 : Item := item "hn_4" "Four" "" "".

Definition page0 : AdapterResult :=
  {| res_items := [i1; i2]; res_nextPage := Some 1; res_nextAfter := None;
     res_hasMore := true |}.

Definition page1 : AdapterResult :=
  {| res_items := [i3; i4]; res_nextPage := Some 2; res_nextAfter := None;
     res_hasMore := false |}.

(** Two calls of [refreshAll] in a row, the second before any request of
    the first has settled. *)
Definition refreshed_twice : State := refreshAll mounted.

(** The Hacker News column loads its first page, a further page is asked
    for, and the column is removed while that request is in flight. *)
Definition removed_while_loading : option State :=
  run [Resolve 0 (Fulfilled page0); LoadColumn "col_hn" More; RemoveColumn "col_hn"] mounted.

(** After two calls of [refreshAll] in a row, the second request of the
    Hacker News column is fulfilled while the first, cancelled one is still
    pending. *)
Definition newer_first : State :=
  default init (run [RefreshAll; RefreshAll; Resolve 2 (Fulfilled page1)] init).

(** A store with one Hacker News column that holds one story hosted at
    nasa.gov. *)
Definition story : Item := item "hn_7" "Artemis" "alice" "nasa.gov".

Definition stories : gmap string ColState :=
  <["col_hn" := {| items := Some [story]; loading := false; error := "";
                   page := Some 1; after := None; hasMore := true |}]> ∅.

(** Two items of the single feed, the older one first. *)
Definition dated (id : string) (date : Z) : Item :=
  {| it_id := id; it_source := hn; it_title := id; it_url := Some "";
     it_date := Some date; it_summary := ""; it_score := 0%Z; it_comments := 0%Z;
     it_author := ""; it_host := ""; it_subreddit := None;
     it_imageUrl := None; it_tags := Some [] |}.

Definition feed : list Item := [dated "hn_a" 1000; dated "hn_b" 2000].

(** The Hacker News client is rejected; the other clients return [page0]. *)
Definition hn_fails (colId : string) : Settled :=
  if decide (colId = "col_hn") then Rejected else Fulfilled page0.

(** A well-formed answer of the APOD service. *)
Definition apod : ApodData :=
  {| a_url := Some "https://apod.nasa.gov/apod/image/2401/orion.jpg";
     a_hdurl := None;
     a_media_type := Some "image";
     a_date := Some "2024-01-01";
     a_title := Some "Orion";
     a_explanation := Some "The Orion nebula.";
     a_copyright := None |}.

(** The Hacker News client is rejected, the APOD service answers [apod]
    with status 200, so that [fetchNASA] is fulfilled, and Reddit returns
    [page0]. *)
Definition apod_ok (colId : string) : Settled :=
  if decide (colId = "col_hn") then Rejected
  else if decide (colId = "col_nasa")
       then fetchNASA URL_after_scheme Date_parse (Response true (Some apod))
       else Fulfilled page0.

End Sample.

(** ** Abort controllers along a run

    After [n] calls of [refreshAll] there are [n] controllers; all but the
    last have been aborted, and [abortRef.current] is the last. *)
Definition is_RefreshAll (e : Event) : bool :=
  match e with
  | RefreshAll => true
  | _ => false
  end.

Definition controllers_after (n : nat) : list bool :=
  match n with
  | 0 => []
  | S m => replicate m true ++ [false]
  end.

Definition abortRef_after (n : nat) : option nat :=
  match n with
  | 0 => None
  | S m => Some m
  end.

(** ** Loading flags and requests in flight

    A record that says [loading] belongs to a column one of whose requests
    is in flight. *)
Definition loading_is_pending (s : State) : Prop :=
  forall k r, store s !! k = Some r -> loading r = true ->
    exists q, q ∈ inflight s /\ col_id (req_col q) = k.

(** The request [refreshAll] sends for a column: the first page, with the
    query and the window of the controls and the signal of the new
    controller. *)
Definition first_request (s : State) (c : Column) : option Request :=
  match col_type c with
  | hn =>
      Some {| req_col := c; req_mode := Refresh;
              req_call := CallHN (hnQuery s) 0 (hnDaysBack s);
              req_signal := Some (length (controllers s)) |}
  | reddit =>
      Some {| req_col := c; req_mode := Refresh;
              req_call := CallReddit (hnQuery s) None;
              req_signal := Some (length (controllers s)) |}
  | nasa | quote => None
  end.

(** ** Relative dates *)

(** [String(n)] and the interpolation [`${n}`] of an integer, which
    JavaScript writes in decimal digits below [10^21]. *)
Definition number_to_string (n : Z) : string :=
  NilZero.string_of_int (Z.to_int n).

(** [formatRelative(d)]; [now] is the value of [Date.now()], and [Z.div]
    rounds down like [Math.floor]. *)
Definition formatRelative (now : Z) (d : option Z) : string :=
  match d with
  | None => ""
  | Some t =>
      let ms := (now - t)%Z in
      let s := (ms / 1000)%Z in
      if (s <? 60)%Z then number_to_string s +:+ "s ago"
      else
        let m := (s / 60)%Z in
        if (m <? 60)%Z then number_to_string m +:+ "m ago"
        else
          let h := (m / 60)%Z in
          if (h <? 24)%Z then number_to_string h +:+ "h ago"
          else
            let days := (h / 24)%Z in
            number_to_string days +:+ "d ago"
  end.

(** ** The items of the clients

    The prefix each client puts before the upstream id, and the items a
    client can return. *)
Definition id_prefix (t : SourceType) : string :=
  match t with
  | hn => "hn_"
  | reddit => "rd_"
  | nasa => "nasa_"
  | quote => "quote_"
  end.

Definition client_item (U : string -> string -> option ParsedURL) (D : string -> option Z)
    (it : Item) : Prop :=
  (exists pg resp res, fetchHN U D pg resp = Fulfilled res /\ it ∈ res_items res) \/
  (exists q resp res, fetchReddit U q resp = Fulfilled res /\ it ∈ res_items res) \/
  (exists resp res, fetchNASA U D resp = Fulfilled res /\ it ∈ res_items res) \/
  (exists resp res, fetchQuote D resp = Fulfilled res /\ it ∈ res_items res).

(** ** The single-feed version: clients and [refresh]

    The clients of the earlier version return the array of items itself;
    [None] stands for a client that throws.  Its items have no [comments]
    and no [host], which are left at [0] and at the empty string here and
    are read nowhere in that version, and every item has [tags]. *)
Module FeedApp.

(** A hit of the Hacker News payload, with its [_tags]. *)
Record TaggedHit := { hit : HNHit; hit_tags : option (list string) }.

Section Clients.

Variable URL_after_scheme : string -> string -> option ParsedURL.
Variable Date_parse : string -> option Z.

Definition hn_item (t : TaggedHit) : Item :=
  let h := hit t in
  let url :=
    safeUrl URL_after_scheme
      (Js.or_else (h_url h)
         (if Js.truthy (h_objectID h)
          then "https://news.ycombinator.com/item?id=" +:+ Js.interp (h_objectID h)
          else "")) in
  {| it_id := "hn_" +:+ Js.interp (h_objectID h);
     it_source := hn;
     it_title := Js.or_else (h_title h) "(Untitled)";
     it_url := Some url;
     it_date := isoToDate Date_parse (h_created_at h);
     it_summary := clampText (Some (Js.or_else (h_story_text h) "")) 220;
     it_score := default 0%Z (h_points h);
     it_comments := 0%Z;
     it_author := Js.or_else (h_author h) "";
     it_host := "";
     it_subreddit := None;
     it_imageUrl := None;
     it_tags := Some (filter (fun t => t <> "story") (default [] (hit_tags t))) |}.

(** [fetchHN({ query, daysBack, signal })]. *)
Definition fetchHN (resp : Http (option (list TaggedHit))) : option (list Item) :=
  match json_of resp with
  | None => None
  | Some hits => Some (map hn_item (default [] hits))
  end.

Definition nasa_item (d : ApodData) : Item :=
  let url := safeUrl URL_after_scheme (Js.or_else (a_url d) "") in
  let hd := safeUrl URL_after_scheme (Js.or_else (a_hdurl d) "") in
  let bestImage :=
    if bool_decide (a_media_type d = Some "image")
    then Js.or_else (Some hd) url
    else "" in
  {| it_id := "nasa_" +:+ Js.or_else (a_date d) "apod";
     it_source := nasa;
     it_title := Js.or_else (a_title d) "Astronomy Picture of the Day";
     it_url := Some (Js.or_else (Some url) "https://apod.nasa.gov/");
     it_date :=
       if Js.truthy (a_date d)
       then isoToDate Date_parse (Some (Js.interp (a_date d) +:+ "T00:00:00Z"))
       else None;
     it_summary := clampText (Some (Js.or_else (a_explanation d) "")) 220;
     it_score := 0%Z;
     it_comments := 0%Z;
     it_author := Js.or_else (a_copyright d) "NASA";
     it_host := "";
     it_subreddit := None;
     it_imageUrl := Some bestImage;
     it_tags := Some ["space"; "science"] |}.

(** [fetchNASA({ signal })]. *)
Definition fetchNASA (resp : Http ApodData) : option (list Item) :=
  match json_of resp with
  | None => None
  | Some d => Some [nasa_item d]
  end.

Definition quote_item (q : QuoteData) : Item :=
  {| it_id := "quote_" +:+ Js.interp (q_id q);
     it_source := quote;
     it_title :=
       if Js.truthy (q_author q) then "Quote by " +:+ Js.interp (q_author q) else "Quote";
     it_url := Some "";
     it_date := if Js.truthy (q_dateAdded q) then isoToDate Date_parse (q_dateAdded q) else None;
     it_summary := "“" +:+ Js.interp (q_content q) +:+ "”";
     it_score := 0%Z;
     it_comments := 0%Z;
     it_author := Js.or_else (q_author q) "";
     it_host := "";
     it_subreddit := None;
     it_imageUrl := None;
     it_tags := Some (default ["inspiration"] (q_tags q)) |}.

(** [fetchQuote({ signal })]. *)
Definition fetchQuote (resp : Http QuoteData) : option (list Item) :=
  match json_of resp with
  | None => None
  | Some q => Some [quote_item q]
  end.

End Clients.

(** An entry of [errors]; [dev] is the message of the exception. *)
Record FeedError := {
  err_id : string;
  err_title : string;
  err_message : string;
  err_dev : string
}.

(** How the promise of a client settles. *)
Inductive Result :=
  | Ok (l : list Item)
  | Failed (dev : string).

(** The keys of [SOURCE], which name the three tasks of [refresh]. *)
Inductive Source := HN | NASA | QUOTE.

#[global] Instance Source_eq_dec : EqDecision Source.
Proof. solve_decision. Defined.

(** The entry the [catch] callback of a task pushes. *)
Definition error_of (src : Source) (dev : string) : FeedError :=
  match src with
  | HN =>
      {| err_id := "err_hn"; err_title := "Hacker News unavailable";
         err_message := "Could not load Hacker News items. Try refresh or adjust your query.";
         err_dev := dev |}
  | NASA =>
      {| err_id := "err_nasa"; err_title := "NASA APOD unavailable";
         err_message := "Could not load NASA content (APOD). Try refresh later.";
         err_dev := dev |}
  | QUOTE =>
      {| err_id := "err_quote"; err_title := "Quote service unavailable";
         err_message := "Could not load a quote. Try refresh later.";
         err_dev := dev |}
  end.

(** [partialLoading]. *)
Record Partial := { pl_HN : bool; pl_NASA : bool; pl_QUOTE : bool }.

(** The state of the component, with the two local arrays of the call of
    [refresh] that is under way. *)
Record FeedState := {
  items : list Item;
  loading : bool;
  partialLoading : Partial;
  errors : list FeedError;
  results : list Item;
  nextErrors : list FeedError
}.

(** [refresh()] up to its [await]. *)
Definition refresh_begin (s : FeedState) : FeedState :=
  {| items := items s; loading := true;
     partialLoading := {| pl_HN := true; pl_NASA := true; pl_QUOTE := true |};
     errors := []; results := []; nextErrors := [] |}.

(** [{ ...p, HN: false }] and its like. *)
Definition clear_partial (src : Source) (p : Partial) : Partial :=
  match src with
  | HN => {| pl_HN := false; pl_NASA := pl_NASA p; pl_QUOTE := pl_QUOTE p |}
  | NASA => {| pl_HN := pl_HN p; pl_NASA := false; pl_QUOTE := pl_QUOTE p |}
  | QUOTE => {| pl_HN := pl_HN p; pl_NASA := pl_NASA p; pl_QUOTE := false |}
  end.

(** The [then], [catch] and [finally] callbacks of the task of [src]. *)
Definition task_done (src : Source) (o : Result) (s : FeedState) : FeedState :=
  {| items := items s; loading := loading s;
     partialLoading := clear_partial src (partialLoading s);
     errors := errors s;
     results := match o with Ok l => results s ++ l | Failed _ => results s end;
     nextErrors :=
       match o with
       | Ok _ => nextErrors s
       | Failed dev => nextErrors s ++ [error_of src dev]
       end |}.

(** [(a, b) => (a.id > b.id ? 1 : -1)]. *)
Definition by_id (a b : Item) : Z :=
  if String.ltb (it_id b) (it_id a) then 1%Z else (-1)%Z.

(** The rest of [refresh], after [Promise.all]. *)
Definition refresh_end (s : FeedState) : FeedState :=
  {| items := Feed.sort by_id (results s); loading := false;
     partialLoading := partialLoading s;
     errors := nextErrors s; results := results s; nextErrors := nextErrors s |}.

(** The tasks settle in the order [order]. *)
Definition settle_all (order : list Source) (outcome : Source -> Result)
    (s : FeedState) : FeedState :=
  foldl (fun st src => task_done src (outcome src) st) s order.

Definition refresh (order : list Source) (outcome : Source -> Result)
    (s : FeedState) : FeedState :=
  refresh_end (settle_all order outcome (refresh_begin s)).

(** [partialLoading[src]]. *)
Definition flag (src : Source) (p : Partial) : bool :=
  match src with
  | HN => pl_HN p
  | NASA => pl_NASA p
  | QUOTE => pl_QUOTE p
  end.

(** [anyLoading]. *)
Definition anyLoading (s : FeedState) : bool :=
  loading s || pl_HN (partialLoading s) || pl_NASA (partialLoading s) ||
  pl_QUOTE (partialLoading s).

(** The items of the tasks that are fulfilled, and the errors of the
    others, for the tasks [l]. *)
Definition gathered (outcome : Source -> Result) (l : list Source) : list Item :=
  l ≫= (fun src => match outcome src with Ok its => its | Failed _ => [] end).

Definition failures (outcome : Source -> Result) (l : list Source) : list FeedError :=
  l ≫= (fun src => match outcome src with Ok _ => [] | Failed dev => [error_of src dev] end).

End FeedApp.

(** * Properties *)

(** ** What [loadColumn] does, by source type *)

Lemma find_col_id colId cols col :
  find_col colId cols = Some col -> col_id col = colId.
Proof.
  unfold find_col. intros H. apply find_some in H as [_ H].
  by apply bool_decide_eq_true in H.
Qed.

Lemma find_col_elem colId cols col :
  find_col colId cols = Some col -> col ∈ cols.
Proof.
  unfold find_col. intros H. apply list_elem_of_In. by apply find_some in H as [H _].
Qed.

Lemma find_col_missing colId cols :
  find_col colId cols = None -> forall c, c ∈ cols -> col_id c <> colId.
Proof.
  unfold find_col. intros H c Hc Heq. apply list_elem_of_In in Hc.
  pose proof (find_none _ _ H c Hc) as Hn. simpl in Hn.
  apply bool_decide_eq_false in Hn. contradiction.
Qed.

(** A column with unique id is the one [find] returns. *)
Lemma find_col_NoDup cols c :
  NoDup (col_id <$> cols) -> c ∈ cols -> find_col (col_id c) cols = Some c.
Proof.
  unfold find_col. induction cols as [|d cols IH]; simpl.
  - intros _ H. by apply elem_of_nil in H.
  - intros Hnd Hin. apply NoDup_cons in Hnd as [Hd Hnd].
    apply elem_of_cons in Hin as [-> | Hin].
    + by rewrite bool_decide_eq_true_2.
    + rewrite bool_decide_eq_false_2; [by apply IH|].
      intros Heq. apply Hd. rewrite Heq. by apply list_elem_of_fmap_2.
Qed.

(** The single-shot types never get past the test of [res]. *)
Lemma loadColumn_try_single col mode s :
  col_type col = nasa \/ col_type col = quote ->
  loadColumn_try col mode s = Throw.
Proof.
  intros [H | H]; unfold loadColumn_try; rewrite H; by repeat case_decide.
Qed.

Lemma loadColumn_single colId col mode s :
  find_col colId (columns s) = Some col ->
  col_type col = nasa \/ col_type col = quote ->
  loadColumn colId mode s =
  setStore (fun p => <[colId := mark_failed (failure_message (col_type col))
                                   (mark_loading (spread (p !! colId)))]> p) s.
Proof.
  intros Hf Ht. unfold loadColumn. rewrite Hf, (loadColumn_try_single _ _ _ Ht).
  pose proof (find_col_id _ _ _ Hf) as Hid.
  unfold setStore, on_failure; simpl. f_equal.
  rewrite Hid, lookup_insert_eq. simpl. by rewrite insert_insert_eq.
Qed.

Lemma loadColumn_paged colId col mode s :
  find_col colId (columns s) = Some col ->
  col_type col = hn \/ col_type col = reddit ->
  exists call,
    loadColumn_try col mode s = Await call /\
    loadColumn colId mode s =
    set_inflight
      (inflight s ++ [ {| req_col := col; req_mode := mode; req_call := call;
                          req_signal := abortRef s |} ])
      (setStore (fun p => <[colId := mark_loading (spread (p !! colId))]> p) s).
Proof.
  intros Hf Ht. unfold loadColumn. rewrite Hf.
  destruct Ht as [Ht | Ht]; unfold loadColumn_try; rewrite Ht;
    repeat case_decide; try done; eexists; split; reflexivity.
Qed.

Lemma loadColumn_missing colId mode s :
  find_col colId (columns s) = None -> loadColumn colId mode s = s.
Proof. intros Hf. unfold loadColumn. by rewrite Hf. Qed.

(** [loadColumn] touches neither the columns nor the abort controllers, and
    in the store only the loading flag and the error of its own record. *)
Lemma loadColumn_frame colId mode s :
  columns (loadColumn colId mode s) = columns s /\
  abortRef (loadColumn colId mode s) = abortRef s /\
  controllers (loadColumn colId mode s) = controllers s /\
  hnQuery (loadColumn colId mode s) = hnQuery s /\
  hnDaysBack (loadColumn colId mode s) = hnDaysBack s /\
  globalSearch (loadColumn colId mode s) = globalSearch s.
Proof.
  unfold loadColumn. destruct (find_col colId (columns s)); [|done].
  by destruct (loadColumn_try c mode s).
Qed.

Lemma loadColumn_store_ne colId mode s k :
  k <> colId -> store (loadColumn colId mode s) !! k = store s !! k.
Proof.
  intros Hk. unfold loadColumn.
  destruct (find_col colId (columns s)) as [col|] eqn:Hf; [|done].
  pose proof (find_col_id _ _ _ Hf) as Hid.
  destruct (loadColumn_try col mode s); simpl; unfold on_failure;
    rewrite ?Hid, ?lookup_insert_ne by done; done.
Qed.

Lemma loadColumn_store_eq colId mode s :
  store (loadColumn colId mode s) !! colId = store s !! colId \/
  exists r, store (loadColumn colId mode s) !! colId = Some r /\
            items r = items (spread (store s !! colId)) /\
            page r = page (spread (store s !! colId)) /\
            after r = after (spread (store s !! colId)) /\
            hasMore r = hasMore (spread (store s !! colId)).
Proof.
  unfold loadColumn.
  destruct (find_col colId (columns s)) as [col|] eqn:Hf; [|by left].
  pose proof (find_col_id _ _ _ Hf) as Hid. right.
  destruct (loadColumn_try col mode s); simpl; unfold on_failure;
    rewrite ?Hid, ?lookup_insert_eq; eexists; (split; [reflexivity|]); done.
Qed.

Lemma loadColumn_items colId mode s k :
  (store (loadColumn colId mode s) !! k) ≫= items = (store s !! k) ≫= items.
Proof.
  destruct (decide (k = colId)) as [->|Hk].
  - destruct (loadColumn_store_eq colId mode s) as [-> | (r & -> & Hi & _)]; [done|].
    simpl. rewrite Hi. by destruct (store s !! colId).
  - by rewrite loadColumn_store_ne.
Qed.

Lemma loadColumn_bucket colId mode s k :
  bucket (store (loadColumn colId mode s)) k = bucket (store s) k.
Proof. unfold bucket. by rewrite loadColumn_items. Qed.

(** ** Ids tell types along every run *)

Lemma type_of_id_addColumn t suffix :
  type_of_id ("col_" +:+ type_name t +:+ "_" +:+ suffix) = Some t.
Proof. by destruct t. Qed.

Lemma paged_not_single t : paged t -> single_shot t -> False.
Proof. intros [-> | ->] [? | ?]; discriminate. Qed.

Lemma id_typed_init : id_typed init.
Proof.
  split.
  - intros c Hc. simpl in Hc. repeat (apply elem_of_cons in Hc as [-> | Hc]); try done.
    by apply elem_of_nil in Hc.
  - intros r Hr. simpl in Hr. by apply elem_of_nil in Hr.
  - intros k r t Hk _ _. simpl in Hk.
    repeat (apply lookup_insert_Some in Hk as [[_ <-] | [_ Hk]]; [done|]).
    by rewrite lookup_empty in Hk.
Qed.

Lemma id_typed_loadColumn colId mode s :
  id_typed s -> id_typed (loadColumn colId mode s).
Proof.
  intros [Hc Hr Hs].
  destruct (loadColumn_frame colId mode s) as (Ec & _).
  split.
  - rewrite Ec. exact Hc.
  - intros r. unfold loadColumn.
    destruct (find_col colId (columns s)) as [col|] eqn:Hf; [|by apply Hr].
    destruct (loadColumn_try col mode s) as [call| | |] eqn:Ht; simpl; try by apply Hr.
    intros Hin. apply elem_of_app in Hin as [Hin | Hin]; [by apply Hr|].
    apply list_elem_of_singleton in Hin as ->. simpl.
    split; [apply Hc; by eapply find_col_elem|].
    unfold loadColumn_try, res_in_scope in Ht. unfold paged.
    repeat case_decide; auto. discriminate.
  - intros k r t Hk Ht Hsingle.
    destruct (decide (k = colId)) as [->|Hne].
    + destruct (loadColumn_store_eq colId mode s) as [E | (r' & E & Ei & _)];
        rewrite E in Hk.
      * by eapply Hs.
      * injection Hk as <-. rewrite Ei.
        destruct (store s !! colId) as [r0|] eqn:E0; [|done]. by eapply Hs.
    + rewrite loadColumn_store_ne in Hk by done. by eapply Hs.
Qed.

Lemma items_reset_record t r : items (reset_record t r) = Some [].
Proof. by destruct t. Qed.

Lemma refresh_reset_lookup cols p k r :
  refresh_reset cols p !! k = Some r -> p !! k = Some r \/ items r = Some [].
Proof.
  revert p. induction cols as [|c cols IH]; intros p; simpl; [by left|].
  intros H. apply IH in H as [H | H]; [|by right].
  destruct (p !! col_id c) as [r0|] eqn:E; [|by left].
  apply lookup_insert_Some in H as [[_ <-] | [_ H]]; [right|by left].
  apply items_reset_record.
Qed.

Lemma ensure_store_lookup cols p k r :
  ensure_store cols p !! k = Some r -> p !! k = Some r \/ exists t, r = initial_record t.
Proof.
  revert p. induction cols as [|c cols IH]; intros p; simpl; [by left|].
  intros H. apply IH in H as [H | H]; [|by right].
  destruct (p !! col_id c) as [r0|] eqn:E; [by left|].
  apply lookup_insert_Some in H as [[_ <-] | [_ H]]; [right; by eexists|by left].
Qed.

Lemma on_failure_lookup_ne col p k :
  k <> col_id col -> on_failure col p !! k = p !! k.
Proof. intros H. unfold on_failure. by rewrite lookup_insert_ne. Qed.

Lemma on_success_lookup_ne r res p p' k :
  on_success r res p = Some p' -> k <> col_id (req_col r) -> p' !! k = p !! k.
Proof.
  unfold on_success. intros H Hk.
  destruct (req_call r); simplify_option_eq; by rewrite lookup_insert_ne.
Qed.

Lemma id_typed_refreshAll s : id_typed s -> id_typed (refreshAll s).
Proof.
  intros H. unfold refreshAll.
  assert (H2 : id_typed (setStore (refresh_reset (columns s)) (renew_controller s))).
  { destruct H as [Hc Hr Hs]. split; simpl; [done..|].
    intros k r t Hk Ht Hsingle. apply refresh_reset_lookup in Hk as [Hk | Hk].
    - by eapply Hs.
    - by rewrite Hk. }
  revert H2. generalize (setStore (refresh_reset (columns s)) (renew_controller s)).
  induction (columns s) as [|c cols IH]; intros s2 H2; simpl; [done|].
  apply IH. by apply id_typed_loadColumn.
Qed.

Lemma id_typed_removeColumn id s : id_typed s -> id_typed (removeColumn id s).
Proof.
  intros [Hc Hr Hs]. split; simpl; [|done..].
  intros c Hin. apply list_elem_of_filter in Hin as [_ Hin]. by apply Hc.
Qed.

Lemma id_typed_addColumn t suffix s : id_typed s -> id_typed (addColumn t suffix s).
Proof.
  intros [Hc Hr Hs]. split; simpl; [|done..].
  intros c Hin. apply elem_of_app in Hin as [Hin | Hin]; [by apply Hc|].
  apply list_elem_of_singleton in Hin as ->. simpl. apply type_of_id_addColumn.
Qed.

Lemma id_typed_columns_effect s : id_typed s -> id_typed (columns_effect s).
Proof.
  intros [Hc Hr Hs]. split; simpl; [done..|].
  intros k r t0 Hk Ht Hsingle. apply ensure_store_lookup in Hk as [Hk | [t1 ->]].
  - by eapply Hs.
  - by destruct t1.
Qed.

Lemma id_typed_resolve i o s s' :
  id_typed s -> resolve i o s = Some s' -> id_typed s'.
Proof.
  intros [Hc Hr Hs]. unfold resolve.
  destruct (inflight s !! i) as [r|] eqn:Hi; [|by intros [= <-]].
  assert (Hin : r ∈ inflight s) by (apply list_elem_of_lookup; eauto).
  destruct (Hr r Hin) as (Ht & Hp).
  assert (Hothers : forall x, x ∈ delete i (inflight s) ->
            type_of_id (col_id (req_col x)) = Some (col_type (req_col x)) /\
            paged (col_type (req_col x))).
  { intros x Hx. apply Hr. by eapply list_elem_of_delete_inv. }
  destruct (awaited s r o) as [res|].
  - destruct (on_success r res (store s)) as [p|] eqn:Ep; simpl; [|done].
    intros [= <-]. split; simpl; [done..|].
    intros k r0 t0 Hk Ht0 Hsingle.
    rewrite (on_success_lookup_ne _ _ _ _ _ Ep) in Hk; [by eapply Hs|].
    intros ->. rewrite Ht in Ht0. injection Ht0 as <-. by eapply paged_not_single.
  - intros [= <-]. split; simpl; [done..|].
    intros k r0 t0 Hk Ht0 Hsingle.
    rewrite on_failure_lookup_ne in Hk; [by eapply Hs|].
    intros ->. rewrite Ht in Ht0. injection Ht0 as <-. by eapply paged_not_single.
Qed.

Lemma id_typed_step e s s' : id_typed s -> step e s = Some s' -> id_typed s'.
Proof.
  intros H. destruct e; simpl; try (intros [= <-]).
  - by apply id_typed_loadColumn.
  - unfold clickLoadMore. case_match; [by apply id_typed_loadColumn|done].
  - by apply id_typed_refreshAll.
  - by apply id_typed_columns_effect, id_typed_removeColumn.
  - by apply id_typed_columns_effect, id_typed_addColumn.
  - by apply id_typed_resolve.
  - by destruct H.
  - by destruct H.
  - by destruct H.
Qed.

Lemma id_typed_run evs s s' : id_typed s -> run evs s = Some s' -> id_typed s'.
Proof.
  revert s. induction evs as [|e evs IH]; intros s H; simpl; [by intros [= <-]|].
  destruct (step e s) as [s1|] eqn:E; simpl; [|done].
  apply IH. by eapply id_typed_step.
Qed.

(** ** No updater throws along a run *)

Lemma insert_keeps_keys (p : gmap string ColState) k v k' :
  is_Some (p !! k') -> is_Some (<[k := v]> p !! k').
Proof.
  intros H. destruct (decide (k = k')) as [->|Hne].
  - rewrite lookup_insert_eq. by eexists.
  - by rewrite lookup_insert_ne.
Qed.

Lemma refresh_reset_keys cols p k :
  is_Some (p !! k) -> is_Some (refresh_reset cols p !! k).
Proof.
  revert p. induction cols as [|c cols IH]; intros p H; [done|].
  simpl. apply IH. destruct (p !! col_id c); [by apply insert_keeps_keys|done].
Qed.

Lemma ensure_store_keys cols p k :
  is_Some (p !! k) -> is_Some (ensure_store cols p !! k).
Proof.
  revert p. induction cols as [|c cols IH]; intros p H; [done|].
  simpl. apply IH. destruct (p !! col_id c); [done|by apply insert_keeps_keys].
Qed.

Lemma ensure_store_columns cols p c :
  c ∈ cols -> is_Some (ensure_store cols p !! col_id c).
Proof.
  revert p. induction cols as [|d cols IH]; intros p Hc; [by apply elem_of_nil in Hc|].
  apply elem_of_cons in Hc as [-> | Hc]; [|by apply IH].
  simpl. apply ensure_store_keys.
  destruct (p !! col_id d) eqn:E; [by rewrite E|].
  rewrite lookup_insert_eq. by eexists.
Qed.

Lemma with_items_init : with_items init.
Proof.
  split.
  - intros k r Hk. simpl in Hk.
    repeat (apply lookup_insert_Some in Hk as [[_ <-] | [_ Hk]]; [by eexists|]).
    by rewrite lookup_empty in Hk.
  - intros c Hc. simpl in Hc.
    repeat (apply elem_of_cons in Hc as [-> | Hc]; [by eexists|]).
    by apply elem_of_nil in Hc.
  - intros r Hr. simpl in Hr. by apply elem_of_nil in Hr.
Qed.

Lemma with_items_loadColumn colId mode s :
  with_items s -> with_items (loadColumn colId mode s).
Proof.
  intros [Hi Hc Hr]. unfold loadColumn.
  destruct (find_col colId (columns s)) as [col|] eqn:Hf; [|done].
  pose proof (find_col_id _ _ _ Hf) as Hid.
  destruct (Hc col (find_col_elem _ _ _ Hf)) as [r0 Hr0]. rewrite Hid in Hr0.
  destruct (Hi _ _ Hr0) as [l Hl].
  set (p1 := <[colId := mark_loading (spread (store s !! colId))]> (store s)).
  assert (H1 : p1 !! colId = Some (mark_loading r0)).
  { subst p1. by rewrite lookup_insert_eq, Hr0. }
  assert (H1i : forall k r, p1 !! k = Some r -> is_Some (items r)).
  { intros k r Hk. subst p1. apply lookup_insert_Some in Hk as [[_ <-] | [_ Hk]].
    - rewrite Hr0. simpl. by rewrite Hl.
    - by eapply Hi. }
  assert (H1k : forall k, is_Some (store s !! k) -> is_Some (p1 !! k)).
  { intros k Hk. by apply insert_keeps_keys. }
  destruct (loadColumn_try col mode s) as [call| | |]; split; simpl; fold p1;
    try exact H1i;
    try (intros c Hin; apply H1k; by apply Hc);
    try (intros r Hin; apply H1k; by apply Hr).
  - intros r Hin. apply elem_of_app in Hin as [Hin | Hin]; [apply H1k; by apply Hr|].
    apply list_elem_of_singleton in Hin as ->. simpl. rewrite Hid, H1. by eexists.
  - intros k r Hk. unfold on_failure in Hk.
    apply lookup_insert_Some in Hk as [[_ <-] | [_ Hk]]; [|by eapply H1i].
    rewrite Hid, H1. simpl. by rewrite Hl.
  - intros c Hin. apply insert_keeps_keys, H1k. by apply Hc.
  - intros r Hin. apply insert_keeps_keys, H1k. by apply Hr.
Qed.

Lemma with_items_refreshAll s : with_items s -> with_items (refreshAll s).
Proof.
  intros H. unfold refreshAll.
  assert (H2 : with_items (setStore (refresh_reset (columns s)) (renew_controller s))).
  { destruct H as [Hi Hc Hr]. split; simpl.
    - intros k r Hk. apply refresh_reset_lookup in Hk as [Hk | Hk]; [by eapply Hi|].
      rewrite Hk. by eexists.
    - intros c Hin. apply refresh_reset_keys. by apply Hc.
    - intros r Hin. apply refresh_reset_keys. by apply Hr. }
  revert H2. generalize (setStore (refresh_reset (columns s)) (renew_controller s)).
  induction (columns s) as [|c cols IH]; intros s2 H2; simpl; [done|].
  apply IH. by apply with_items_loadColumn.
Qed.

Lemma with_items_columns_effect s :
  (forall k r, store s !! k = Some r -> is_Some (items r)) ->
  (forall r, r ∈ inflight s -> is_Some (store s !! col_id (req_col r))) ->
  with_items (columns_effect s).
Proof.
  intros Hi Hr. split; simpl.
  - intros k r Hk. apply ensure_store_lookup in Hk as [Hk | [t ->]]; [by eapply Hi|].
    destruct t; by eexists.
  - intros c Hc. by apply ensure_store_columns.
  - intros r Hin. apply ensure_store_keys. by apply Hr.
Qed.

(** In a state with the invariant every event can take place. *)
Lemma with_items_step e s :
  with_items s -> exists s', step e s = Some s' /\ with_items s'.
Proof.
  intros H. destruct e; simpl.
  - eexists. split; [done|]. by apply with_items_loadColumn.
  - eexists. split; [done|]. unfold clickLoadMore.
    case_match; [by apply with_items_loadColumn|done].
  - eexists. split; [done|]. by apply with_items_refreshAll.
  - eexists. split; [done|]. destruct H as [Hi Hc Hr]. by apply with_items_columns_effect.
  - eexists. split; [done|]. destruct H as [Hi Hc Hr]. by apply with_items_columns_effect.
  - destruct H as [Hi Hc Hr]. unfold resolve.
    destruct (inflight s !! i) as [r|] eqn:Hlook; [|by exists s].
    assert (Hin : r ∈ inflight s) by (apply list_elem_of_lookup; eauto).
    destruct (Hr r Hin) as [r0 Hr0]. destruct (Hi _ _ Hr0) as [l Hl].
    assert (Hkept : forall x, x ∈ delete i (inflight s) -> x ∈ inflight s).
    { intros x Hx. by eapply list_elem_of_delete_inv. }
    assert (Hitems : forall (v : ColState),
              is_Some (items v) ->
              forall k r', <[col_id (req_col r) := v]> (store s) !! k = Some r' ->
                           is_Some (items r')).
    { intros v Hv k r' Hk. apply lookup_insert_Some in Hk as [[_ <-] | [_ Hk]]; eauto. }
    destruct (awaited s r o) as [res|].
    + assert (Hprev : is_Some (prevItems (req_mode r) (store s) (col_id (req_col r)))).
      { unfold prevItems. destruct (req_mode r); [by eexists|].
        rewrite Hr0. simpl. by rewrite Hl. }
      destruct Hprev as [prev Hprev]. unfold on_success. rewrite Hprev.
      destruct (req_call r); simpl; eexists; (split; [reflexivity|]); split; simpl;
        try (apply Hitems; by eexists);
        try (intros c Hin'; apply insert_keeps_keys; by apply Hc);
        intros x Hx; apply insert_keeps_keys; by apply Hr, Hkept.
    + eexists. split; [reflexivity|]. split; simpl; unfold on_failure.
      * apply Hitems. rewrite Hr0. simpl. by rewrite Hl.
      * intros c Hin'. apply insert_keeps_keys. by apply Hc.
      * intros x Hx. apply insert_keeps_keys. by apply Hr, Hkept.
  - eexists. split; [done|]. by destruct H.
  - eexists. split; [done|]. by destruct H.
  - eexists. split; [done|]. by destruct H.
Qed.

(** Every sequence of events is a run from the initial state: no state
    updater throws. *)
Lemma run_total evs : exists s, run evs init = Some s /\ with_items s.
Proof.
  generalize with_items_init. generalize init.
  induction evs as [|e evs IH]; intros s H; simpl; [by exists s|].
  destruct (with_items_step e s H) as (s1 & -> & H1). simpl. by apply IH.
Qed.

(** Along every run from the initial state, the buffer of a single-shot
    column is empty and no call in flight belongs to such a column. *)
Lemma single_shot_never_loaded evs s c :
  run evs init = Some s -> c ∈ columns s -> single_shot (col_type c) ->
  bucket (store s) (col_id c) = [] /\
  forall r, r ∈ inflight s -> paged (col_type (req_col r)).
Proof.
  intros Hrun Hc Hsingle.
  destruct (id_typed_run _ _ _ id_typed_init Hrun) as [Hcols Hreqs Hstore].
  split; [|intros r Hr; by apply Hreqs].
  unfold bucket. destruct (store s !! col_id c) as [r|] eqn:E; [|done].
  simpl. pose proof (Hstore _ _ _ E (Hcols _ Hc) Hsingle) as H.
  by destruct (items r).
Qed.

(** C5.  For a column of type [nasa] and either mode, [loadColumn] throws
    at the test of the undefined [res] before any client is called: it
    starts no request, leaves the items of the column as they were, and
    ends with the loading flag cleared and the error message set.  Every
    sequence of events is a run from the initial state, and in the state
    it reaches the buffer of every [nasa] column is empty and no request
    in flight belongs to one. *)
Theorem nasa_column_never_loads (s : State) (col : Column) (mode : Mode) :
  find_col (col_id col) (columns s) = Some col ->
  col_type col = nasa ->
  let s' := loadColumn (col_id col) mode s in
  loadColumn_try col mode s = Throw /\
  inflight s' = inflight s /\
  (store s' !! col_id col) ≫= items = (store s !! col_id col) ≫= items /\
  prop_error s' (col_id col) = "Could not load content. Try Refresh." /\
  prop_loading s' (col_id col) = false /\
  (forall evs,
     exists s0,
       run evs init = Some s0 /\
       forall c, c ∈ columns s0 -> col_type c = nasa ->
         bucket (store s0) (col_id c) = [] /\
         forall r, r ∈ inflight s0 -> col_type (req_col r) <> nasa).
Proof.
  intros Hf Ht s'.
  assert (Hs : single_shot (col_type col)) by (by left).
  split; [by apply loadColumn_try_single|].
  split; [subst s'; by rewrite (loadColumn_single _ _ _ _ Hf Hs)|].
  split; [apply loadColumn_items|].
  split; [|split].
  - subst s'. rewrite (loadColumn_single _ _ _ _ Hf Hs). unfold prop_error. simpl.
    rewrite lookup_insert_eq. simpl. by rewrite Ht.
  - subst s'. rewrite (loadColumn_single _ _ _ _ Hf Hs). unfold prop_loading. simpl.
    by rewrite lookup_insert_eq.
  - intros evs. destruct (run_total evs) as (s0 & Hrun & _).
    exists s0. split; [done|]. intros c Hc Hn.
    destruct (single_shot_never_loaded evs s0 c Hrun Hc) as [Hb Hr]; [by left|].
    split; [done|]. intros r Hin E. destruct (Hr r Hin) as [E' | E']; congruence.
Qed.

Lemma nasa_column_never_loads_witness :
  let s' := loadColumn "col_nasa" More mounted in
  inflight s' = inflight mounted /\
  prop_error s' "col_nasa" = "Could not load content. Try Refresh." /\
  prop_loading s' "col_nasa" = false.
Proof.
  refine (_ (nasa_column_never_loads mounted
                {| col_id := "col_nasa"; col_type := nasa |} More _ eq_refl)).
  - intros (_ & H1 & _ & H2 & H3 & _). exact (conj H1 (conj H2 H3)).
  - vm_compute. reflexivity.
Defined.

(** ** What a settled request does *)

Lemma failure_message_nonempty t : failure_message t <> "".
Proof. by destruct t. Qed.

Lemma resolve_rejected i r o s :
  inflight s !! i = Some r ->
  awaited s r o = Rejected ->
  resolve i o s =
  Some (setStore (on_failure (req_col r)) (set_inflight (delete i (inflight s)) s)).
Proof. intros Hi Ha. unfold resolve. by rewrite Hi, Ha. Qed.

Lemma resolve_fulfilled i r o res s :
  inflight s !! i = Some r ->
  awaited s r o = Fulfilled res ->
  resolve i o s =
  p ← on_success r res (store s);
  Some (setStore (fun _ => p) (set_inflight (delete i (inflight s)) s)).
Proof. intros Hi Ha. unfold resolve. by rewrite Hi, Ha. Qed.

Lemma awaited_aborted s r o :
  signal_aborted s (req_signal r) = true -> awaited s r o = Rejected.
Proof. intros H. unfold awaited. by rewrite H. Qed.

Lemma awaited_live s r o :
  signal_aborted s (req_signal r) = false -> awaited s r o = o.
Proof. intros H. unfold awaited. by rewrite H. Qed.

(** The [catch] block keeps the items, the cursor and [hasMore] of its
    column and leaves the other records alone. *)
Lemma on_failure_items col p k :
  (on_failure col p !! k) ≫= items = (p !! k) ≫= items.
Proof.
  unfold on_failure. destruct (decide (k = col_id col)) as [->|Hk].
  - rewrite lookup_insert_eq. simpl. by destruct (p !! col_id col).
  - by rewrite lookup_insert_ne.
Qed.

Lemma on_failure_cursor col p k :
  page (spread (on_failure col p !! k)) = page (spread (p !! k)) /\
  after (spread (on_failure col p !! k)) = after (spread (p !! k)) /\
  hasMore (spread (on_failure col p !! k)) = hasMore (spread (p !! k)).
Proof.
  unfold on_failure. destruct (decide (k = col_id col)) as [->|Hk].
  - by rewrite lookup_insert_eq.
  - by rewrite lookup_insert_ne.
Qed.

Lemma on_failure_flags col p :
  loading <$> on_failure col p !! col_id col = Some false /\
  error <$> on_failure col p !! col_id col = Some (failure_message (col_type col)).
Proof. unfold on_failure. by rewrite lookup_insert_eq. Qed.

(** In refresh mode the updater that follows an [await] never throws and
    stores exactly the items of the result. *)
Lemma on_success_refresh r res p :
  req_mode r = Refresh ->
  exists p', on_success r res p = Some p' /\
    exists rec, p' !! col_id (req_col r) = Some rec /\
      items rec = Some (res_items res) /\ loading rec = false /\ error rec = "".
Proof.
  intros Hm. unfold on_success, prevItems. rewrite Hm.
  destruct (req_call r); simpl; eexists; (split; [reflexivity|]);
    rewrite lookup_insert_eq; eexists; (split; [reflexivity|]); done.
Qed.

(** ** The visible items, column by column *)

Lemma visibleByColumn_fold cols p s (out : gmap string (list Item)) k :
  foldl (fun out c => <[col_id c := visible_bucket s (bucket p (col_id c))]> out) out cols !! k =
  if decide (k ∈ col_id <$> cols) then Some (visible_bucket s (bucket p k)) else out !! k.
Proof.
  revert out. induction cols as [|c cols IH]; intros out.
  - rewrite decide_False; [done|]. rewrite fmap_nil. apply not_elem_of_nil.
  - rewrite fmap_cons. cbn [foldl]. rewrite IH.
    destruct (decide (k ∈ col_id <$> cols)) as [Hin|Hnin].
    + rewrite decide_True; [done|]. by apply elem_of_cons; right.
    + destruct (decide (k = col_id c)) as [->|Hne].
      * rewrite lookup_insert_eq, decide_True; [done|]. by apply elem_of_cons; left.
      * rewrite lookup_insert_ne by done. rewrite decide_False; [done|].
        intros H. apply elem_of_cons in H as [?|?]; contradiction.
Qed.

Lemma visibleByColumn_lookup cols p search k :
  visibleByColumn cols p search !! k =
  if decide (k ∈ col_id <$> cols)
  then Some (visible_bucket (Js.toLowerCase (Js.trim search)) (bucket p k))
  else None.
Proof. unfold visibleByColumn. by rewrite visibleByColumn_fold, lookup_empty. Qed.

(** ** Removing a column *)

Lemma resolve_removeColumn i o id s :
  resolve i o (removeColumn id s) = removeColumn id <$> resolve i o s.
Proof.
  unfold resolve. simpl. destruct (inflight s !! i) as [r|]; [|done].
  unfold awaited.
  change (signal_aborted (removeColumn id s) (req_signal r))
    with (signal_aborted s (req_signal r)).
  destruct (signal_aborted s (req_signal r)); [done|].
  destruct o as [res|]; [|done]. simpl.
  by destruct (on_success r res (store s)).
Qed.

Lemma resolve_columns i o s t : resolve i o s = Some t -> columns t = columns s.
Proof.
  unfold resolve. destruct (inflight s !! i) as [r|]; [|by intros [= <-]].
  destruct (awaited s r o) as [res|]; [|by intros [= <-]].
  destruct (on_success r res (store s)); simpl; [by intros [= <-]|done].
Qed.

Lemma ensure_store_other cols p k :
  k ∉ (col_id <$> cols) -> ensure_store cols p !! k = p !! k.
Proof.
  revert p. induction cols as [|c cols IH]; intros p Hk; [done|].
  rewrite fmap_cons in Hk. apply not_elem_of_cons in Hk as [Hne Hk].
  simpl. rewrite IH by done.
  destruct (p !! col_id c); [done|]. by rewrite lookup_insert_ne.
Qed.

(** C8 (amended).  [removeColumn] takes the instance out of the list of
    columns and does nothing else: the requests in flight, the abort
    controllers and the store, with the record of the removed instance, are
    as before, and the effect on the columns that follows keeps that
    record.  When a request of the removed instance settles later, the
    instance does not come back into the list of columns and has no entry
    in the visible items, and the store is updated exactly as it would
    have been without the removal. *)
Theorem removeColumn_keeps_request_and_record (s : State) (id : string) (i : nat) (o : Settled) :
  let s' := removeColumn id s in
  columns s' = filter (fun c => col_id c ≠ id) (columns s) /\
  inflight s' = inflight s /\
  store s' = store s /\
  controllers s' = controllers s /\
  abortRef s' = abortRef s /\
  store (columns_effect s') !! id = store s !! id /\
  resolve i o s' = removeColumn id <$> resolve i o s /\
  (forall t, resolve i o s' = Some t ->
     (id ∉ (col_id <$> columns t)) /\
     visibleByColumn (columns t) (store t) (globalSearch t) !! id = None).
Proof.
  intros s'. do 5 (split; [reflexivity|]).
  split.
  { simpl. apply ensure_store_other. intros H.
    apply list_elem_of_fmap in H as (c & -> & Hc).
    apply list_elem_of_filter in Hc as [Hc _]. by apply Hc. }
  split; [apply resolve_removeColumn|].
  intros t Ht. apply resolve_columns in Ht.
  assert (Hnot : id ∉ col_id <$> columns t).
  { rewrite Ht. simpl. intros H. apply list_elem_of_fmap in H as (c & -> & Hc).
    apply list_elem_of_filter in Hc as [Hc _]. by apply Hc. }
  split; [done|]. rewrite visibleByColumn_lookup. by rewrite decide_False.
Qed.

Lemma removeColumn_keeps_request_and_record_witness :
  "col_hn" ∉ (col_id <$> columns
     (removeColumn "col_hn"
        (default mounted (resolve 0 (Fulfilled Sample.page0) mounted)))).
Proof.
  refine (proj1 (proj2 (proj2 (proj2 (proj2 (proj2 (proj2 (proj2
    (removeColumn_keeps_request_and_record mounted "col_hn" 0
       (Fulfilled Sample.page0)))))))) _ _)).
  vm_compute. reflexivity.
Defined.

(** C8, as stated, fails: the column ["col_hn"] is removed while its
    request for a further page is in flight; the request is not aborted,
    and when it is fulfilled the record of the removed column gets the
    items of the new page. *)
Lemma removed_column_is_still_mutated :
  match Sample.removed_while_loading with
  | Some s =>
      col_id <$> columns s = ["col_reddit"; "col_nasa"] /\
      (store s !! "col_hn") ≫= items = Some [Sample.i1; Sample.i2] /\
      (signal_aborted s ∘ req_signal) <$> inflight s !! 1 = Some false /\
      match resolve 1 (Fulfilled Sample.page1) s with
      | Some t =>
          (store t !! "col_hn") ≫= items =
          Some [Sample.i1; Sample.i2; Sample.i3; Sample.i4]
      | None => False
      end
  | None => False
  end.
Proof. vm_compute. repeat split. Qed.

(** ** Failures of the feature source *)

(** C4.  When the upstream of the feature source fails (the transport
    rejects, the response is not [ok], or its body does not parse),
    [fetchNASA] rejects instead of returning a placeholder; whatever call
    awaits such a rejection ends with the error message of its column set
    and every buffer as it was.  For a column of type [nasa], [loadColumn]
    does not reach the [return] of the placeholder object: it throws, the
    column shows the error message, its loading flag is cleared, and no
    buffer changes, so the placeholder item is not stored. *)
Theorem feature_failure_is_reported
  (URL_after_scheme : string -> string -> option ParsedURL)
  (Date_parse : string -> option Z)
  (resp : Http ApodData) (s : State) (col : Column) (mode : Mode) (now : Z) :
  json_of resp = None ->
  find_col (col_id col) (columns s) = Some col ->
  col_type col = nasa ->
  let s' := loadColumn (col_id col) mode s in
  fetchNASA URL_after_scheme Date_parse resp = Rejected /\
  loadColumn_try col mode s <> ReturnPlaceholder /\
  prop_error s' (col_id col) <> "" /\
  prop_loading s' (col_id col) = false /\
  (forall k, bucket (store s') k = bucket (store s) k) /\
  (forall it, it ∈ res_items (nasa_fallback now) ->
     it ∉ bucket (store s) (col_id col) -> it ∉ bucket (store s') (col_id col)) /\
  (forall st i r, inflight st !! i = Some r ->
     exists st', resolve i (fetchNASA URL_after_scheme Date_parse resp) st = Some st' /\
       prop_error st' (col_id (req_col r)) = failure_message (col_type (req_col r)) /\
       forall k, bucket (store st') k = bucket (store st) k).
Proof.
  intros Hresp Hf Ht s'.
  assert (Hrej : fetchNASA URL_after_scheme Date_parse resp = Rejected).
  { unfold fetchNASA. by rewrite Hresp. }
  assert (Hs : single_shot (col_type col)) by (by left).
  split; [done|].
  split; [by rewrite (loadColumn_try_single _ _ _ Hs)|].
  split; [|split; [|split; [|split]]].
  - subst s'. rewrite (loadColumn_single _ _ _ _ Hf Hs). unfold prop_error. simpl.
    rewrite lookup_insert_eq. simpl. apply failure_message_nonempty.
  - subst s'. rewrite (loadColumn_single _ _ _ _ Hf Hs). unfold prop_loading. simpl.
    by rewrite lookup_insert_eq.
  - intros k. apply loadColumn_bucket.
  - intros it _ Hnot. subst s'. by rewrite loadColumn_bucket.
  - intros st i r Hi. rewrite Hrej.
    rewrite (resolve_rejected i r Rejected st Hi) by (unfold awaited; by case_match).
    eexists. split; [reflexivity|]. split.
    + unfold prop_error. simpl. by rewrite (proj2 (on_failure_flags _ _)).
    + intros k. unfold bucket. simpl. by rewrite on_failure_items.
Qed.

Lemma feature_failure_is_reported_witness :
  fetchNASA Sample.URL_after_scheme Sample.Date_parse (Response false None) = Rejected /\
  prop_error (loadColumn "col_nasa" Refresh init) "col_nasa" <> "".
Proof.
  refine (_ (feature_failure_is_reported Sample.URL_after_scheme Sample.Date_parse
               (Response false None) init
               {| col_id := "col_nasa"; col_type := nasa |} Refresh 0%Z
               eq_refl _ eq_refl)).
  - intros (H1 & _ & H2 & _). exact (conj H1 H2).
  - vm_compute. reflexivity.
Defined.

(** ** Abort controllers along a run *)

Lemma foldl_loadColumn_frame cols st :
  let st' := foldl (fun st c => loadColumn (col_id c) Refresh st) st cols in
  columns st' = columns st /\ abortRef st' = abortRef st /\ controllers st' = controllers st.
Proof.
  revert st. induction cols as [|c cols IH]; intros st; simpl; [done|].
  destruct (IH (loadColumn (col_id c) Refresh st)) as (-> & -> & ->).
  by destruct (loadColumn_frame (col_id c) Refresh st) as (-> & -> & -> & _).
Qed.

Lemma refreshAll_frame s :
  columns (refreshAll s) = columns s /\
  abortRef (refreshAll s) = Some (length (controllers s)) /\
  controllers (refreshAll s) =
    match abortRef s with
    | Some n => <[n := true]> (controllers s)
    | None => controllers s
    end ++ [false].
Proof.
  unfold refreshAll.
  destruct (foldl_loadColumn_frame (columns s)
              (setStore (refresh_reset (columns s)) (renew_controller s))) as (-> & -> & ->).
  simpl. repeat split. f_equal. destruct (abortRef s); [apply length_insert|done].
Qed.

(** The requests [refreshAll] starts carry the signal of the controller it
    has just created; the requests that were in flight stay in flight. *)
Lemma foldl_loadColumn_inflight cols st :
  exists new,
    inflight (foldl (fun st c => loadColumn (col_id c) Refresh st) st cols) =
    inflight st ++ new /\
    forall r, r ∈ new -> req_signal r = abortRef st /\ req_mode r = Refresh.
Proof.
  revert st. induction cols as [|c cols IH]; intros st; simpl.
  - exists []. split; [by rewrite app_nil_r|]. intros r H. by apply elem_of_nil in H.
  - destruct (IH (loadColumn (col_id c) Refresh st)) as (new & -> & Hnew).
    destruct (loadColumn_frame (col_id c) Refresh st) as (_ & Ha & _).
    rewrite Ha in Hnew. unfold loadColumn.
    destruct (find_col (col_id c) (columns st)) as [col|]; [|by exists new].
    destruct (loadColumn_try col Refresh st) as [call| | |]; simpl; try by exists new.
    eexists (_ :: new). rewrite <- app_assoc. split; [reflexivity|].
    intros r Hr. apply elem_of_cons in Hr as [-> | Hr]; [done|by apply Hnew].
Qed.

Lemma refreshAll_inflight s :
  exists new,
    inflight (refreshAll s) = inflight s ++ new /\
    forall r, r ∈ new -> req_signal r = abortRef (refreshAll s) /\ req_mode r = Refresh.
Proof.
  destruct (refreshAll_frame s) as (_ & Ha & _). rewrite Ha. unfold refreshAll.
  destruct (foldl_loadColumn_inflight (columns s)
              (setStore (refresh_reset (columns s)) (renew_controller s)))
    as (new & -> & Hnew).
  exists new. split; [done|]. intros r Hr. destruct (Hnew r Hr) as [-> ->].
  split; [|done]. simpl. f_equal. destruct (abortRef s); [apply length_insert|done].
Qed.

(** A second [refreshAll] aborts the controller of the first. *)
Lemma refreshAll_aborts_previous s :
  signal_aborted (refreshAll (refreshAll s)) (abortRef (refreshAll s)) = true.
Proof.
  destruct (refreshAll_frame s) as (_ & Ha & Hk).
  destruct (refreshAll_frame (refreshAll s)) as (_ & _ & Hk2).
  unfold signal_aborted. rewrite Hk2, Ha, Hk.
  set (l := match abortRef s with
            | Some n => <[n:=true]> (controllers s)
            | None => controllers s
            end).
  assert (Hl : length l = length (controllers s)).
  { subst l. destruct (abortRef s); [apply length_insert|done]. }
  rewrite <- Hl. rewrite lookup_app_l.
  - rewrite list_lookup_insert_eq; [done|]. rewrite length_app. simpl. lia.
  - rewrite length_insert, length_app. simpl. lia.
Qed.

Lemma resolve_controllers i o s t :
  resolve i o s = Some t -> controllers t = controllers s /\ abortRef t = abortRef s.
Proof.
  unfold resolve. destruct (inflight s !! i) as [r|]; [|by intros [= <-]].
  destruct (awaited s r o) as [res|]; [|by intros [= <-]].
  destruct (on_success r res (store s)); simpl; [by intros [= <-]|done].
Qed.

(** Once aborted, a controller stays aborted. *)
Lemma aborted_step e s t n :
  step e s = Some t -> controllers s !! n = Some true -> controllers t !! n = Some true.
Proof.
  intros Hstep Hn. destruct e; simpl in Hstep; try (injection Hstep as <-); try done.
  - by destruct (loadColumn_frame colId mode s) as (_ & _ & -> & _).
  - unfold clickLoadMore. case_match; [|done].
    by destruct (loadColumn_frame colId More s) as (_ & _ & -> & _).
  - destruct (refreshAll_frame s) as (_ & _ & ->).
    apply lookup_app_l_Some. destruct (abortRef s) as [m|]; [|done].
    destruct (decide (m = n)) as [->|Hne].
    + rewrite list_lookup_insert_eq; [done|]. by eapply lookup_lt_Some.
    + by rewrite list_lookup_insert_ne.
  - by destruct (resolve_controllers _ _ _ _ Hstep) as [-> _].
Qed.

Lemma aborted_run evs s t n :
  run evs s = Some t -> controllers s !! n = Some true -> controllers t !! n = Some true.
Proof.
  revert s. induction evs as [|e evs IH]; intros s; simpl; [by intros [= <-]|].
  destruct (step e s) as [s1|] eqn:E; simpl; [|done].
  intros Hrun Hn. eapply IH; [done|]. by eapply aborted_step.
Qed.

(** The current controller is never an aborted one. *)
Lemma current_controller_live evs s :
  run evs init = Some s -> signal_aborted s (abortRef s) = false.
Proof.
  assert (Hstep : forall e s t, step e s = Some t ->
            signal_aborted s (abortRef s) = false -> signal_aborted t (abortRef t) = false).
  { intros e s0 t Hstep H. destruct e; simpl in Hstep; try (injection Hstep as <-); try done.
    - unfold signal_aborted.
      by destruct (loadColumn_frame colId mode s0) as (_ & -> & -> & _).
    - unfold clickLoadMore. case_match; [|done]. unfold signal_aborted.
      by destruct (loadColumn_frame colId More s0) as (_ & -> & -> & _).
    - destruct (refreshAll_frame s0) as (_ & Ha & Hk). unfold signal_aborted.
      rewrite Ha, Hk.
      replace (length (controllers s0)) with
        (length (match abortRef s0 with
                 | Some n => <[n:=true]> (controllers s0)
                 | None => controllers s0
                 end)) by (destruct (abortRef s0); [apply length_insert|done]).
      by rewrite list_lookup_middle.
    - destruct (resolve_controllers _ _ _ _ Hstep) as [Hk Ha]. unfold signal_aborted.
      by rewrite Ha, Hk. }
  assert (Hrun : forall evs s t, run evs s = Some t ->
            signal_aborted s (abortRef s) = false -> signal_aborted t (abortRef t) = false).
  { clear evs s. induction evs as [|e evs IH]; intros s t; simpl; [by intros [= <-]|].
    destruct (step e s) as [s1|] eqn:E; simpl; [|done].
    intros Hr H. eapply IH; [done|]. by eapply Hstep. }
  intros H. by eapply Hrun.
Qed.

(** ** Requests cancelled by [refreshAll] *)

(** [refreshAll] aborts the controller that was current. *)
Lemma refreshAll_aborts_current s n :
  abortRef s = Some n -> n < length (controllers s) ->
  controllers (refreshAll s) !! n = Some true.
Proof.
  intros Ha Hn. destruct (refreshAll_frame s) as (_ & _ & ->). rewrite Ha.
  apply lookup_app_l_Some. by apply list_lookup_insert_eq.
Qed.

Lemma refreshAll_keeps_inflight s r : r ∈ inflight s -> r ∈ inflight (refreshAll s).
Proof.
  intros Hr. destruct (refreshAll_inflight s) as (new & -> & _).
  apply elem_of_app. by left.
Qed.

(** A request whose signal is aborted settles as a failure. *)
Lemma resolve_aborted s i r o :
  inflight s !! i = Some r ->
  signal_aborted s (req_signal r) = true ->
  exists s',
    resolve i o s = Some s' /\
    columns s' = columns s /\
    globalSearch s' = globalSearch s /\
    inflight s' = delete i (inflight s) /\
    (forall k, (store s' !! k) ≫= items = (store s !! k) ≫= items) /\
    (forall k, page (spread (store s' !! k)) = page (spread (store s !! k)) /\
               after (spread (store s' !! k)) = after (spread (store s !! k)) /\
               hasMore (spread (store s' !! k)) = hasMore (spread (store s !! k))) /\
    (forall k, k <> col_id (req_col r) -> store s' !! k = store s !! k) /\
    prop_loading s' (col_id (req_col r)) = false /\
    prop_error s' (col_id (req_col r)) = failure_message (col_type (req_col r)).
Proof.
  intros Hi Ha.
  rewrite (resolve_rejected i r o s Hi (awaited_aborted _ _ _ Ha)).
  eexists. split; [reflexivity|]. simpl.
  split; [done|]. split; [done|]. split; [done|].
  split; [intros k; apply on_failure_items|].
  split; [intros k; apply on_failure_cursor|].
  split; [intros k Hk; by apply on_failure_lookup_ne|].
  unfold prop_loading, prop_error. simpl.
  by destruct (on_failure_flags (req_col r) (store s)) as [-> ->].
Qed.

(** C7 (amended).  [refreshAll] cancels the requests in flight that carry
    the signal of the current controller and keeps them in flight;
    [removeColumn] cancels nothing.  A request whose signal has been
    aborted settles as a rejection whatever the network delivers, and the
    rejection is handled like any other failure: the items, the cursor and
    [hasMore] of every instance, and the whole record of every other
    instance, stay as they were, while the loading flag of the request's
    instance is cleared and its error message is set to the failure
    message, which the column displays. *)
Theorem aborted_request_is_reported (s : State) (i : nat) (r : Request) (o : Settled) :
  inflight s !! i = Some r ->
  signal_aborted s (req_signal r) = true ->
  (exists s',
     resolve i o s = Some s' /\
     columns s' = columns s /\
     inflight s' = delete i (inflight s) /\
     (forall k, (store s' !! k) ≫= items = (store s !! k) ≫= items) /\
     (forall k, page (spread (store s' !! k)) = page (spread (store s !! k)) /\
                after (spread (store s' !! k)) = after (spread (store s !! k)) /\
                hasMore (spread (store s' !! k)) = hasMore (spread (store s !! k))) /\
     (forall k, k <> col_id (req_col r) -> store s' !! k = store s !! k) /\
     prop_loading s' (col_id (req_col r)) = false /\
     prop_error s' (col_id (req_col r)) = failure_message (col_type (req_col r)) /\
     prop_error s' (col_id (req_col r)) <> "") /\
  (forall s0 n r0,
     abortRef s0 = Some n -> n < length (controllers s0) ->
     r0 ∈ inflight s0 -> req_signal r0 = Some n ->
     r0 ∈ inflight (refreshAll s0) /\
     signal_aborted (refreshAll s0) (req_signal r0) = true) /\
  (forall s0 id signal,
     signal_aborted (removeColumn id s0) signal = signal_aborted s0 signal).
Proof.
  intros Hi Ha. split; [|split].
  - destruct (resolve_aborted s i r o Hi Ha)
      as (s' & H1 & H2 & _ & H3 & H4 & H5 & H6 & H7 & H8).
    exists s'. repeat (split; [done|]). rewrite H8. apply failure_message_nonempty.
  - intros s0 n r0 Hn Hlen Hr0 Hsig. split; [by apply refreshAll_keeps_inflight|].
    unfold signal_aborted. rewrite Hsig.
    by rewrite (refreshAll_aborts_current s0 n Hn Hlen).
  - done.
Qed.

Lemma aborted_request_is_reported_witness :
  exists s',
    resolve 0 (Fulfilled Sample.page0) Sample.refreshed_twice = Some s' /\
    prop_error s' "col_hn" = "Could not load content. Try Refresh.".
Proof.
  refine (_ (aborted_request_is_reported Sample.refreshed_twice 0
               {| req_col := {| col_id := "col_hn"; col_type := hn |};
                  req_mode := Refresh; req_call := CallHN "" 0 "7d";
                  req_signal := Some 0 |}
               (Fulfilled Sample.page0) _ _)).
  - intros [(s' & H1 & _ & _ & _ & _ & _ & _ & H2 & _) _]. exists s'. exact (conj H1 H2).
  - vm_compute. reflexivity.
  - vm_compute. reflexivity.
Defined.

(** C7, as stated, fails: after two calls of [refreshAll] in a row the
    first request of the Hacker News column is cancelled (its signal is
    aborted); the column is loading and shows no error.  When the
    cancelled request settles, the store changes: the loading flag of the
    column is cleared although its new request is still in flight, and the
    column shows the failure message. *)
Lemma cancelled_request_is_surfaced :
  (signal_aborted Sample.refreshed_twice ∘ req_signal) <$>
    inflight Sample.refreshed_twice !! 0 = Some true /\
  prop_error Sample.refreshed_twice "col_hn" = "" /\
  prop_loading Sample.refreshed_twice "col_hn" = true /\
  match resolve 0 Rejected Sample.refreshed_twice with
  | Some t =>
      store t <> store Sample.refreshed_twice /\
      prop_loading t "col_hn" = false /\
      prop_error t "col_hn" = "Could not load content. Try Refresh." /\
      length (filter (fun r => col_id (req_col r) = "col_hn") (inflight t)) = 1
  | None => False
  end.
Proof.
  split; [by vm_compute|]. split; [by vm_compute|]. split; [by vm_compute|].
  destruct (resolve 0 Rejected Sample.refreshed_twice) as [t|] eqn:E;
    vm_compute in E; [|discriminate].
  injection E as <-.
  split; [|by vm_compute].
  intros H. apply (f_equal (fun p => loading <$> p !! "col_hn")) in H.
  vm_compute in H. discriminate.
Qed.

(** ** Loading more *)

Lemma paged_or_single t : paged t \/ single_shot t.
Proof. unfold paged, single_shot. destruct t; auto. Qed.

Lemma clickLoadMore_twice colId s :
  clickLoadMore colId (clickLoadMore colId s) = clickLoadMore colId s.
Proof.
  unfold clickLoadMore at 2 3.
  destruct (prop_hasMore s colId && negb (prop_loading s colId)) eqn:G;
    [|unfold clickLoadMore; by rewrite G].
  apply andb_true_iff in G as [Gm Gl]. apply negb_true_iff in Gl.
  destruct (find_col colId (columns s)) as [col|] eqn:Hf.
  - destruct (paged_or_single (col_type col)) as [Hp | Hs].
    + destruct (loadColumn_paged _ _ More _ Hf Hp) as (call & _ & ->).
      unfold clickLoadMore, prop_hasMore, prop_loading. simpl.
      rewrite lookup_insert_eq. simpl. by rewrite andb_false_r.
    + rewrite (loadColumn_single _ _ _ _ Hf Hs).
      unfold clickLoadMore.
      assert (G' : prop_hasMore (setStore (fun p => <[colId := mark_failed (failure_message (col_type col))
                       (mark_loading (spread (p !! colId)))]> p) s) colId
                   && negb (prop_loading (setStore (fun p => <[colId := mark_failed (failure_message (col_type col))
                       (mark_loading (spread (p !! colId)))]> p) s) colId) = true).
      { unfold prop_hasMore, prop_loading in *. simpl. rewrite lookup_insert_eq. simpl.
        rewrite andb_true_r. destruct (store s !! colId); simpl in *; done. }
      rewrite G'. rewrite (loadColumn_single colId col) by done.
      unfold setStore. simpl. f_equal.
      rewrite lookup_insert_eq. simpl. by rewrite insert_insert_eq.
  - rewrite (loadColumn_missing _ _ _ Hf). unfold clickLoadMore.
    rewrite Gm, Gl. simpl. by apply loadColumn_missing.
Qed.

(** C3 (amended).  The guard against duplicate pagination is in the Load
    More button, not in [loadColumn]: a click on the button while the
    instance is loading, or has no more pages, changes nothing and calls
    no client, so that two clicks in immediate succession do what one
    click does and add at most one request; [loadColumn] itself, in either
    mode, calls the client of any Hacker News or Reddit column it finds and
    adds a request in flight whatever the flags of the instance are. *)
Theorem load_more_guard_is_in_the_button (s : State) (colId : string) :
  (prop_loading s colId = true \/ prop_hasMore s colId = false ->
   clickLoadMore colId s = s) /\
  clickLoadMore colId (clickLoadMore colId s) = clickLoadMore colId s /\
  length (inflight (clickLoadMore colId s)) <= S (length (inflight s)) /\
  (forall col mode,
     find_col colId (columns s) = Some col -> paged (col_type col) ->
     exists call,
       inflight (loadColumn colId mode s) =
       inflight s ++ [ {| req_col := col; req_mode := mode; req_call := call;
                          req_signal := abortRef s |} ]).
Proof.
  split; [|split; [|split]].
  - intros H. unfold clickLoadMore.
    destruct H as [-> | ->]; [by rewrite andb_false_r|done].
  - apply clickLoadMore_twice.
  - unfold clickLoadMore. case_match; [|lia].
    unfold loadColumn. destruct (find_col colId (columns s)) as [col|]; [|lia].
    destruct (loadColumn_try col More s); simpl; rewrite ?length_app; simpl; lia.
  - intros col mode Hf Hp.
    destruct (loadColumn_paged _ _ mode _ Hf Hp) as (call & _ & ->).
    by exists call.
Qed.

Lemma load_more_guard_is_in_the_button_witness :
  clickLoadMore "col_hn" mounted = mounted /\
  exists call,
    inflight (loadColumn "col_hn" More mounted) =
    inflight mounted ++ [ {| req_col := {| col_id := "col_hn"; col_type := hn |};
                             req_mode := More; req_call := call;
                             req_signal := abortRef mounted |} ].
Proof.
  refine (_ (load_more_guard_is_in_the_button mounted "col_hn")).
  intros (H1 & _ & _ & H2). split.
  - apply H1. left. vm_compute. reflexivity.
  - apply H2; [vm_compute; reflexivity | left; reflexivity].
Defined.

(** C3, as stated, fails: after the mount the Hacker News column is
    loading, with one request in flight.  A call of [loadColumn] for more
    is not a no-op: it starts a second request of the same column.  The
    Refresh button of the column, which has no guard either, does the
    same. *)
Lemma loadColumn_has_no_guard :
  prop_loading mounted "col_hn" = true /\
  length (filter (fun r => col_id (req_col r) = "col_hn") (inflight mounted)) = 1 /\
  loadColumn "col_hn" More mounted <> mounted /\
  length (filter (fun r => col_id (req_col r) = "col_hn")
            (inflight (loadColumn "col_hn" More mounted))) = 2 /\
  length (filter (fun r => col_id (req_col r) = "col_hn")
            (inflight (loadColumn "col_hn" Refresh mounted))) = 2.
Proof.
  split; [by vm_compute|]. split; [by vm_compute|].
  split; [|split; by vm_compute].
  intros H. apply (f_equal (fun s => length (inflight s))) in H.
  vm_compute in H. discriminate.
Qed.

(** ** Pages *)

(** The cursor a paged column hands to its client. *)
Lemma loadColumn_try_hn col mode s :
  col_type col = hn ->
  loadColumn_try col mode s =
  Await (CallHN (hnQuery s)
           match mode with
           | More => default 0 ((store s !! col_id col) ≫= page)
           | Refresh => 0
           end (hnDaysBack s)).
Proof. intros H. unfold loadColumn_try. rewrite H. by rewrite decide_True. Qed.

Lemma loadColumn_try_reddit col mode s :
  col_type col = reddit ->
  loadColumn_try col mode s =
  Await (CallReddit (hnQuery s)
           match mode with
           | More => (store s !! col_id col) ≫= after
           | Refresh => None
           end).
Proof.
  intros H. unfold loadColumn_try. rewrite H.
  rewrite decide_False by done. rewrite decide_True by done.
  unfold Js.or_else, Js.truthy. by destruct (hnQuery s).
Qed.

(** A paged column is asked to load and its request is fulfilled before
    anything else happens. *)
Lemma load_then_fulfil s colId col mode res :
  find_col colId (columns s) = Some col ->
  paged (col_type col) ->
  signal_aborted s (abortRef s) = false ->
  (mode = More -> is_Some ((store s !! colId) ≫= items)) ->
  exists s' rec,
    resolve (length (inflight s)) (Fulfilled res) (loadColumn colId mode s) = Some s' /\
    columns s' = columns s /\ inflight s' = inflight s /\
    abortRef s' = abortRef s /\ controllers s' = controllers s /\
    hnQuery s' = hnQuery s /\ hnDaysBack s' = hnDaysBack s /\
    store s' = <[colId := rec]> (store s) /\
    items rec =
      Some (match mode with
            | More => default [] ((store s !! colId) ≫= items)
            | Refresh => []
            end ++ res_items res) /\
    loading rec = false /\ error rec = "" /\ hasMore rec = res_hasMore res /\
    (col_type col = hn ->
     page rec = res_nextPage res /\ after rec = (store s !! colId) ≫= after) /\
    (col_type col = reddit ->
     after rec = res_nextAfter res /\ page rec = (store s !! colId) ≫= page).
Proof.
  intros Hf Hp Hlive Hitems.
  pose proof (find_col_id _ _ _ Hf) as Hid.
  destruct (loadColumn_paged _ _ mode _ Hf Hp) as (call & Htry & ->).
  set (r := {| req_col := col; req_mode := mode; req_call := call;
               req_signal := abortRef s |}).
  assert (Hcall : (col_type col = hn /\ exists q pg d, call = CallHN q pg d) \/
                  (col_type col = reddit /\ exists q a, call = CallReddit q a)).
  { destruct Hp as [Hp | Hp]; [left | right]; (split; [done|]).
    - rewrite (loadColumn_try_hn _ _ _ Hp) in Htry. injection Htry as <-. eauto.
    - rewrite (loadColumn_try_reddit _ _ _ Hp) in Htry. injection Htry as <-. eauto. }
  unfold resolve. simpl.
  rewrite list_lookup_middle by done.
  unfold awaited. change (signal_aborted _ (req_signal r)) with (signal_aborted s (abortRef s)).
  rewrite Hlive.
  replace (delete (length (inflight s)) (inflight s ++ [r])) with (inflight s); cycle 1.
  { rewrite delete_take_drop, take_app_length.
    rewrite drop_ge by (rewrite length_app; simpl; lia). by rewrite app_nil_r. }
  assert (Hprev : prevItems mode (<[colId := mark_loading (spread (store s !! colId))]> (store s)) colId =
                  Some match mode with
                       | More => default [] ((store s !! colId) ≫= items)
                       | Refresh => []
                       end).
  { unfold prevItems. destruct mode; [done|]. rewrite lookup_insert_eq. simpl.
    destruct (Hitems eq_refl) as [l Hl].
    destruct (store s !! colId) as [r0|]; simpl in *; [by rewrite Hl|done]. }
  unfold on_success. simpl. rewrite Hid.
  destruct Hcall as [[Ht (q & pg & d & ->)] | [Ht (q & a & ->)]];
    rewrite Hprev; simpl; do 2 eexists;
    (split; [reflexivity|]); simpl;
    rewrite insert_insert_eq, lookup_insert_eq; simpl;
    repeat (split; [done|]); (repeat split; try done; try congruence);
    destruct (store s !! colId); done.
Qed.

Lemma fetchHN_next_page U D pg resp res :
  fetchHN U D pg resp = Fulfilled res -> res_nextPage res = Some (pg + 1).
Proof.
  unfold fetchHN. destruct (json_of resp); [|done]. by intros [= <-].
Qed.

(** Whenever a request for more of a paged column is fulfilled, the items
    of the result are added after the items the column holds, which stay
    as they are. *)
Lemma resolve_more_appends t i r res t' :
  inflight t !! i = Some r ->
  req_mode r = More ->
  req_call r <> CallQuote ->
  signal_aborted t (req_signal r) = false ->
  resolve i (Fulfilled res) t = Some t' ->
  exists old,
    (store t !! col_id (req_col r)) ≫= items = Some old /\
    (store t' !! col_id (req_col r)) ≫= items = Some (old ++ res_items res).
Proof.
  intros Hi Hm Hc Hlive. unfold resolve. rewrite Hi, (awaited_live _ _ _ Hlive).
  unfold on_success, prevItems. rewrite Hm.
  destruct (req_call r); [| |done];
    (destruct ((store t !! col_id (req_col r)) ≫= items) as [old|] eqn:E; simpl; [|done]);
    intros [= <-]; exists old; (split; [done|]); simpl;
    by rewrite lookup_insert_eq.
Qed.

(** C6.  A paged column (Hacker News or Reddit) is refreshed and its
    request is fulfilled with [page0]; it is then asked for more, with the
    cursor [page0] gave, and that request is fulfilled with [page1].  The
    buffer of the column is then the items of [page0] followed by those of
    [page1], its cursor is the one [page1] gave, its [hasMore] is that of
    [page1], its loading flag and its error are cleared, and the records of
    the other columns are as at the start.  The cursor the Hacker News
    client gives is the page it was asked for plus one.  In any state, a
    request for more that is fulfilled adds the items of its result after
    the items its column holds. *)
Theorem pagination_appends_in_order (s : State) (col : Column) (page0 page1 : AdapterResult) :
  find_col (col_id col) (columns s) = Some col ->
  paged (col_type col) ->
  signal_aborted s (abortRef s) = false ->
  let colId := col_id col in
  let n := length (inflight s) in
  exists s2 s4,
    resolve n (Fulfilled page0) (loadColumn colId Refresh s) = Some s2 /\
    bucket (store s2) colId = res_items page0 /\
    resolve n (Fulfilled page1) (loadColumn colId More s2) = Some s4 /\
    (store s4 !! colId) ≫= items = Some (res_items page0 ++ res_items page1) /\
    bucket (store s4) colId = res_items page0 ++ res_items page1 /\
    prop_hasMore s4 colId = res_hasMore page1 /\
    prop_loading s4 colId = false /\
    prop_error s4 colId = "" /\
    (col_type col = hn ->
     loadColumn_try col More s2 =
       Await (CallHN (hnQuery s) (default 0 (res_nextPage page0)) (hnDaysBack s)) /\
     (store s4 !! colId) ≫= page = res_nextPage page1) /\
    (col_type col = reddit ->
     loadColumn_try col More s2 =
       Await (CallReddit (hnQuery s) (res_nextAfter page0)) /\
     (store s4 !! colId) ≫= after = res_nextAfter page1) /\
    (forall k, k <> colId -> store s4 !! k = store s !! k) /\
    (forall U D pg resp res,
       fetchHN U D pg resp = Fulfilled res -> res_nextPage res = Some (pg + 1)) /\
    (forall t i r res t',
       inflight t !! i = Some r -> req_mode r = More -> req_call r <> CallQuote ->
       signal_aborted t (req_signal r) = false ->
       resolve i (Fulfilled res) t = Some t' ->
       exists old,
         (store t !! col_id (req_col r)) ≫= items = Some old /\
         (store t' !! col_id (req_col r)) ≫= items = Some (old ++ res_items res)).
Proof.
  intros Hf Hp Hlive colId n.
  destruct (load_then_fulfil s colId col Refresh page0 Hf Hp Hlive)
    as (s2 & rec2 & E2 & Hc2 & Hi2 & Ha2 & Hk2 & Hq2 & Hd2 & Hs2 & Hit2 & _ & _ & _ & Hhn2 & Hrd2);
    [done|].
  assert (Hrec2 : store s2 !! colId = Some rec2) by (rewrite Hs2; apply lookup_insert_eq).
  destruct (load_then_fulfil s2 colId col More page1)
    as (s4 & rec4 & E4 & Hc4 & Hi4 & Ha4 & Hk4 & Hq4 & Hd4 & Hs4 & Hit4 & Hl4 & He4 & Hm4 & Hhn4 & Hrd4).
  { by rewrite Hc2. }
  { done. }
  { unfold signal_aborted. rewrite Ha2, Hk2. exact Hlive. }
  { intros _. rewrite Hrec2. simpl. rewrite Hit2. by eexists. }
  rewrite Hrec2 in Hit4. simpl in Hit4. rewrite Hit2 in Hit4. simpl in Hit4.
  assert (Hrec4 : store s4 !! colId = Some rec4) by (rewrite Hs4; apply lookup_insert_eq).
  exists s2, s4. subst n. rewrite Hi2 in E4.
  split; [done|].
  split; [unfold bucket; rewrite Hrec2; simpl; by rewrite Hit2|].
  split; [done|].
  split; [rewrite Hrec4; simpl; by rewrite Hit4|].
  split; [unfold bucket; rewrite Hrec4; simpl; by rewrite Hit4|].
  unfold prop_hasMore, prop_loading, prop_error. rewrite Hrec4. simpl.
  split; [done|]. split; [done|]. split; [done|].
  split; [|split; [|split; [|split]]].
  - intros Ht. rewrite (loadColumn_try_hn _ _ _ Ht). fold colId. rewrite Hrec2. simpl.
    rewrite Hq2, Hd2. destruct (Hhn2 Ht) as [-> _]. split; [done|].
    by destruct (Hhn4 Ht) as [-> _].
  - intros Ht. rewrite (loadColumn_try_reddit _ _ _ Ht). fold colId. rewrite Hrec2. simpl.
    rewrite Hq2. destruct (Hrd2 Ht) as [-> _]. split; [done|].
    by destruct (Hrd4 Ht) as [-> _].
  - intros k Hk. rewrite Hs4, lookup_insert_ne by done.
    by rewrite Hs2, lookup_insert_ne.
  - intros U D pg resp res. apply fetchHN_next_page.
  - intros t i r res t'. apply resolve_more_appends.
Qed.

Lemma pagination_appends_in_order_witness :
  exists s2 s4,
    resolve 0 (Fulfilled Sample.page0) (loadColumn "col_hn" Refresh init) = Some s2 /\
    resolve 0 (Fulfilled Sample.page1) (loadColumn "col_hn" More s2) = Some s4 /\
    bucket (store s4) "col_hn" = [Sample.i1; Sample.i2; Sample.i3; Sample.i4].
Proof.
  refine (_ (pagination_appends_in_order init {| col_id := "col_hn"; col_type := hn |}
               Sample.page0 Sample.page1 _ _ eq_refl)).
  - intros (s2 & s4 & H1 & _ & H2 & _ & H3 & _). exists s2, s4. exact (conj H1 (conj H2 H3)).
  - vm_compute. reflexivity.
  - left. reflexivity.
Defined.

Lemma visibleByColumn_ext cols p p' search :
  (forall k, bucket p k = bucket p' k) ->
  visibleByColumn cols p search = visibleByColumn cols p' search.
Proof.
  intros H. apply map_eq. intros k. rewrite !visibleByColumn_lookup. by rewrite H.
Qed.

(** ** Stale responses *)

(** C2.  [refreshAll] is called, and called again before any request of
    the first call has settled.  Every request the first call started
    carries the signal of the controller that call created, all of them
    are still in flight after the second call, and the second call has
    aborted that controller.  From then on, whatever else happens (the
    requests of the second call may produce their results), when a request
    carrying that signal settles, no item of what the network delivered
    for it enters any buffer: every buffer, and with it the visible items,
    is as before. *)
Theorem stale_response_is_discarded
  (s : State) (evs : list Event) (t : State) (i : nat) (r : Request) (o : Settled) :
  run evs (refreshAll (refreshAll s)) = Some t ->
  inflight t !! i = Some r ->
  req_signal r = abortRef (refreshAll s) ->
  (exists new,
     inflight (refreshAll s) = inflight s ++ new /\
     (forall r0, r0 ∈ new -> req_signal r0 = abortRef (refreshAll s)) /\
     exists newer, inflight (refreshAll (refreshAll s)) = (inflight s ++ new) ++ newer) /\
  signal_aborted t (req_signal r) = true /\
  exists t',
    resolve i o t = Some t' /\
    (forall k, (store t' !! k) ≫= items = (store t !! k) ≫= items) /\
    (forall k, bucket (store t') k = bucket (store t) k) /\
    visibleByColumn (columns t') (store t') (globalSearch t') =
    visibleByColumn (columns t) (store t) (globalSearch t).
Proof.
  intros Hrun Hi Hsig.
  split.
  { destruct (refreshAll_inflight s) as (new & E & Hnew).
    destruct (refreshAll_inflight (refreshAll s)) as (newer & E2 & _).
    exists new. split; [done|]. split; [intros r0 Hr0; by apply Hnew|].
    exists newer. by rewrite E2, E. }
  assert (Ha : signal_aborted t (req_signal r) = true).
  { pose proof (refreshAll_aborts_previous s) as H0.
    rewrite Hsig. unfold signal_aborted in *.
    destruct (abortRef (refreshAll s)) as [n|]; [|done].
    destruct (controllers (refreshAll (refreshAll s)) !! n) as [[|]|] eqn:E; try done.
    by rewrite (aborted_run _ _ _ _ Hrun E). }
  split; [done|].
  destruct (resolve_aborted t i r o Hi Ha) as (t' & E & Hc & Hg & _ & Hit & _).
  exists t'. split; [done|]. split; [done|].
  assert (Hb : forall k, bucket (store t') k = bucket (store t) k).
  { intros k. unfold bucket. by rewrite Hit. }
  split; [done|].
  rewrite Hc, Hg. by apply visibleByColumn_ext.
Qed.

Lemma stale_response_is_discarded_witness :
  bucket (store Sample.newer_first) "col_hn" = [Sample.i3; Sample.i4] /\
  exists t',
    resolve 0 (Fulfilled Sample.page0) Sample.newer_first = Some t' /\
    bucket (store t') "col_hn" = [Sample.i3; Sample.i4].
Proof.
  assert (Hb : bucket (store Sample.newer_first) "col_hn" = [Sample.i3; Sample.i4])
    by (vm_compute; reflexivity).
  split; [exact Hb|].
  refine (_ (stale_response_is_discarded init [Resolve 2 (Fulfilled Sample.page1)]
               Sample.newer_first 0
               {| req_col := {| col_id := "col_hn"; col_type := hn |};
                  req_mode := Refresh; req_call := CallHN "" 0 "7d";
                  req_signal := Some 0 |}
               (Fulfilled Sample.page0) _ _ _)).
  - intros (_ & _ & t' & H1 & _ & H2 & _). exists t'. split; [exact H1|].
    rewrite H2. exact Hb.
  - vm_compute. reflexivity.
  - vm_compute. reflexivity.
  - vm_compute. reflexivity.
Defined.

(** ** The view projection *)

Lemma haystack_fields it :
  haystack it =
  Js.toLowerCase
    (Js.join " "
       (filter (fun x => x <> "")
          [ it_title it; it_summary it; it_author it; default "" (it_subreddit it);
            it_host it; Js.join " " (default [] (it_tags it)) ])).
Proof.
  unfold haystack. f_equal. f_equal.
  destruct (it_title it), (it_summary it), (it_author it), (it_subreddit it) as [[|??]|],
    (it_host it), (Js.join " " (default [] (it_tags it))); reflexivity.
Qed.

Lemma visible_bucket_cases s b :
  (s = "" -> visible_bucket s b = b) /\
  (s <> "" -> visible_bucket s b = filter (fun it => Js.includes (haystack it) s = true) b).
Proof. unfold visible_bucket. destruct s; simpl; split; intros; done. Qed.

Lemma Feed_insert_Permutation cmp x l : Feed.insert cmp x l ≡ₚ x :: l.
Proof.
  induction l as [|y r IH]; simpl; [done|].
  case_match; [done|]. rewrite IH. apply Permutation_swap.
Qed.

Lemma Feed_sort_Permutation cmp l : Feed.sort cmp l ≡ₚ l.
Proof.
  induction l as [|x r IH]; simpl; [done|].
  by rewrite Feed_insert_Permutation, IH.
Qed.

Lemma Feed_hay_fields it :
  Feed.hay it =
  Js.toLowerCase
    (Js.join " "
       (filter (fun x => x <> "")
          [ it_title it; it_summary it; it_author it;
            Js.join " " (default [] (it_tags it)) ])).
Proof.
  unfold Feed.hay. f_equal. f_equal.
  destruct (it_title it), (it_summary it), (it_author it),
    (Js.join " " (default [] (it_tags it))); reflexivity.
Qed.

Lemma Feed_view_elem items sel text sortBy it :
  it ∈ Feed.view items sel text sortBy <->
  it ∈ items /\ it_source it ∈ sel /\
  (Js.toLowerCase (Js.trim text) = "" \/
   Js.includes (Feed.hay it) (Js.toLowerCase (Js.trim text)) = true).
Proof.
  unfold Feed.view. rewrite Feed_sort_Permutation.
  destruct (Js.toLowerCase (Js.trim text)) as [|a r] eqn:E; simpl.
  - rewrite list_elem_of_filter. split.
    + intros [H1 H2]. auto.
    + intros (H1 & H2 & _). auto.
  - rewrite !list_elem_of_filter. split.
    + intros (H1 & H2 & H3). auto.
    + intros (H1 & H2 & [H3 | H3]); [discriminate|auto].
Qed.

(** *** The order of [view]

    The comparison functions are total preorders; [sort] returns its
    argument sorted by them, items that compare equal staying in their
    order. *)

Lemma Feed_compare_by_cases sortBy a b :
  (Feed.compare_by sortBy a b <= 0)%Z <->
  match sortBy with
  | Feed.newest => (Feed.time_of b <= Feed.time_of a)%Z
  | Feed.oldest => (Feed.time_of a <= Feed.time_of b)%Z
  | Feed.by_score =>
      (it_score b < it_score a)%Z \/
      (it_score b = it_score a /\ (Feed.time_of b <= Feed.time_of a)%Z)
  end.
Proof.
  destruct sortBy; unfold Feed.compare_by; [lia|lia|].
  destruct (Z.eqb_spec (it_score b - it_score a) 0); lia.
Qed.

Lemma Feed_compare_by_total sortBy a b :
  ~ (Feed.compare_by sortBy a b <= 0)%Z -> (Feed.compare_by sortBy b a <= 0)%Z.
Proof. rewrite !Feed_compare_by_cases. destruct sortBy; lia. Qed.

Lemma Feed_compare_by_trans sortBy a b c :
  (Feed.compare_by sortBy a b <= 0)%Z -> (Feed.compare_by sortBy b c <= 0)%Z ->
  (Feed.compare_by sortBy a c <= 0)%Z.
Proof. rewrite !Feed_compare_by_cases. destruct sortBy; lia. Qed.

Lemma Feed_insert_sorted sortBy x l :
  StronglySorted (fun a b => (Feed.compare_by sortBy a b <= 0)%Z) l ->
  StronglySorted (fun a b => (Feed.compare_by sortBy a b <= 0)%Z)
    (Feed.insert (Feed.compare_by sortBy) x l).
Proof.
  induction 1 as [|y r Hr IH Hy]; cbn [Feed.insert].
  - constructor; constructor.
  - destruct (Z.leb_spec (Feed.compare_by sortBy x y) 0) as [Hxy|Hxy].
    + constructor; [constructor; assumption|].
      constructor; [exact Hxy|].
      eapply Forall_impl; [exact Hy|].
      intros z Hz. cbn beta in Hz. apply (Feed_compare_by_trans sortBy x y z Hxy Hz).
    + constructor; [exact IH|].
      rewrite (Feed_insert_Permutation (Feed.compare_by sortBy) x r).
      constructor; [|exact Hy].
      apply Feed_compare_by_total. lia.
Qed.

Lemma Feed_sort_sorted sortBy l :
  StronglySorted (fun a b => (Feed.compare_by sortBy a b <= 0)%Z)
    (Feed.sort (Feed.compare_by sortBy) l).
Proof.
  induction l as [|x r IH]; cbn [Feed.sort]; [constructor|].
  apply Feed_insert_sorted, IH.
Qed.

Lemma Feed_view_sorted items sel text sortBy :
  StronglySorted (fun a b => (Feed.compare_by sortBy a b <= 0)%Z)
    (Feed.view items sel text sortBy).
Proof. unfold Feed.view. apply Feed_sort_sorted. Qed.

Lemma Feed_view_Permutation items sel text sortBy :
  Feed.view items sel text sortBy ≡ₚ
  filter (fun it => it_source it ∈ sel /\
                    (Js.toLowerCase (Js.trim text) = "" \/
                     Js.includes (Feed.hay it) (Js.toLowerCase (Js.trim text)) = true))
    items.
Proof.
  unfold Feed.view. rewrite Feed_sort_Permutation.
  destruct (Js.toLowerCase (Js.trim text)) as [|a r] eqn:E; cbn [Js.truthy].
  - assert (H : forall it : Item,
        it_source it ∈ sel <->
        it_source it ∈ sel /\ ("" = "" \/ Js.includes (Feed.hay it) "" = true)).
    { intros it. split; [intros H; split; auto|intros [H _]; exact H]. }
    rewrite (list_filter_iff _ _ items H). reflexivity.
  - rewrite list_filter_filter.
    assert (H : forall it : Item,
        (Js.includes (Feed.hay it) (String a r) = true /\ it_source it ∈ sel) <->
        it_source it ∈ sel /\
        (String a r = "" \/ Js.includes (Feed.hay it) (String a r) = true)).
    { intros it. split.
      - intros [H1 H2]. split; [exact H2|right; exact H1].
      - intros [H1 [H2|H2]]; [discriminate|split; assumption]. }
    rewrite (list_filter_iff _ _ items H). reflexivity.
Qed.

Lemma Feed_compare_by_equal sortBy z x y :
  Feed.compare_by sortBy z x = 0%Z -> Feed.compare_by sortBy z y = 0%Z ->
  Feed.compare_by sortBy x y = 0%Z.
Proof.
  destruct sortBy; unfold Feed.compare_by; [lia|lia|].
  destruct (Z.eqb_spec (it_score x - it_score z) 0),
    (Z.eqb_spec (it_score y - it_score z) 0),
    (Z.eqb_spec (it_score y - it_score x) 0); lia.
Qed.

Lemma Feed_insert_stable sortBy z x l :
  filter (fun y => Feed.compare_by sortBy z y = 0%Z)
    (Feed.insert (Feed.compare_by sortBy) x l) =
  filter (fun y => Feed.compare_by sortBy z y = 0%Z) (x :: l).
Proof.
  induction l as [|y r IH]; cbn [Feed.insert]; [reflexivity|].
  destruct (Z.leb_spec (Feed.compare_by sortBy x y) 0) as [Hxy|Hxy]; [reflexivity|].
  rewrite filter_cons, IH, !filter_cons.
  destruct (decide (Feed.compare_by sortBy z y = 0%Z)) as [Hy|Hy];
    destruct (decide (Feed.compare_by sortBy z x = 0%Z)) as [Hx|Hx]; try reflexivity.
  pose proof (Feed_compare_by_equal sortBy z x y Hx Hy). lia.
Qed.

Lemma Feed_sort_stable sortBy z l :
  filter (fun y => Feed.compare_by sortBy z y = 0%Z)
    (Feed.sort (Feed.compare_by sortBy) l) =
  filter (fun y => Feed.compare_by sortBy z y = 0%Z) l.
Proof.
  induction l as [|x r IH]; cbn [Feed.sort]; [reflexivity|].
  rewrite Feed_insert_stable, !filter_cons, IH. reflexivity.
Qed.

(** [view] keeps the items that compare equal in the order of the feed. *)
Lemma Feed_view_stable items sel text sortBy z :
  filter (fun y => Feed.compare_by sortBy z y = 0%Z) (Feed.view items sel text sortBy) =
  filter (fun y => Feed.compare_by sortBy z y = 0%Z)
    (filter (fun it => it_source it ∈ sel /\
                       (Js.toLowerCase (Js.trim text) = "" \/
                        Js.includes (Feed.hay it) (Js.toLowerCase (Js.trim text)) = true))
       items).
Proof.
  unfold Feed.view. rewrite Feed_sort_stable. f_equal.
  destruct (Js.toLowerCase (Js.trim text)) as [|a r] eqn:E; cbn [Js.truthy].
  - apply list_filter_iff. intros it.
    split; [intros H; split; auto|intros [H _]; exact H].
  - rewrite list_filter_filter. apply list_filter_iff. intros it. split.
    + intros [H1 H2]. split; [exact H2|right; exact H1].
    + intros [H1 [H2|H2]]; [discriminate|split; assumption].
Qed.

(** C9 (amended).  [visibleByColumn] is a function of the columns, the
    store and the search text, and reads the store through the buffers of
    the columns only.  It has an entry for the id of every column and for
    no other id.  When the search text is empty after trimming, the entry
    of a column is its buffer, unchanged; otherwise it is the buffer
    filtered, in order, by the items whose haystack contains the trimmed,
    lower-cased text, where the haystack is the lower-cased join with
    single spaces of the non-empty ones among title, summary, author,
    subreddit, host and the space-joined tags.  The [view] of the
    single-feed version is a function of the items, the selected sources,
    the search text and the sort key: it holds the items of the selected
    sources whose haystack (title, summary, author and tags, joined in the
    same way) contains the trimmed, lower-cased text, all of them when that
    text is empty, sorted by the sort key: every item of the result comes
    before the items that follow it in the order of the key (newest: no
    earlier date first; oldest: no later date first; score: no lower score
    first and, at equal scores, no earlier date first; a missing date
    counts as time 0), and items that the key does not tell apart keep
    the order they have in the feed. *)
Theorem visible_items_by_column
  (cols : list Column) (p : gmap string ColState) (search : string) :
  let s := Js.toLowerCase (Js.trim search) in
  let out := visibleByColumn cols p search in
  (forall k, k ∉ (col_id <$> cols) -> out !! k = None) /\
  (forall c, c ∈ cols ->
     exists l,
       out !! col_id c = Some l /\
       (s = "" -> l = bucket p (col_id c)) /\
       (s <> "" ->
        l = filter (fun it => Js.includes (haystack it) s = true) (bucket p (col_id c))) /\
       l `sublist_of` bucket p (col_id c) /\
       (forall it, it ∈ l <->
          it ∈ bucket p (col_id c) /\ (s = "" \/ Js.includes (haystack it) s = true))) /\
  (forall p', (forall k, bucket p' k = bucket p k) -> visibleByColumn cols p' search = out) /\
  (forall it,
     haystack it =
     Js.toLowerCase
       (Js.join " "
          (filter (fun x => x <> "")
             [ it_title it; it_summary it; it_author it; default "" (it_subreddit it);
               it_host it; Js.join " " (default [] (it_tags it)) ]))) /\
  (forall items sel sortBy,
     Feed.view items sel search sortBy ≡ₚ
       Feed.view items sel search Feed.newest /\
     (forall it,
        it ∈ Feed.view items sel search sortBy <->
        it ∈ items /\ it_source it ∈ sel /\
        (s = "" \/ Js.includes (Feed.hay it) s = true)) /\
     Feed.view items sel search sortBy ≡ₚ
       filter (fun it => it_source it ∈ sel /\
                         (s = "" \/ Js.includes (Feed.hay it) s = true)) items /\
     StronglySorted (fun a b => (Feed.compare_by sortBy a b <= 0)%Z)
       (Feed.view items sel search sortBy) /\
     (forall z,
        filter (fun y => Feed.compare_by sortBy z y = 0%Z)
          (Feed.view items sel search sortBy) =
        filter (fun y => Feed.compare_by sortBy z y = 0%Z)
          (filter (fun it => it_source it ∈ sel /\
                             (s = "" \/ Js.includes (Feed.hay it) s = true)) items))) /\
  (forall it,
     Feed.hay it =
     Js.toLowerCase
       (Js.join " "
          (filter (fun x => x <> "")
             [ it_title it; it_summary it; it_author it;
               Js.join " " (default [] (it_tags it)) ]))) /\
  (forall sortBy a b,
     (Feed.compare_by sortBy a b <= 0)%Z <->
     match sortBy with
     | Feed.newest => (Feed.time_of b <= Feed.time_of a)%Z
     | Feed.oldest => (Feed.time_of a <= Feed.time_of b)%Z
     | Feed.by_score =>
         (it_score b < it_score a)%Z \/
         (it_score b = it_score a /\ (Feed.time_of b <= Feed.time_of a)%Z)
     end).
Proof.
  intros s out. split; [|split; [|split; [|split; [|split; [|split]]]]].
  - intros k Hk. subst out. rewrite visibleByColumn_lookup. by rewrite decide_False.
  - intros c Hc. subst out. rewrite visibleByColumn_lookup.
    rewrite decide_True by (by apply list_elem_of_fmap_2).
    fold s. destruct (visible_bucket_cases s (bucket p (col_id c))) as [He Hne].
    eexists. split; [reflexivity|]. split; [done|]. split; [done|].
    destruct (decide (s = "")) as [E|E].
    + rewrite (He E). split; [done|]. intros it. split; [intros H; split; auto|by intros [H _]].
    + rewrite (Hne E). split; [apply sublist_filter|].
      intros it. rewrite list_elem_of_filter. split.
      * intros [H1 H2]. auto.
      * intros [H1 [H2|H2]]; [contradiction|done].
  - intros p' H. by apply visibleByColumn_ext.
  - apply haystack_fields.
  - intros items sel sortBy.
    split; [unfold Feed.view; by rewrite !Feed_sort_Permutation|].
    split; [intros it; apply Feed_view_elem|].
    split; [apply Feed_view_Permutation|].
    split; [apply Feed_view_sorted|].
    intros z. apply Feed_view_stable.
  - apply Feed_hay_fields.
  - apply Feed_compare_by_cases.
Qed.

Lemma visible_items_by_column_witness :
  visibleByColumn (columns init) Sample.stories "  " !! "col_hn" = Some [Sample.story] /\
  visibleByColumn (columns init) Sample.stories "NASA" !! "col_hn" = Some [Sample.story].
Proof.
  split.
  - destruct (proj1 (proj2 (visible_items_by_column (columns init) Sample.stories "  "))
                {| col_id := "col_hn"; col_type := hn |}) as (l & H1 & H2 & _).
    + vm_compute. left.
    + cbn [col_id] in H1, H2. rewrite H1. f_equal. apply H2. vm_compute. reflexivity.
  - destruct (proj1 (proj2 (visible_items_by_column (columns init) Sample.stories "NASA"))
                {| col_id := "col_hn"; col_type := hn |}) as (l & H1 & _ & H2 & _).
    + vm_compute. left.
    + cbn [col_id] in H1, H2. rewrite H1. f_equal. rewrite H2; [|vm_compute; discriminate].
      vm_compute. reflexivity.
Defined.

(** C9, as stated, fails.  The story of the sample store has no ["nasa"]
    in its title, summary, author or tags: the membership test of the
    claim drops it for the text ["nasa"], while [visibleByColumn] keeps it,
    because its host is searched too.  For the text made of one space,
    which is not empty, the test of the claim drops the story as well,
    while [visibleByColumn] trims the text and passes the buffer through.
    In the single-feed version, [view] with an empty text does not return
    the items in the order they are held: it sorts them, newest first. *)
Lemma host_and_subreddit_are_searched :
  spec_project_bucket "nasa" (bucket Sample.stories "col_hn") = [] /\
  visibleByColumn (columns init) Sample.stories "nasa" !! "col_hn" = Some [Sample.story] /\
  spec_project_bucket " " (bucket Sample.stories "col_hn") = [] /\
  visibleByColumn (columns init) Sample.stories " " !! "col_hn" = Some [Sample.story] /\
  Feed.view Sample.feed [hn; nasa; quote] "" Feed.newest =
    [Sample.dated "hn_b" 2000; Sample.dated "hn_a" 1000] /\
  Feed.view Sample.feed [hn; nasa; quote] "" Feed.newest <> Sample.feed.
Proof.
  do 5 (split; [vm_compute; reflexivity|]).
  vm_compute. discriminate.
Qed.

(** ** URL normalisation *)

Section Urls.

Variable U : string -> string -> option ParsedURL.
Variable D : string -> option Z.

Lemma safeUrl_cases u : safeUrl U u = "" \/ valid_absolute_url U (safeUrl U u).
Proof.
  unfold safeUrl. destruct (new_URL U u) as [p|] eqn:E; [right|by left].
  by exists u, p.
Qed.

Lemma safeUrl_no_scheme u :
  Url.split_scheme (Url.remove_tab_newline (Url.strip u)) = None -> safeUrl U u = "".
Proof. intros H. unfold safeUrl, new_URL. by rewrite H. Qed.

Lemma url_field_ok_safeUrl u : url_field_ok U (Some (safeUrl U u)).
Proof. apply safeUrl_cases. Qed.

Lemma or_else_safeUrl u y :
  Js.or_else (Some (safeUrl U u)) y = safeUrl U u \/
  (safeUrl U u = "" /\ Js.or_else (Some (safeUrl U u)) y = y).
Proof. unfold Js.or_else, Js.truthy. destruct (safeUrl U u); auto. Qed.

Lemma url_field_ok_or_else u y :
  url_field_ok U (Some y) -> url_field_ok U (Some (Js.or_else (Some (safeUrl U u)) y)).
Proof.
  intros Hy. destruct (or_else_safeUrl u y) as [-> | [_ ->]]; [apply safeUrl_cases|done].
Qed.

Lemma hn_item_urls_ok h : item_urls_ok U (hn_item U D h).
Proof. split; [exact (safeUrl_cases _)|exact I]. Qed.

Lemma reddit_item_urls_ok p : item_urls_ok U (reddit_item U p).
Proof.
  split; [exact (safeUrl_cases _)|].
  unfold reddit_item. cbn [it_imageUrl]. apply url_field_ok_or_else. by left.
Qed.

Lemma nasa_item_urls_ok d :
  valid_absolute_url U "https://apod.nasa.gov/" -> item_urls_ok U (nasa_item U D d).
Proof.
  intros Hapod. split; unfold nasa_item; cbn [it_url it_imageUrl].
  - apply url_field_ok_or_else. by right.
  - case_bool_decide; [|by left].
    apply url_field_ok_or_else, safeUrl_cases.
Qed.

Lemma quote_item_urls_ok q : item_urls_ok U (quote_item D q).
Proof. split; [by left|exact I]. Qed.

End Urls.

(** C10.  [safeUrl] returns a string for every input: the exception of the
    URL constructor is caught and gives the empty string.  The result is
    empty or the serialisation of a URL the constructor accepted; an input
    without a scheme, such as ["not a url"], gives the empty string.  Given
    that the platform accepts the default address of the feature source,
    the [url] and [imageUrl] of every item the four clients return are
    absent, empty, or such a serialisation. *)
Theorem safeUrl_total_and_valid
  (U : string -> string -> option ParsedURL) (D : string -> option Z) :
  valid_absolute_url U "https://apod.nasa.gov/" ->
  (forall u, safeUrl U u = "" \/ valid_absolute_url U (safeUrl U u)) /\
  (forall u, Url.split_scheme (Url.remove_tab_newline (Url.strip u)) = None ->
     safeUrl U u = "") /\
  safeUrl U "not a url" = "" /\
  (forall pg resp res it,
     fetchHN U D pg resp = Fulfilled res -> it ∈ res_items res -> item_urls_ok U it) /\
  (forall query resp res it,
     fetchReddit U query resp = Fulfilled res -> it ∈ res_items res -> item_urls_ok U it) /\
  (forall resp res it,
     fetchNASA U D resp = Fulfilled res -> it ∈ res_items res -> item_urls_ok U it) /\
  (forall resp res it,
     fetchQuote D resp = Fulfilled res -> it ∈ res_items res -> item_urls_ok U it).
Proof.
  intros Hapod.
  split; [apply safeUrl_cases|].
  split; [apply safeUrl_no_scheme|].
  split; [by apply safeUrl_no_scheme|].
  split; [|split; [|split]].
  - intros pg resp res it. unfold fetchHN. destruct (json_of resp) as [data|]; [|done].
    intros [= <-]. simpl. intros Hin.
    apply list_elem_of_In, in_map_iff in Hin as (h & <- & _). apply hn_item_urls_ok.
  - intros query resp res it. unfold fetchReddit.
    destruct (json_of resp) as [data|]; [|done].
    intros [= <-]. simpl. intros Hin.
    assert (Hm : it ∈ map (reddit_item U) (omap (fun c => c) (default [] (d_children data)))).
    { case_match; [|done]. by apply list_elem_of_filter in Hin as [_ Hin]. }
    apply list_elem_of_In, in_map_iff in Hm as (p & <- & _). apply reddit_item_urls_ok.
  - intros resp res it. unfold fetchNASA. destruct (json_of resp) as [d|]; [|done].
    intros [= <-]. simpl. intros Hin. apply list_elem_of_singleton in Hin as ->.
    by apply nasa_item_urls_ok.
  - intros resp res it. unfold fetchQuote. destruct (json_of resp) as [q|]; [|done].
    intros [= <-]. simpl. intros Hin. apply list_elem_of_singleton in Hin as ->.
    apply quote_item_urls_ok.
Qed.

Lemma safeUrl_total_and_valid_witness :
  safeUrl Sample.URL_after_scheme "not a url" = "" /\
  (safeUrl Sample.URL_after_scheme " HTTPS://example.org/a " = "" \/
   valid_absolute_url Sample.URL_after_scheme
     (safeUrl Sample.URL_after_scheme " HTTPS://example.org/a ")).
Proof.
  refine (_ (safeUrl_total_and_valid Sample.URL_after_scheme Sample.Date_parse _)).
  - intros (H1 & _ & H2 & _). exact (conj H2 (H1 _)).
  - exists "https://apod.nasa.gov/". eexists. split; reflexivity.
Defined.

(** ** Isolation of failures in [refreshAll] *)

Lemma refresh_reset_bucket_keep cols p k :
  bucket p k = [] -> bucket (refresh_reset cols p) k = [].
Proof.
  intros H. unfold bucket in *.
  destruct (refresh_reset cols p !! k) as [r|] eqn:E; [|done].
  apply refresh_reset_lookup in E as [E | E]; simpl.
  - by rewrite E in H.
  - by rewrite E.
Qed.

Lemma refresh_reset_bucket cols p c :
  c ∈ cols -> bucket (refresh_reset cols p) (col_id c) = [].
Proof.
  revert p. induction cols as [|d cols IH]; intros p Hc; [by apply elem_of_nil in Hc|].
  apply elem_of_cons in Hc as [-> | Hc]; [|by apply IH].
  simpl. apply refresh_reset_bucket_keep. unfold bucket.
  destruct (p !! col_id d) as [r|] eqn:E.
  - rewrite lookup_insert_eq. simpl. by rewrite items_reset_record.
  - by rewrite E.
Qed.

Lemma is_paged_true t : is_paged t = true <-> paged t.
Proof.
  unfold paged. destruct t; simpl; split; try done; try (intros [?|?]; done); auto.
Qed.

Lemma is_paged_false t : is_paged t = false <-> single_shot t.
Proof.
  unfold single_shot. destruct t; simpl; split; try done; try (intros [?|?]; done); auto.
Qed.

Lemma delete_elem_of_other {A} (l : list A) i x y :
  l !! i = Some x -> y ∈ l -> y <> x -> y ∈ delete i l.
Proof.
  intros Hi Hy Hne. rewrite delete_take_drop.
  rewrite <- (take_drop_middle l i x Hi) in Hy.
  apply elem_of_app in Hy as [Hy | Hy]; apply elem_of_app; [by left|].
  apply elem_of_cons in Hy as [-> | Hy]; [done|by right].
Qed.

Lemma delete_NoDup_fmap {A B} (f : A -> B) (l : list A) i x y :
  NoDup (f <$> l) -> l !! i = Some x -> y ∈ delete i l -> f y <> f x.
Proof.
  intros Hnd Hi Hy Heq. rewrite delete_take_drop in Hy.
  rewrite <- (take_drop_middle l i x Hi), fmap_app, fmap_cons in Hnd.
  apply NoDup_app in Hnd as (_ & Hdisj & Hnd). apply NoDup_cons in Hnd as [Hx _].
  apply elem_of_app in Hy as [Hy | Hy].
  - apply (Hdisj (f y)); [by apply list_elem_of_fmap_2|]. rewrite Heq. by left.
  - apply Hx. rewrite <- Heq. by apply list_elem_of_fmap_2.
Qed.

(** [loadColumn] and [refreshAll] add their requests after those in flight,
    which they do not look at. *)
Lemma loadColumn_prefix l colId mode u :
  loadColumn colId mode (set_inflight (l ++ inflight u) u) =
  set_inflight (l ++ inflight (loadColumn colId mode u)) (loadColumn colId mode u).
Proof.
  unfold loadColumn. simpl.
  destruct (find_col colId (columns u)) as [col|]; [|done].
  change (loadColumn_try col mode (set_inflight (l ++ inflight u) u))
    with (loadColumn_try col mode u).
  destruct (loadColumn_try col mode u); try done.
  unfold set_inflight, setStore. simpl. by rewrite app_assoc.
Qed.

Lemma foldl_loadColumn_prefix l cols u :
  foldl (fun st c => loadColumn (col_id c) Refresh st) (set_inflight (l ++ inflight u) u) cols =
  set_inflight
    (l ++ inflight (foldl (fun st c => loadColumn (col_id c) Refresh st) u cols))
    (foldl (fun st c => loadColumn (col_id c) Refresh st) u cols).
Proof.
  revert u. induction cols as [|c cols IH]; intros u; simpl; [done|].
  by rewrite loadColumn_prefix, IH.
Qed.

Lemma refreshAll_prefix s :
  refreshAll s =
  set_inflight (inflight s ++ inflight (refreshAll (set_inflight [] s)))
    (refreshAll (set_inflight [] s)).
Proof.
  set (u0 := setStore (refresh_reset (columns s)) (renew_controller (set_inflight [] s))).
  assert (E : setStore (refresh_reset (columns s)) (renew_controller s) =
              set_inflight (inflight s ++ inflight u0) u0).
  { unfold set_inflight, setStore, renew_controller. simpl. by rewrite app_nil_r. }
  unfold refreshAll. rewrite E. apply foldl_loadColumn_prefix.
Qed.

Section Isolation.

Variable cols : list Column.
Variable outcome : string -> Settled.
Hypothesis cols_NoDup : NoDup (col_id <$> cols).

Lemma col_id_inj c d : c ∈ cols -> d ∈ cols -> col_id c = col_id d -> c = d.
Proof.
  clear outcome. revert cols_NoDup. induction cols as [|e l IH]; intros Hnd Hc Hd Heq.
  - by apply elem_of_nil in Hc.
  - rewrite fmap_cons in Hnd. apply NoDup_cons in Hnd as [He Hnd].
    apply elem_of_cons in Hc as [-> | Hc]; apply elem_of_cons in Hd as [-> | Hd]; try done.
    + exfalso. apply He. rewrite Heq. by apply list_elem_of_fmap_2.
    + exfalso. apply He. rewrite <- Heq. by apply list_elem_of_fmap_2.
    + by apply IH.
Qed.

(** The status of a column depends on its own record only. *)
Lemma column_settled_ext c t t' :
  store t' !! col_id c = store t !! col_id c ->
  column_settled outcome c t -> column_settled outcome c t'.
Proof.
  intros E. unfold column_settled, bucket, prop_error, prop_loading. by rewrite E.
Qed.

Lemma bucket_ext (p p' : gmap string ColState) k :
  p' !! k = p !! k -> bucket p' k = bucket p k.
Proof. intros E. unfold bucket. by rewrite E. Qed.

Lemma isolating_settling rest t :
  isolating cols outcome rest false t -> isolating cols outcome rest true t.
Proof.
  intros [Hl Hn Hs]. split; [done..|].
  intros c Hc. destruct (Hs c Hc) as [H | [H | (H1 & H2 & H3 & _)]]; auto.
  right; right. auto.
Qed.

(** [refreshAll] reaches the column [c]. *)
Lemma isolating_loadColumn c rest t :
  columns t = cols ->
  signal_aborted t (abortRef t) = false ->
  c ∈ cols -> c ∉ rest ->
  isolating cols outcome (c :: rest) false t ->
  isolating cols outcome rest false (loadColumn (col_id c) Refresh t).
Proof.
  intros Hcols Hlive Hc Hrest [Hl Hn Hs].
  assert (Hf : find_col (col_id c) (columns t) = Some c)
    by (rewrite Hcols; by apply find_col_NoDup).
  assert (Hfresh : forall r, r ∈ inflight t -> req_col r <> c).
  { intros r Hr E. destruct (Hl r Hr) as (_ & _ & _ & Hnot). apply Hnot. rewrite E. by left. }
  assert (Hempty : bucket (store t) (col_id c) = []).
  { destruct (Hs c Hc) as [[_ H] | [[H _] | [H _]]]; [done| |]; exfalso; apply H; by left. }
  assert (Hother : forall d, d ∈ cols -> d <> c -> col_id d <> col_id c).
  { intros d Hd Hne E. apply Hne. by apply col_id_inj. }
  destruct (paged_or_single (col_type c)) as [Hp | Hsingle].
  - destruct (loadColumn_paged _ _ Refresh _ Hf Hp) as (call & _ & ->).
    split; simpl.
    + intros r Hr. apply elem_of_app in Hr as [Hr | Hr].
      * destruct (Hl r Hr) as (H1 & H2 & H3 & H4). repeat split; try done.
        intros H. apply H4. by right.
      * apply list_elem_of_singleton in Hr as ->. simpl. done.
    + rewrite fmap_app. apply NoDup_app. split; [done|]. split; [|apply NoDup_singleton].
      intros x Hx Hx'. apply list_elem_of_singleton in Hx' as ->.
      apply list_elem_of_fmap in Hx as (r & E & Hr). by apply (Hfresh r Hr).
    + intros d Hd. destruct (decide (d = c)) as [->|Hne].
      * right; left. split; [done|]. split.
        { eexists. split; [apply elem_of_app; right; by apply list_elem_of_singleton|done]. }
        split; [|by apply is_paged_true].
        rewrite <- Hempty. unfold bucket. rewrite lookup_insert_eq. simpl.
        by destruct (store t !! col_id c).
      * assert (E : <[col_id c := mark_loading (spread (store t !! col_id c))]> (store t)
                      !! col_id d = store t !! col_id d)
          by (apply lookup_insert_ne; intros E; by apply (Hother d Hd Hne)).
        destruct (Hs d Hd)
          as [[H1 H2] | [(H1 & (r & Hr & Er) & H2 & H3) | (H1 & H2 & H3 & H4)]].
        { left. split; [by apply elem_of_cons in H1 as [?|?]|]. by rewrite (bucket_ext _ _ _ E). }
        { right; left. split; [intros H; apply H1; by right|].
          split; [exists r; split; [apply elem_of_app; by left|done]|].
          split; [by rewrite (bucket_ext _ _ _ E)|done]. }
        { right; right. split; [intros H; apply H1; by right|]. split; [|split; [|done]].
          - intros r Hr. apply elem_of_app in Hr as [Hr | Hr]; [by apply H2|].
            apply list_elem_of_singleton in Hr as ->. simpl. congruence.
          - by apply (column_settled_ext d t). }
  - rewrite (loadColumn_single _ _ _ _ Hf Hsingle).
    split; simpl.
    + intros r Hr. destruct (Hl r Hr) as (H1 & H2 & H3 & H4). repeat split; try done.
      intros H. apply H4. by right.
    + done.
    + intros d Hd. destruct (decide (d = c)) as [->|Hne].
      * right; right. split; [done|]. split; [done|].
        split; [|right; by apply is_paged_false].
        unfold column_settled, branch_outcome.
        rewrite (proj2 (is_paged_false _) Hsingle).
        unfold prop_error, prop_loading. simpl. rewrite lookup_insert_eq. simpl.
        split; [|done]. rewrite <- Hempty. unfold bucket. rewrite lookup_insert_eq. simpl.
        by destruct (store t !! col_id c).
      * assert (E : <[col_id c := mark_failed (failure_message (col_type c))
                        (mark_loading (spread (store t !! col_id c)))]> (store t)
                      !! col_id d = store t !! col_id d)
          by (apply lookup_insert_ne; intros E; by apply (Hother d Hd Hne)).
        destruct (Hs d Hd)
          as [[H1 H2] | [(H1 & (r & Hr & Er) & H2 & H3) | (H1 & H2 & H3 & H4)]].
        { left. split; [by apply elem_of_cons in H1 as [?|?]|]. by rewrite (bucket_ext _ _ _ E). }
        { right; left. split; [intros H; apply H1; by right|].
          split; [by exists r|]. split; [by rewrite (bucket_ext _ _ _ E)|done]. }
        { right; right. split; [intros H; apply H1; by right|]. split; [done|].
          split; [|done]. by apply (column_settled_ext d t). }
Qed.

(** [refreshAll] reaches the columns [rest] one after the other. *)
Lemma isolating_refresh rest t :
  columns t = cols ->
  signal_aborted t (abortRef t) = false ->
  (forall c, c ∈ rest -> c ∈ cols) -> NoDup rest ->
  isolating cols outcome rest false t ->
  isolating cols outcome [] false
    (foldl (fun st c => loadColumn (col_id c) Refresh st) t rest).
Proof.
  revert t. induction rest as [|c rest IH]; intros t Hcols Hlive Hsub Hnd Hiso; [done|].
  apply NoDup_cons in Hnd as [Hc Hnd]. simpl.
  destruct (loadColumn_frame (col_id c) Refresh t) as (Ec & Ea & Ek & _).
  apply IH.
  - by rewrite Ec.
  - unfold signal_aborted. by rewrite Ea, Ek.
  - intros d Hd. apply Hsub. by right.
  - done.
  - apply isolating_loadColumn; try done. apply Hsub. by left.
Qed.

(** The [catch] block of a cancelled request runs before any request of
    the refresh has settled. *)
Lemma isolating_stale col t :
  (forall c, c ∈ cols -> col_id c = col_id col -> col_type c = col_type col) ->
  isolating cols outcome [] false t ->
  isolating cols outcome [] false (setStore (on_failure col) t).
Proof.
  intros Htype [Hl Hn Hs]. split; simpl; [done..|].
  intros c Hc. destruct (decide (col_id c = col_id col)) as [Eid|Hne].
  - assert (Hb : bucket (on_failure col (store t)) (col_id c) = bucket (store t) (col_id c)).
    { unfold bucket. by rewrite on_failure_items. }
    destruct (Hs c Hc) as [[H1 H2] | [(H1 & H2 & H3 & H4) | (H1 & H2 & H3 & H4)]].
    + by apply elem_of_nil in H1.
    + right; left. by rewrite Hb.
    + right; right. split; [done|]. split; [done|]. split; [|done].
      destruct H4 as [H4 | H4]; [done|].
      unfold column_settled, branch_outcome in *. rewrite H4 in *.
      destruct H3 as (B1 & B2 & B3). cbn [store setStore]. rewrite Hb.
      unfold prop_error, prop_loading. simpl. rewrite Eid.
      destruct (on_failure_flags col (store t)) as [-> ->]. simpl.
      rewrite <- Eid, (Htype c Hc Eid). done.
  - assert (E : on_failure col (store t) !! col_id c = store t !! col_id c)
      by (by apply on_failure_lookup_ne).
    destruct (Hs c Hc) as [[H1 H2] | [(H1 & H2 & H3 & H4) | (H1 & H2 & H3 & H4)]].
    + by apply elem_of_nil in H1.
    + right; left. by rewrite (bucket_ext _ _ _ E).
    + right; right. split; [done|]. split; [done|]. split; [|done].
      by apply (column_settled_ext c t).
Qed.

Lemma isolating_flush stale t :
  (forall r c, r ∈ stale -> c ∈ cols -> col_id c = col_id (req_col r) ->
     col_type c = col_type (req_col r)) ->
  isolating cols outcome [] false t ->
  isolating cols outcome [] false (flush stale t) /\
  inflight (flush stale t) = inflight t /\
  controllers (flush stale t) = controllers t.
Proof.
  revert t. induction stale as [|r stale IH]; intros t Htype Hiso; [done|].
  simpl. destruct (IH (setStore (on_failure (req_col r)) t)) as (H1 & H2 & H3).
  - intros x c Hx. apply Htype. by right.
  - apply isolating_stale; [|done]. intros c Hc. apply (Htype r c); [by left|done].
  - done.
Qed.

(** The cancelled requests at the head of the list settle first. *)
Lemma complete_flush stale sched t :
  (forall r, r ∈ stale -> signal_aborted t (req_signal r) = true) ->
  complete outcome (replicate (length stale) 0 ++ sched)
    (set_inflight (stale ++ inflight t) t) =
  complete outcome sched (flush stale t).
Proof.
  revert t. induction stale as [|r stale IH]; intros t Ha.
  - simpl. by destruct t.
  - cbn [length replicate app complete]. cbn [inflight set_inflight lookup list_lookup app].
    unfold resolve. cbn [inflight set_inflight lookup list_lookup app].
    unfold awaited.
    change (signal_aborted (set_inflight (r :: stale ++ inflight t) t) (req_signal r))
      with (signal_aborted t (req_signal r)).
    rewrite (Ha r) by (by left). cbn [mbind option_bind].
    change (setStore (on_failure (req_col r))
              (set_inflight (delete 0 (r :: stale ++ inflight t))
                 (set_inflight (r :: stale ++ inflight t) t)))
      with (set_inflight (stale ++ inflight (setStore (on_failure (req_col r)) t))
              (setStore (on_failure (req_col r)) t)).
    rewrite IH; [done|]. intros x Hx.
    change (signal_aborted (setStore (on_failure (req_col r)) t) (req_signal x))
      with (signal_aborted t (req_signal x)).
    apply Ha. by right.
Qed.

(** A request in flight settles as [outcome] says for its column. *)
Lemma isolating_resolve b t i r :
  isolating cols outcome [] b t ->
  inflight t !! i = Some r ->
  exists t',
    resolve i (outcome (col_id (req_col r))) t = Some t' /\
    isolating cols outcome [] true t' /\
    length (inflight t') = length (inflight t) - 1.
Proof.
  intros [Hl Hn Hs] Hi.
  assert (Hr : r ∈ inflight t) by (apply list_elem_of_lookup; eauto).
  destruct (Hl r Hr) as (Hlive & Hmode & Hc & _).
  assert (Hpending : bucket (store t) (col_id (req_col r)) = [] /\
                     is_paged (col_type (req_col r)) = true).
  { destruct (Hs _ Hc) as [[H _] | [(_ & _ & H1 & H2) | (_ & H & _)]]; [|done|].
    - by apply elem_of_nil in H.
    - by destruct (H r Hr). }
  destruct Hpending as [Hempty Hpaged].
  assert (Hgone : forall x, x ∈ delete i (inflight t) -> req_col x <> req_col r).
  { intros x Hx. by eapply (delete_NoDup_fmap req_col). }
  assert (Hkept : forall x, x ∈ delete i (inflight t) -> x ∈ inflight t).
  { intros x Hx. by eapply list_elem_of_delete_inv. }
  assert (Hlen : length (delete i (inflight t)) = length (inflight t) - 1).
  { apply length_delete. eauto. }
  assert (Hnd : NoDup (req_col <$> delete i (inflight t))).
  { rewrite list_fmap_delete. eapply sublist_NoDup; [exact Hn|apply sublist_delete]. }
  assert (Hrest : forall (p' : gmap string ColState) t',
            columns t' = columns t -> controllers t' = controllers t ->
            inflight t' = delete i (inflight t) -> store t' = p' ->
            (forall k, k <> col_id (req_col r) -> p' !! k = store t !! k) ->
            column_settled outcome (req_col r) t' ->
            isolating cols outcome [] true t').
  { intros p' t' Ecols Ek Ei Es Hne Hdone. split.
    - rewrite Ei. intros x Hx. destruct (Hl x (Hkept x Hx)) as (H1 & H2 & H3 & H4).
      unfold signal_aborted in *. rewrite Ek. done.
    - by rewrite Ei.
    - intros d Hd. destruct (decide (d = req_col r)) as [->|Hdr].
      + right; right. split; [apply not_elem_of_nil|]. split; [|by split; [|left]].
        rewrite Ei. intros x Hx. by apply Hgone.
      + assert (E : store t' !! col_id d = store t !! col_id d).
        { rewrite Es. apply Hne. intros E. apply Hdr. by apply col_id_inj. }
        destruct (Hs d Hd)
          as [[H _] | [(H1 & (x & Hx & Ex) & H2 & H3) | (H1 & H2 & H3 & H4)]].
        * by apply elem_of_nil in H.
        * right; left. split; [done|]. split.
          { exists x. split; [|done]. rewrite Ei.
            apply (delete_elem_of_other _ _ r); try done. congruence. }
          split; [by rewrite (bucket_ext _ _ _ E)|done].
        * right; right. split; [done|]. split.
          { rewrite Ei. intros x Hx. apply H2. by apply Hkept. }
          split; [|by left]. by apply (column_settled_ext d t). }
  unfold resolve. rewrite Hi, (awaited_live _ _ _ Hlive).
  destruct (outcome (col_id (req_col r))) as [res|] eqn:Eo.
  - destruct (on_success_refresh r res (store t) Hmode)
      as (p' & Ep & rec & Hrec & Hitems & Hload & Herr).
    rewrite Ep. simpl. eexists. split; [reflexivity|]. split; [|done].
    apply (Hrest p'); try done.
    + intros k Hk. by eapply on_success_lookup_ne.
    + unfold column_settled, branch_outcome. rewrite Hpaged, Eo.
      unfold bucket, prop_error, prop_loading. simpl. rewrite Hrec. simpl.
      by rewrite Hitems, Herr, Hload.
  - eexists. split; [reflexivity|]. split; [|done].
    apply (Hrest (on_failure (req_col r) (store t))); try done.
    + intros k Hk. by apply on_failure_lookup_ne.
    + unfold column_settled, branch_outcome. rewrite Hpaged, Eo.
      unfold prop_error, prop_loading. simpl.
      destruct (on_failure_flags (req_col r) (store t)) as [-> ->]. simpl.
      split; [|done]. rewrite <- Hempty. unfold bucket. by rewrite on_failure_items.
Qed.

(** Whatever the order in which the requests settle, no updater throws. *)
Lemma isolating_complete sched t :
  isolating cols outcome [] true t ->
  exists t', complete outcome sched t = Some t' /\ isolating cols outcome [] true t'.
Proof.
  revert t. induction sched as [|i sched IH]; intros t Hiso; simpl; [by exists t|].
  destruct (inflight t !! i) as [r|] eqn:Hi; [|by apply IH].
  destruct (isolating_resolve true t i r Hiso Hi) as (t1 & -> & Hiso1 & _). simpl.
  by apply IH.
Qed.

(** Settling the first request in flight, as many times as there are
    requests, completes them all. *)
Lemma isolating_drain n t :
  isolating cols outcome [] true t -> length (inflight t) = n ->
  exists t', complete outcome (replicate n 0) t = Some t' /\ inflight t' = [].
Proof.
  revert t. induction n as [|n IH]; intros t Hiso Hlen; simpl.
  - exists t. split; [done|]. by apply nil_length_inv.
  - destruct (inflight t) as [|r l] eqn:E; [done|]. simpl.
    destruct (isolating_resolve true t 0 r Hiso) as (t1 & E1 & Hiso1 & Hlen1);
      [by rewrite E|].
    rewrite E1. simpl. apply IH; [done|]. rewrite Hlen1, E. simpl in *. lia.
Qed.

(** When nothing is in flight any more, every column is settled. *)
Lemma isolating_done b t c :
  isolating cols outcome [] b t -> inflight t = [] -> c ∈ cols ->
  column_settled outcome c t.
Proof.
  intros [_ _ Hs] Hnil Hc.
  destruct (Hs c Hc) as [[H _] | [(_ & (r & Hr & _) & _) | (_ & _ & H & _)]]; [| |done].
  - by apply elem_of_nil in H.
  - rewrite Hnil in Hr. by apply elem_of_nil in Hr.
Qed.

End Isolation.

Lemma isolating_refreshAll s outcome :
  NoDup (col_id <$> columns s) ->
  inflight s = [] ->
  isolating (columns s) outcome [] false (refreshAll s).
Proof.
  intros Hnd Hnil. unfold refreshAll. apply isolating_refresh; try done.
  - unfold signal_aborted. simpl. by rewrite list_lookup_middle.
  - by eapply NoDup_fmap_1.
  - split; simpl.
    + rewrite Hnil. intros r Hr. by apply elem_of_nil in Hr.
    + rewrite Hnil. apply NoDup_nil_2.
    + intros c Hc. left. split; [done|]. by apply refresh_reset_bucket.
Qed.

(** ** The states in which [refreshAll] is called *)

(** [refreshAll] cancels the requests that carry the signal of the current
    controller; the cancelled ones stay cancelled. *)
Lemma refreshAll_cancels s r :
  (forall n, abortRef s = Some n -> n < length (controllers s)) ->
  (is_Some (abortRef s) /\ req_signal r = abortRef s) \/
  signal_aborted s (req_signal r) = true ->
  signal_aborted (refreshAll s) (req_signal r) = true.
Proof.
  intros Hn [[[n En] H] | H].
  - rewrite H, En. unfold signal_aborted.
    by rewrite (refreshAll_aborts_current s n En (Hn n En)).
  - unfold signal_aborted in *. destruct (req_signal r) as [m|]; [|done].
    destruct (controllers s !! m) as [[|]|] eqn:Em; try done.
    by rewrite (aborted_step RefreshAll s (refreshAll s) m eq_refl Em).
Qed.

Lemma signalled_loadColumn colId mode s : signalled s -> signalled (loadColumn colId mode s).
Proof.
  intros [Hn Hr]. destruct (loadColumn_frame colId mode s) as (_ & Ea & Ek & _).
  split; [by rewrite Ea, Ek|].
  unfold signal_aborted. rewrite Ea, Ek. unfold loadColumn.
  destruct (find_col colId (columns s)) as [col|]; [|done].
  destruct (loadColumn_try col mode s); simpl; try done.
  intros r Hin. apply elem_of_app in Hin as [Hin | Hin]; [by apply Hr|].
  apply list_elem_of_singleton in Hin as ->. by left.
Qed.

Lemma signalled_refreshAll s :
  (forall n, abortRef s = Some n -> n < length (controllers s)) ->
  (forall r, r ∈ inflight s ->
     (is_Some (abortRef s) /\ req_signal r = abortRef s) \/
     signal_aborted s (req_signal r) = true) ->
  signalled (refreshAll s).
Proof.
  intros Hn Hr. destruct (refreshAll_frame s) as (_ & Ea & Ek).
  split.
  - exists (length (controllers s)). split; [done|]. rewrite Ek, length_app. simpl.
    destruct (abortRef s); rewrite ?length_insert; lia.
  - intros r Hin. destruct (refreshAll_inflight s) as (new & E & Hnew).
    rewrite E in Hin. apply elem_of_app in Hin as [Hin | Hin].
    + right. apply refreshAll_cancels; [done|]. by apply Hr.
    + left. by destruct (Hnew r Hin).
Qed.

Lemma signalled_mounted : signalled mounted.
Proof.
  apply signalled_refreshAll.
  - intros n Hn. discriminate.
  - intros r Hr. simpl in Hr. by apply elem_of_nil in Hr.
Qed.

Lemma signalled_step e s s' : signalled s -> step e s = Some s' -> signalled s'.
Proof.
  intros H. destruct e; simpl; try (intros [= <-]).
  - by apply signalled_loadColumn.
  - unfold clickLoadMore. case_match; [by apply signalled_loadColumn|done].
  - destruct H as [(n & En & Hlt) Hr]. apply signalled_refreshAll.
    + intros m Hm. congruence.
    + intros r Hin. destruct (Hr r Hin) as [E | E]; [left|by right].
      split; [by rewrite En|done].
  - by destruct H.
  - by destruct H.
  - intros Hres. destruct H as [Hn Hr].
    destruct (resolve_controllers _ _ _ _ Hres) as [Ek Ea].
    assert (Hin : forall x, x ∈ inflight s' -> x ∈ inflight s).
    { revert Hres. unfold resolve.
      destruct (inflight s !! i) as [r|]; [|by intros [= <-]].
      destruct (awaited s r o) as [res|].
      - destruct (on_success r res (store s)); simpl; [|done].
        intros [= <-] x Hx. simpl in Hx. by eapply list_elem_of_delete_inv.
      - intros [= <-] x Hx. simpl in Hx. by eapply list_elem_of_delete_inv. }
    split; [by rewrite Ea, Ek|].
    intros r Hr'. unfold signal_aborted. rewrite Ea, Ek. by apply Hr, Hin.
  - by destruct H.
  - by destruct H.
  - by destruct H.
Qed.

Lemma signalled_run evs s s' : signalled s -> run evs s = Some s' -> signalled s'.
Proof.
  revert s. induction evs as [|e evs IH]; intros s H; simpl; [by intros [= <-]|].
  destruct (step e s) as [s1|] eqn:E; simpl; [|done].
  apply IH. by eapply signalled_step.
Qed.

(** In every state the application reaches after the mount, [refreshAll]
    cancels all the requests in flight, and a request for the id of a
    column is a request for a column of that type. *)
Lemma refreshAll_preconditions evs s :
  run evs mounted = Some s ->
  (forall r, r ∈ inflight s -> signal_aborted (refreshAll s) (req_signal r) = true) /\
  (forall r c, r ∈ inflight s -> c ∈ columns s -> col_id c = col_id (req_col r) ->
     col_type c = col_type (req_col r)).
Proof.
  intros Hrun. split.
  - destruct (signalled_run _ _ _ signalled_mounted Hrun) as [(n & En & Hlt) Hr].
    intros r Hin. apply refreshAll_cancels; [intros m Hm; congruence|].
    destruct (Hr r Hin) as [E | E]; [left|by right]. split; [by rewrite En|done].
  - assert (Hm : id_typed mounted).
    { apply id_typed_refreshAll, id_typed_columns_effect, id_typed_init. }
    destruct (id_typed_run _ _ _ Hm Hrun) as [Hc Hr _].
    intros r c Hin Hcin Hid.
    destruct (Hr r Hin) as [H1 _]. pose proof (Hc c Hcin) as H2.
    rewrite Hid, H1 in H2. by injection H2.
Qed.

(** The state in which the requests of a refresh start to settle: the
    requests that were in flight at the call have been cancelled and their
    [catch] blocks have run. *)
Lemma refreshAll_flushed s outcome sched :
  NoDup (col_id <$> columns s) ->
  (forall r, r ∈ inflight s -> signal_aborted (refreshAll s) (req_signal r) = true) ->
  (forall r c, r ∈ inflight s -> c ∈ columns s -> col_id c = col_id (req_col r) ->
     col_type c = col_type (req_col r)) ->
  exists u,
    complete outcome (replicate (length (inflight s)) 0 ++ sched) (refreshAll s) =
    complete outcome sched u /\
    isolating (columns s) outcome [] true u /\
    length (inflight (refreshAll s)) = length (inflight s) + length (inflight u).
Proof.
  intros Hnd Hab Htype.
  pose proof (isolating_refreshAll (set_inflight [] s) outcome Hnd eq_refl) as Hiso.
  destruct (isolating_flush (columns s) outcome (inflight s) _ Htype Hiso)
    as (Hf & Hi & Hk).
  exists (flush (inflight s) (refreshAll (set_inflight [] s))).
  split; [|split].
  - rewrite (refreshAll_prefix s) at 1.
    apply complete_flush. intros r Hr. specialize (Hab r Hr).
    by rewrite (refreshAll_prefix s) in Hab.
  - by apply isolating_settling.
  - rewrite (refreshAll_prefix s) at 1. simpl. by rewrite length_app, Hi.
Qed.

(** The rest of a call of [loadColumn] writes the record of its own column
    only, in any state and however the call settles. *)
Lemma resolve_store_other i o t r t' k :
  inflight t !! i = Some r -> resolve i o t = Some t' ->
  k <> col_id (req_col r) -> store t' !! k = store t !! k.
Proof.
  intros Hi. unfold resolve. rewrite Hi.
  destruct (awaited t r o) as [res|].
  - destruct (on_success r res (store t)) as [p|] eqn:Ep; simpl; [|done].
    intros [= <-] Hk. simpl. by eapply on_success_lookup_ne.
  - intros [= <-] Hk. simpl. by apply on_failure_lookup_ne.
Qed.

(** Isolation among the columns whose branch reaches its client.
    [refreshAll] runs on columns with distinct ids.  The requests that
    were in flight at the call, which the call cancels, settle first (an
    aborted request rejects at once); the requests the call starts then
    settle in any order, each as the outcome of its column says.  No
    updater throws on the way, and the requests can always be completed.
    Once they all are: for a column [B] whose branch fulfils (a Hacker News
    or Reddit column whose client succeeded), the buffer holds the items
    the client returned, the error is cleared and the loading flag is off;
    for a column [A] whose branch failed (its client rejected, or the
    branch threw before calling one), the buffer is empty, the error
    message is set and the loading flag is off.  In any state, a request
    that settles, whether it is fulfilled or rejected, changes the record
    of its own column only.  [branch_outcome] is [Rejected] for every
    single-shot column: such a column is never a [B] here, see
    [refreshAll_fails_single_shot_columns] below. *)
Theorem refreshAll_isolates_failures
  (s : State) (outcome : string -> Settled) (sched : list nat) :
  NoDup (col_id <$> columns s) ->
  (forall r, r ∈ inflight s -> signal_aborted (refreshAll s) (req_signal r) = true) ->
  (forall r c, r ∈ inflight s -> c ∈ columns s -> col_id c = col_id (req_col r) ->
     col_type c = col_type (req_col r)) ->
  (exists t,
     complete outcome (replicate (length (inflight s)) 0 ++ sched) (refreshAll s)
     = Some t /\
     (inflight t = [] ->
      forall A B resB,
        A ∈ columns s -> B ∈ columns s ->
        branch_outcome outcome A = Rejected ->
        branch_outcome outcome B = Fulfilled resB ->
        bucket (store t) (col_id B) = res_items resB /\
        prop_error t (col_id B) = "" /\
        prop_loading t (col_id B) = false /\
        bucket (store t) (col_id A) = [] /\
        prop_error t (col_id A) = failure_message (col_type A) /\
        prop_error t (col_id A) <> "" /\
        prop_loading t (col_id A) = false)) /\
  (exists t,
     complete outcome (replicate (length (inflight (refreshAll s))) 0) (refreshAll s)
     = Some t /\
     inflight t = []) /\
  (forall t i r o t' k,
     inflight t !! i = Some r -> resolve i o t = Some t' ->
     k <> col_id (req_col r) -> store t' !! k = store t !! k).
Proof.
  intros Hnd Hab Htype.
  split; [|split; [|intros t i r o t' k; apply resolve_store_other]].
  - destruct (refreshAll_flushed s outcome sched Hnd Hab Htype) as (u & -> & Hiso & _).
    destruct (isolating_complete (columns s) outcome Hnd sched _ Hiso) as (t & E & Ht).
    exists t. split; [done|].
    intros Hdone A B resB HA HB EA EB.
    pose proof (isolating_done (columns s) outcome true t A Ht Hdone HA) as HsA.
    pose proof (isolating_done (columns s) outcome true t B Ht Hdone HB) as HsB.
    unfold column_settled in HsA, HsB. rewrite EA in HsA. rewrite EB in HsB.
    destruct HsA as (A1 & A2 & A3), HsB as (B1 & B2 & B3).
    repeat (split; [done|]). split; [|done].
    rewrite A2. apply failure_message_nonempty.
  - destruct (refreshAll_flushed s outcome (replicate (length (inflight (refreshAll s))
                                                       - length (inflight s)) 0)
                Hnd Hab Htype) as (u & E & Hiso & Hlen).
    rewrite <- replicate_add in E.
    replace (length (inflight s) + (length (inflight (refreshAll s)) - length (inflight s)))
      with (length (inflight (refreshAll s))) in E by lia.
    rewrite E. apply (isolating_drain (columns s) outcome Hnd); [done|lia].
Qed.

Lemma refreshAll_isolates_failures_witness :
  exists t,
    complete Sample.hn_fails [0; 0; 1; 0] (refreshAll mounted) = Some t /\
    bucket (store t) "col_reddit" = [Sample.i1; Sample.i2] /\
    prop_error t "col_reddit" = "" /\
    bucket (store t) "col_hn" = [] /\
    prop_error t "col_hn" = "Could not load content. Try Refresh.".
Proof.
  refine (_ (refreshAll_isolates_failures mounted Sample.hn_fails [1; 0] _ _ _)).
  - intros [(t & E & H) _]. exists t. split; [exact E|].
    assert (Hdone : inflight t = []).
    { vm_compute in E. injection E as <-. reflexivity. }
    destruct (H Hdone {| col_id := "col_hn"; col_type := hn |}
                {| col_id := "col_reddit"; col_type := reddit |} Sample.page0)
      as (H1 & H2 & _ & H3 & H4 & _).
    + vm_compute. left.
    + vm_compute. right. left.
    + reflexivity.
    + reflexivity.
    + exact (conj H1 (conj H2 (conj H3 H4))).
  - refine (bool_decide_unpack (NoDup (col_id <$> columns mounted)) _).
    vm_compute. exact I.
  - intros r Hr. vm_compute in Hr.
    apply elem_of_cons in Hr as [-> | Hr]; [vm_compute; reflexivity|].
    apply elem_of_cons in Hr as [-> | Hr]; [vm_compute; reflexivity|].
    by apply elem_of_nil in Hr.
  - intros r c Hr Hc Hid. vm_compute in Hr, Hc.
    apply elem_of_cons in Hr as [-> | Hr];
      [|apply elem_of_cons in Hr as [-> | Hr]; [|by apply elem_of_nil in Hr]];
      (apply elem_of_cons in Hc as [-> | Hc];
       [|apply elem_of_cons in Hc as [-> | Hc];
         [|apply elem_of_cons in Hc as [-> | Hc]; [|by apply elem_of_nil in Hc]]]);
      try reflexivity; vm_compute in Hid; discriminate.
Defined.

(** A single-shot column fails in every refresh, whatever its client
    would return: its branch throws before it calls one. *)
Lemma refreshAll_fails_single_shot_columns
  (s : State) (outcome : string -> Settled) (sched : list nat) :
  NoDup (col_id <$> columns s) ->
  (forall r, r ∈ inflight s -> signal_aborted (refreshAll s) (req_signal r) = true) ->
  (forall r c, r ∈ inflight s -> c ∈ columns s -> col_id c = col_id (req_col r) ->
     col_type c = col_type (req_col r)) ->
  exists t,
    complete outcome (replicate (length (inflight s)) 0 ++ sched) (refreshAll s) = Some t /\
    (inflight t = [] ->
     forall B, B ∈ columns s -> single_shot (col_type B) ->
       bucket (store t) (col_id B) = [] /\
       prop_error t (col_id B) = failure_message (col_type B) /\
       prop_loading t (col_id B) = false).
Proof.
  intros Hnd Hab Htype.
  destruct (refreshAll_flushed s outcome sched Hnd Hab Htype) as (u & -> & Hiso & _).
  destruct (isolating_complete (columns s) outcome Hnd sched _ Hiso) as (t & E & Ht).
  exists t. split; [exact E|].
  intros Hdone B HB Hs.
  pose proof (isolating_done (columns s) outcome true t B Ht Hdone HB) as HsB.
  unfold column_settled, branch_outcome in HsB.
  apply is_paged_false in Hs. rewrite Hs in HsB. exact HsB.
Qed.

(** C1 fails on the code for the columns of the feature source.  The
    dashboard is mounted with its three default columns and [refreshAll]
    runs.  The Hacker News client is rejected (instance [A]); the APOD
    service answers 200 with a well-formed body, for which [fetchNASA]
    returns one item (instance [B]); Reddit returns two items.  Once all
    the requests have settled, the Reddit column holds its two items with
    no error and the Hacker News column is empty with its error set, as
    the claim says; but the NASA column is empty with its error set as
    well: [loadColumn] never calls [fetchNASA], its branch for the column
    throws at the unbound [res] and lands in the [catch] block. *)
Theorem nasa_column_fails_although_fetchNASA_succeeds :
  (exists it,
     Sample.apod_ok "col_nasa" =
     Fulfilled {| res_items := [it]; res_nextPage := None; res_nextAfter := None;
                  res_hasMore := false |} /\
     it_source it = nasa /\ it_title it = "Orion") /\
  Sample.apod_ok "col_hn" = Rejected /\
  exists t,
    complete Sample.apod_ok [1; 0] mounted = Some t /\
    inflight t = [] /\
    bucket (store t) "col_nasa" = [] /\
    prop_error t "col_nasa" = "Could not load content. Try Refresh." /\
    prop_loading t "col_nasa" = false /\
    bucket (store t) "col_hn" = [] /\
    prop_error t "col_hn" = "Could not load content. Try Refresh." /\
    bucket (store t) "col_reddit" = [Sample.i1; Sample.i2] /\
    prop_error t "col_reddit" = "".
Proof.
  split; [|split; [reflexivity|]].
  - eexists. split; [vm_compute; reflexivity|]. split; reflexivity.
  - eexists. split; [vm_compute; reflexivity|].
    do 7 (split; [vm_compute; reflexivity|]). vm_compute. reflexivity.
Qed.

(** * Further properties of the dashboard *)

(** ** The effect on [columns] *)

Lemma ensure_store_cons c cs (p : gmap string ColState) :
  ensure_store (c :: cs) p =
  ensure_store cs
    match p !! col_id c with
    | Some _ => p
    | None => <[col_id c := initial_record (col_type c)]> p
    end.
Proof. reflexivity. Qed.

Lemma ensure_store_spec cols (p : gmap string ColState) k :
  ensure_store cols p !! k =
  match p !! k with
  | Some r => Some r
  | None => (initial_record ∘ col_type) <$> find_col k cols
  end.
Proof.
  revert p. induction cols as [|c cs IH]; intros p.
  - cbn. destruct (p !! k); reflexivity.
  - rewrite ensure_store_cons.
    destruct (p !! col_id c) as [r0|] eqn:Hc.
    + rewrite IH. destruct (p !! k) eqn:Hk; [reflexivity|].
      unfold find_col. cbn [find].
      rewrite bool_decide_eq_false_2; [reflexivity|]. intros E. rewrite E in Hc. congruence.
    + rewrite IH. unfold find_col. cbn [find].
      destruct (decide (col_id c = k)) as [E|Hne]; [subst k|].
      * rewrite lookup_insert_eq, Hc, bool_decide_eq_true_2 by reflexivity. reflexivity.
      * rewrite lookup_insert_ne by exact Hne.
        rewrite bool_decide_eq_false_2 by exact Hne. reflexivity.
Qed.

(** X1.  The effect on [columns] gives a record to every column that has
    none, the initial record of the first column with that id, and leaves
    every record that exists as it is; running it again changes nothing. *)
Theorem columns_effect_fills_missing_records (s : State) :
  (forall k,
     store (columns_effect s) !! k =
     match store s !! k with
     | Some r => Some r
     | None => (initial_record ∘ col_type) <$> find_col k (columns s)
     end) /\
  (forall c, c ∈ columns s -> is_Some (store (columns_effect s) !! col_id c)) /\
  columns_effect (columns_effect s) = columns_effect s.
Proof.
  split; [|split].
  - intros k. apply ensure_store_spec.
  - intros c Hc. apply ensure_store_columns, Hc.
  - unfold columns_effect at 1 3. unfold setStore at 1. cbn [columns store setStore columns_effect].
    unfold columns_effect, setStore. cbn [columns store].
    f_equal. apply map_eq. intros k. rewrite !ensure_store_spec.
    destruct (store s !! k); [reflexivity|].
    destruct (find_col k (columns s)); reflexivity.
Qed.

(** ** Records of the store are never removed *)

Lemma loadColumn_keys colId mode s k :
  is_Some (store s !! k) -> is_Some (store (loadColumn colId mode s) !! k).
Proof.
  intros H. destruct (decide (k = colId)) as [E|Hne].
  - subst k. destruct (loadColumn_store_eq colId mode s) as [E|(r & E & _)];
      rewrite E; eauto.
  - rewrite loadColumn_store_ne by exact Hne. exact H.
Qed.

Lemma foldl_loadColumn_keys cols st k :
  is_Some (store st !! k) ->
  is_Some (store (foldl (fun st c => loadColumn (col_id c) Refresh st) st cols) !! k).
Proof.
  revert st. induction cols as [|c cs IH]; intros st H; [exact H|].
  cbn [foldl]. apply IH, loadColumn_keys, H.
Qed.

Lemma resolve_keys i o s s' k :
  resolve i o s = Some s' -> is_Some (store s !! k) -> is_Some (store s' !! k).
Proof.
  unfold resolve. destruct (inflight s !! i) as [r|]; [|intros [= <-]; auto].
  destruct (awaited s r o) as [res|].
  - unfold on_success.
    destruct (req_call r);
      [destruct (prevItems _ _ _); [|discriminate]
      |destruct (prevItems _ _ _); [|discriminate]|];
      cbn; intros [= <-] H; cbn [store setStore set_inflight];
      apply insert_keeps_keys, H.
  - intros [= <-] H. cbn [store setStore set_inflight]. unfold on_failure.
    apply insert_keeps_keys, H.
Qed.

Lemma step_keys e s s' k :
  step e s = Some s' -> is_Some (store s !! k) -> is_Some (store s' !! k).
Proof.
  destruct e; cbn [step].
  - intros [= <-]. apply loadColumn_keys.
  - intros [= <-]. unfold clickLoadMore.
    destruct (_ && _); [apply loadColumn_keys|auto].
  - intros [= <-] H. unfold refreshAll. apply foldl_loadColumn_keys.
    cbn [store setStore renew_controller]. apply refresh_reset_keys, H.
  - intros [= <-] H. apply ensure_store_keys, H.
  - intros [= <-] H. apply ensure_store_keys, H.
  - apply resolve_keys.
  - intros [= <-]. auto.
  - intros [= <-]. auto.
  - intros [= <-]. auto.
Qed.

(** X2.  A record of the store, once created, stays in the store: no event
    removes one, not even the removal of its column. *)
Theorem store_records_are_never_removed (evs : list Event) (s s' : State) (k : string) :
  run evs s = Some s' ->
  is_Some (store s !! k) -> is_Some (store s' !! k).
Proof.
  revert s. induction evs as [|e evs IH]; intros s.
  - intros [= <-]. auto.
  - cbn [run]. destruct (step e s) as [s1|] eqn:E; [|discriminate].
    cbn. intros Hr H. apply (IH s1 Hr). apply (step_keys e s s1 k E H).
Qed.

Lemma store_records_are_never_removed_witness :
  is_Some (store (columns_effect (removeColumn "col_hn" init)) !! "col_hn").
Proof.
  apply (store_records_are_never_removed [RemoveColumn "col_hn"] init _ "col_hn").
  - reflexivity.
  - vm_compute. eauto.
Defined.

(** ** Adding and removing columns *)

Lemma filter_col_id_ne (id : string) (cols : list Column) :
  id ∉ (col_id <$> cols) -> filter (fun c => col_id c ≠ id) cols = cols.
Proof.
  induction cols as [|c cs IH]; [reflexivity|].
  rewrite fmap_cons, not_elem_of_cons. intros [Hne Hn].
  rewrite filter_cons_True by (intros E; apply Hne; symmetry; exact E).
  rewrite IH by exact Hn. reflexivity.
Qed.

Lemma find_col_filter_ne (id : string) (cols : list Column) :
  find_col id (filter (fun c => col_id c ≠ id) cols) = None.
Proof.
  induction cols as [|c cs IH]; [reflexivity|].
  destruct (decide (col_id c = id)) as [E|Hne].
  - rewrite filter_cons_False by (intros H; apply H, E). exact IH.
  - rewrite filter_cons_True by exact Hne. unfold find_col. cbn [find].
    rewrite bool_decide_eq_false_2 by exact Hne. exact IH.
Qed.

(** X3.  Removing the column that was just added gives the columns back. *)
Theorem removeColumn_undoes_addColumn (t : SourceType) (suffix : string) (s : State) :
  let id := "col_" +:+ type_name t +:+ "_" +:+ suffix in
  id ∉ (col_id <$> columns s) ->
  exists s1 s2,
    step (AddColumn t suffix) s = Some s1 /\
    step (RemoveColumn id) s1 = Some s2 /\
    columns s1 = columns s ++ [ {| col_id := id; col_type := t |} ] /\
    columns s2 = columns s /\
    inflight s2 = inflight s /\
    store s1 !! id = Some (default (initial_record t) (store s !! id)) /\
    store s2 !! id = store s1 !! id.
Proof.
  intros id Hid. eexists _, _. split; [reflexivity|]. split; [reflexivity|].
  assert (Hc : columns (removeColumn id (columns_effect (addColumn t suffix s))) = columns s).
  { cbn [columns removeColumn setColumns columns_effect setStore addColumn].
    fold id. rewrite filter_app, filter_col_id_ne by exact Hid.
    rewrite filter_cons_False, filter_nil by (cbn [col_id]; intros H; apply H; reflexivity).
    apply app_nil_r. }
  assert (H1 : store (columns_effect (addColumn t suffix s)) !! id =
               Some (default (initial_record t) (store s !! id))).
  { unfold columns_effect. cbn [store setStore]. rewrite ensure_store_spec.
    cbn [store columns addColumn setColumns]. fold id.
    destruct (store s !! id) as [r|]; [reflexivity|]. cbn [default].
    assert (Hf : find_col id (columns s ++ [ {| col_id := id; col_type := t |} ]) =
                 Some {| col_id := id; col_type := t |}).
    { clear -Hid. induction (columns s) as [|c cs IH].
      - unfold find_col. cbn. rewrite bool_decide_eq_true_2 by reflexivity. reflexivity.
      - rewrite fmap_cons, not_elem_of_cons in Hid. destruct Hid as [Hne Hn].
        unfold find_col. cbn [app find].
        rewrite bool_decide_eq_false_2 by (intros E; apply Hne; symmetry; exact E).
        apply IH, Hn. }
    rewrite Hf. reflexivity. }
  split; [reflexivity|]. split.
  { unfold columns_effect at 1. cbn [columns setStore]. exact Hc. }
  split; [reflexivity|]. split; [exact H1|].
  unfold columns_effect at 1. cbn [store setStore]. rewrite ensure_store_spec.
  cbn [store removeColumn setColumns]. rewrite H1. reflexivity.
Qed.

Lemma removeColumn_undoes_addColumn_witness :
  exists s1 s2,
    step (AddColumn quote "a1b2c3") init = Some s1 /\
    step (RemoveColumn "col_quote_a1b2c3") s1 = Some s2 /\
    columns s2 = columns init /\
    store s2 !! "col_quote_a1b2c3" = Some (initial_record quote).
Proof.
  refine (_ (removeColumn_undoes_addColumn quote "a1b2c3" init _)).
  - intros (s1 & s2 & H1 & H2 & _ & H4 & _ & H6 & H7).
    exists s1, s2. split; [exact H1|]. split; [exact H2|]. split; [exact H4|].
    exact (eq_trans H7 H6).
  - vm_compute. intros H. repeat (inversion H as [|? ? ? H']; subst; try discriminate; clear H; rename H' into H).
Defined.

(** X4.  Nothing can be loaded for a column that has been removed. *)
Theorem removed_column_cannot_be_loaded (id : string) (mode : Mode) (s : State) :
  loadColumn id mode (removeColumn id s) = removeColumn id s /\
  clickLoadMore id (removeColumn id s) = removeColumn id s /\
  removeColumn id (removeColumn id s) = removeColumn id s /\
  (id ∉ (col_id <$> columns s) -> removeColumn id s = s).
Proof.
  assert (H : forall m, loadColumn id m (removeColumn id s) = removeColumn id s).
  { intros m. apply loadColumn_missing.
    cbn [columns removeColumn setColumns]. apply find_col_filter_ne. }
  split; [apply H|]. split.
  { unfold clickLoadMore. destruct (_ && _); [apply H|reflexivity]. }
  split.
  - unfold removeColumn, setColumns. cbn [columns store abortRef controllers inflight hnQuery hnDaysBack globalSearch].
    f_equal. rewrite filter_col_id_ne; [reflexivity|].
    rewrite list_elem_of_fmap. intros (c & E & Hc).
    apply list_elem_of_filter in Hc as [Hc _]. apply Hc. symmetry. exact E.
  - intros Hid. unfold removeColumn, setColumns.
    rewrite filter_col_id_ne by exact Hid. destruct s; reflexivity.
Qed.

(** ** What [refreshAll] asks for and writes *)

Lemma find_col_None (k : string) (cols : list Column) :
  k ∉ (col_id <$> cols) -> find_col k cols = None.
Proof.
  induction cols as [|c cs IH]; [reflexivity|].
  rewrite fmap_cons, not_elem_of_cons. intros [Hne Hn].
  unfold find_col. cbn [find].
  rewrite bool_decide_eq_false_2 by (intros E; apply Hne; symmetry; exact E).
  apply IH, Hn.
Qed.

Lemma find_col_cons_ne (k : string) (c : Column) (cs : list Column) :
  k <> col_id c -> find_col k (c :: cs) = find_col k cs.
Proof.
  intros Hne. unfold find_col. cbn [find].
  rewrite bool_decide_eq_false_2 by (intros E; apply Hne; symmetry; exact E).
  reflexivity.
Qed.

Lemma find_col_cons_eq (c : Column) (cs : list Column) :
  find_col (col_id c) (c :: cs) = Some c.
Proof. unfold find_col. cbn [find]. rewrite bool_decide_eq_true_2 by reflexivity. reflexivity. Qed.

Lemma refresh_reset_cons c cs (p : gmap string ColState) :
  refresh_reset (c :: cs) p =
  refresh_reset cs
    match p !! col_id c with
    | None => p
    | Some r => <[col_id c := reset_record (col_type c) r]> p
    end.
Proof. reflexivity. Qed.

Lemma refresh_reset_spec cols (p : gmap string ColState) k :
  NoDup (col_id <$> cols) ->
  refresh_reset cols p !! k =
  match p !! k, find_col k cols with
  | Some r, Some c => Some (reset_record (col_type c) r)
  | o, _ => o
  end.
Proof.
  revert p. induction cols as [|c cs IH]; intros p Hnd.
  - cbn. destruct (p !! k); reflexivity.
  - rewrite fmap_cons in Hnd. apply NoDup_cons in Hnd as [Hc Hnd].
    rewrite refresh_reset_cons, (IH _ Hnd).
    destruct (decide (k = col_id c)) as [E|Hne].
    + subst k. rewrite find_col_cons_eq, (find_col_None _ _ Hc).
      destruct (p !! col_id c) as [r|] eqn:Hp.
      * rewrite lookup_insert_eq. reflexivity.
      * rewrite Hp. reflexivity.
    + rewrite (find_col_cons_ne _ _ _ Hne).
      destruct (p !! col_id c) as [r|] eqn:Hp.
      * rewrite lookup_insert_ne by (intros E; apply Hne; symmetry; exact E). reflexivity.
      * reflexivity.
Qed.

(** The record a call of [loadColumn] leaves for its column before any
    response: loading for a paged column, failed for a single-shot one. *)
Lemma loadColumn_store colId mode s col :
  find_col colId (columns s) = Some col ->
  store (loadColumn colId mode s) =
  <[colId := if is_paged (col_type col)
             then mark_loading (spread (store s !! colId))
             else mark_failed (failure_message (col_type col))
                    (mark_loading (spread (store s !! colId)))]> (store s).
Proof.
  intros Hf. destruct (paged_or_single (col_type col)) as [Hp|Hs].
  - destruct (loadColumn_paged colId col mode s Hf Hp) as (call & _ & E).
    rewrite E. apply is_paged_true in Hp. rewrite Hp. reflexivity.
  - rewrite (loadColumn_single colId col mode s Hf Hs).
    apply is_paged_false in Hs. rewrite Hs. reflexivity.
Qed.

Lemma loadColumn_refresh_inflight colId s col :
  find_col colId (columns s) = Some col ->
  inflight (loadColumn colId Refresh s) =
  inflight s ++
  match col_type col with
  | hn => [ {| req_col := col; req_mode := Refresh;
               req_call := CallHN (hnQuery s) 0 (hnDaysBack s);
               req_signal := abortRef s |} ]
  | reddit => [ {| req_col := col; req_mode := Refresh;
                   req_call := CallReddit (hnQuery s) None;
                   req_signal := abortRef s |} ]
  | nasa | quote => []
  end.
Proof.
  intros Hf. destruct (col_type col) eqn:Ht.
  - destruct (loadColumn_paged colId col Refresh s Hf (or_introl Ht)) as (call & Hc & E).
    rewrite E. rewrite (loadColumn_try_hn col Refresh s Ht) in Hc.
    injection Hc as <-. reflexivity.
  - destruct (loadColumn_paged colId col Refresh s Hf (or_intror Ht)) as (call & Hc & E).
    rewrite E. rewrite (loadColumn_try_reddit col Refresh s Ht) in Hc.
    injection Hc as <-. reflexivity.
  - rewrite (loadColumn_single colId col Refresh s Hf (or_introl Ht)).
    cbn [inflight setStore]. symmetry. apply app_nil_r.
  - rewrite (loadColumn_single colId col Refresh s Hf (or_intror Ht)).
    cbn [inflight setStore]. symmetry. apply app_nil_r.
Qed.

Lemma foldl_loadColumn_requests cols st :
  (forall c, c ∈ cols -> find_col (col_id c) (columns st) = Some c) ->
  inflight (foldl (fun st c => loadColumn (col_id c) Refresh st) st cols) =
  inflight st ++
  omap (fun c =>
          match col_type c with
          | hn => Some {| req_col := c; req_mode := Refresh;
                          req_call := CallHN (hnQuery st) 0 (hnDaysBack st);
                          req_signal := abortRef st |}
          | reddit => Some {| req_col := c; req_mode := Refresh;
                              req_call := CallReddit (hnQuery st) None;
                              req_signal := abortRef st |}
          | nasa | quote => None
          end) cols.
Proof.
  revert st. induction cols as [|c cs IH]; intros st Hf.
  - cbn. symmetry. apply app_nil_r.
  - cbn [foldl].
    destruct (loadColumn_frame (col_id c) Refresh st) as (Ec & Ea & _ & Eq & Ed & _).
    rewrite IH.
    2:{ intros c' Hc'. rewrite Ec. apply Hf. right. exact Hc'. }
    rewrite Ea, Eq, Ed.
    rewrite (loadColumn_refresh_inflight (col_id c) st c) by (apply Hf; left).
    rewrite <- app_assoc. f_equal.
    cbn [omap list_omap]. destruct (col_type c); reflexivity.
Qed.

Lemma foldl_loadColumn_store cols st k :
  NoDup (col_id <$> cols) ->
  (forall c, c ∈ cols -> find_col (col_id c) (columns st) = Some c) ->
  store (foldl (fun st c => loadColumn (col_id c) Refresh st) st cols) !! k =
  match find_col k cols with
  | Some c =>
      Some (if is_paged (col_type c)
            then mark_loading (spread (store st !! k))
            else mark_failed (failure_message (col_type c))
                   (mark_loading (spread (store st !! k))))
  | None => store st !! k
  end.
Proof.
  revert st. induction cols as [|c cs IH]; intros st Hnd Hf; [reflexivity|].
  rewrite fmap_cons in Hnd. apply NoDup_cons in Hnd as [Hc Hnd].
  cbn [foldl].
  destruct (loadColumn_frame (col_id c) Refresh st) as (Ec & _).
  rewrite (IH _ Hnd).
  2:{ intros c' Hc'. rewrite Ec. apply Hf. right. exact Hc'. }
  rewrite (loadColumn_store (col_id c) Refresh st c) by (apply Hf; left).
  destruct (decide (k = col_id c)) as [E|Hne].
  - subst k. rewrite find_col_cons_eq, (find_col_None _ _ Hc).
    rewrite lookup_insert_eq. reflexivity.
  - rewrite (find_col_cons_ne _ _ _ Hne).
    rewrite lookup_insert_ne by (intros E; apply Hne; symmetry; exact E). reflexivity.
Qed.

(** X5.  [refreshAll] sends one request for each Hacker News or Reddit
    column, in the order of the columns, each for the first page. *)
Theorem refreshAll_asks_for_first_pages (s : State) :
  NoDup (col_id <$> columns s) ->
  inflight (refreshAll s) = inflight s ++ omap (first_request s) (columns s).
Proof.
  intros Hnd. unfold refreshAll.
  rewrite foldl_loadColumn_requests.
  2:{ intros c Hc. cbn [columns setStore renew_controller].
      apply find_col_NoDup; assumption. }
  cbn [inflight hnQuery hnDaysBack abortRef setStore renew_controller].
  f_equal. unfold first_request.
  assert (El : length match abortRef s with
                     | Some n => <[n:=true]> (controllers s)
                     | None => controllers s
                     end = length (controllers s)).
  { destruct (abortRef s); [apply length_insert|reflexivity]. }
  rewrite El. reflexivity.
Qed.

Lemma refreshAll_asks_for_first_pages_witness :
  inflight (refreshAll init) =
  [ {| req_col := {| col_id := "col_hn"; col_type := hn |}; req_mode := Refresh;
       req_call := CallHN "" 0 "7d"; req_signal := Some 0 |};
    {| req_col := {| col_id := "col_reddit"; col_type := reddit |}; req_mode := Refresh;
       req_call := CallReddit "" None; req_signal := Some 0 |} ].
Proof.
  refine (_ (refreshAll_asks_for_first_pages init _)).
  - intros H. exact H.
  - refine (bool_decide_unpack (NoDup (col_id <$> columns init)) _). vm_compute. exact I.
Defined.

(** X6.  [refreshAll] empties the buffer of every column at once and resets
    its cursor; a paged column is left loading, a single-shot column
    failed. *)
Theorem refreshAll_resets_every_column (s : State) (c : Column) (r : ColState) :
  NoDup (col_id <$> columns s) ->
  c ∈ columns s ->
  store s !! col_id c = Some r ->
  let s' := refreshAll s in
  bucket (store s') (col_id c) = [] /\
  prop_loading s' (col_id c) = is_paged (col_type c) /\
  prop_error s' (col_id c) =
    (if is_paged (col_type c) then "" else failure_message (col_type c)) /\
  prop_hasMore s' (col_id c) = is_paged (col_type c) /\
  (col_type c = hn -> (store s' !! col_id c) ≫= page = Some 0) /\
  (col_type c = reddit -> (store s' !! col_id c) ≫= after = None) /\
  (forall k, k ∉ (col_id <$> columns s) -> store s' !! k = store s !! k).
Proof.
  intros Hnd Hc Hr s'.
  assert (Hs : forall k,
    store s' !! k =
    match find_col k (columns s) with
    | Some c =>
        Some (if is_paged (col_type c)
              then mark_loading (spread (refresh_reset (columns s) (store s) !! k))
              else mark_failed (failure_message (col_type c))
                     (mark_loading (spread (refresh_reset (columns s) (store s) !! k))))
    | None => refresh_reset (columns s) (store s) !! k
    end).
  { intros k. unfold s', refreshAll. rewrite foldl_loadColumn_store; [reflexivity|exact Hnd|].
    intros c' Hc'. cbn [columns setStore renew_controller].
    apply find_col_NoDup; assumption. }
  assert (E : store s' !! col_id c =
    Some (if is_paged (col_type c)
          then mark_loading (reset_record (col_type c) r)
          else mark_failed (failure_message (col_type c))
                 (mark_loading (reset_record (col_type c) r)))).
  { rewrite Hs, (find_col_NoDup _ _ Hnd Hc), (refresh_reset_spec _ _ _ Hnd), Hr,
      (find_col_NoDup _ _ Hnd Hc). reflexivity. }
  unfold bucket, prop_loading, prop_error, prop_hasMore. rewrite E.
  repeat split.
  - destruct (col_type c); reflexivity.
  - destruct (col_type c); reflexivity.
  - destruct (col_type c); reflexivity.
  - destruct (col_type c); reflexivity.
  - intros ->. reflexivity.
  - intros ->. reflexivity.
  - intros k Hk. rewrite Hs, (find_col_None _ _ Hk), (refresh_reset_spec _ _ _ Hnd),
      (find_col_None _ _ Hk). destruct (store s !! k); reflexivity.
Qed.

Lemma refreshAll_resets_every_column_witness :
  bucket (store (refreshAll init)) "col_hn" = [] /\
  prop_loading (refreshAll init) "col_hn" = true /\
  prop_error (refreshAll init) "col_nasa" = "Could not load content. Try Refresh.".
Proof.
  split; [|split].
  - refine (_ (refreshAll_resets_every_column init {| col_id := "col_hn"; col_type := hn |}
                 (initial_record hn) _ _ eq_refl)).
    + intros H. exact (proj1 H).
    + refine (bool_decide_unpack (NoDup (col_id <$> columns init)) _). vm_compute. exact I.
    + left.
  - vm_compute. reflexivity.
  - vm_compute. reflexivity.
Defined.

(** ** Abort controllers along a run *)

Lemma step_controllers e s t :
  step e s = Some t -> is_RefreshAll e = false ->
  controllers t = controllers s /\ abortRef t = abortRef s.
Proof.
  destruct e; cbn [step is_RefreshAll]; try discriminate.
  - intros [= <-] _. destruct (loadColumn_frame colId mode s) as (_ & Ha & Ec & _). auto.
  - intros [= <-] _. unfold clickLoadMore. destruct (_ && _); [|auto].
    destruct (loadColumn_frame colId More s) as (_ & Ha & Ec & _). auto.
  - intros [= <-] _. auto.
  - intros [= <-] _. auto.
  - intros H _. apply (resolve_controllers i o s t H).
  - intros [= <-] _. auto.
  - intros [= <-] _. auto.
  - intros [= <-] _. auto.
Qed.

Lemma refreshAll_controllers_after n s :
  controllers s = controllers_after n -> abortRef s = abortRef_after n ->
  controllers (refreshAll s) = controllers_after (S n) /\
  abortRef (refreshAll s) = abortRef_after (S n).
Proof.
  intros Hc Ha. destruct (refreshAll_frame s) as (_ & Ea & Ec).
  rewrite Ea, Ec, Ha, Hc. destruct n as [|m]; cbn [controllers_after abortRef_after].
  - split; reflexivity.
  - rewrite length_app, length_replicate. cbn [length].
    split; [|f_equal; lia].
    rewrite insert_app_r_alt by (rewrite length_replicate; lia).
    rewrite length_replicate, Nat.sub_diag. cbn [insert list_insert].
    rewrite replicate_S_end. reflexivity.
Qed.

Lemma run_controllers_after evs n s t :
  controllers s = controllers_after n -> abortRef s = abortRef_after n ->
  run evs s = Some t ->
  controllers t = controllers_after (n + length (List.filter is_RefreshAll evs)) /\
  abortRef t = abortRef_after (n + length (List.filter is_RefreshAll evs)).
Proof.
  revert n s. induction evs as [|e evs IH]; intros n s Hc Ha.
  - intros [= <-]. cbn. rewrite Nat.add_0_r. auto.
  - cbn [run List.filter]. destruct (step e s) as [s1|] eqn:E; [|discriminate].
    cbn. intros Hr. destruct (is_RefreshAll e) eqn:He.
    + destruct e; try discriminate. injection E as <-.
      destruct (refreshAll_controllers_after n s Hc Ha) as [Hc' Ha'].
      cbn [length]. replace (n + S (length (List.filter is_RefreshAll evs)))
        with (S n + length (List.filter is_RefreshAll evs)) by lia.
      apply (IH (S n) (refreshAll s) Hc' Ha' Hr).
    + destruct (step_controllers e s s1 E He) as [Ec Ea].
      apply (IH n s1); [rewrite Ec; exact Hc|rewrite Ea; exact Ha|exact Hr].
Qed.

(** X7.  After [n] calls of [refreshAll] there are [n] abort controllers;
    every one but the last has been aborted, the last is live and is the
    one [abortRef] holds. *)
Theorem only_the_latest_controller_is_live (evs : list Event) (s : State) :
  run evs init = Some s ->
  let n := length (List.filter is_RefreshAll evs) in
  controllers s = controllers_after n /\
  abortRef s = abortRef_after n /\
  (forall i, i < length (controllers s) ->
     controllers s !! i = Some (negb (bool_decide (abortRef s = Some i)))).
Proof.
  intros Hr n.
  destruct (run_controllers_after evs 0 init s eq_refl eq_refl Hr) as [Hc Ha].
  cbn [Nat.add] in Hc, Ha. fold n in Hc, Ha.
  split; [exact Hc|]. split; [exact Ha|].
  rewrite Hc, Ha. destruct n as [|m]; cbn [controllers_after abortRef_after].
  - cbn. intros i Hi. lia.
  - rewrite length_app, length_replicate. cbn [length]. intros i Hi.
    destruct (decide (i = m)) as [->|Hne].
    + rewrite bool_decide_eq_true_2 by reflexivity.
      rewrite lookup_app_r by (rewrite length_replicate; lia).
      rewrite length_replicate, Nat.sub_diag. reflexivity.
    + rewrite bool_decide_eq_false_2 by (intros [= E]; apply Hne; symmetry; exact E).
      rewrite lookup_app_l by (rewrite length_replicate; lia).
      apply lookup_replicate_2. lia.
Qed.

Lemma only_the_latest_controller_is_live_witness :
  controllers (refreshAll (refreshAll init)) = [true; false] /\
  abortRef (refreshAll (refreshAll init)) = Some 1.
Proof.
  refine (_ (only_the_latest_controller_is_live [RefreshAll; RefreshAll]
               (refreshAll (refreshAll init)) eq_refl)).
  intros (Hc & Ha & _). split; [exact Hc|exact Ha].
Defined.

(** ** Loading flags and requests in flight *)

Lemma refresh_reset_lookup_cols cols (p : gmap string ColState) k r :
  refresh_reset cols p !! k = Some r ->
  p !! k = Some r \/ k ∈ (col_id <$> cols).
Proof.
  revert p. induction cols as [|c cs IH]; intros p; [left; assumption|].
  rewrite refresh_reset_cons, fmap_cons. intros H.
  destruct (IH _ H) as [H1|H1]; [|right; apply elem_of_cons; right; exact H1].
  destruct (p !! col_id c) as [r0|] eqn:Hp; [|left; exact H1].
  destruct (decide (k = col_id c)) as [E|Hne]; [right; apply elem_of_cons; left; exact E|].
  rewrite lookup_insert_ne in H1 by (intros E; apply Hne; symmetry; exact E).
  left. exact H1.
Qed.

Lemma loading_is_pending_init : loading_is_pending init.
Proof.
  intros k r. unfold init. cbn [store inflight].
  rewrite !lookup_insert_Some, lookup_empty.
  intros [[_ <-]|[_ [[_ <-]|[_ [[_ <-]|[_ H]]]]]]; try discriminate.
Qed.

(** While [refreshAll] goes through the columns, the records of the
    columns it has not reached yet say [loading] without a request. *)
Lemma pending_loadColumn colId mode s (rest : list string) :
  is_Some (find_col colId (columns s)) ->
  (forall k r, store s !! k = Some r -> loading r = true ->
     (exists q, q ∈ inflight s /\ col_id (req_col q) = k) \/ k = colId \/ k ∈ rest) ->
  forall k r, store (loadColumn colId mode s) !! k = Some r -> loading r = true ->
    (exists q, q ∈ inflight (loadColumn colId mode s) /\ col_id (req_col q) = k) \/ k ∈ rest.
Proof.
  intros [col Hf] H k r.
  rewrite (loadColumn_store colId mode s col Hf).
  destruct (paged_or_single (col_type col)) as [Hp|Hs].
  - destruct (loadColumn_paged colId col mode s Hf Hp) as (call & _ & E).
    rewrite E. cbn [inflight set_inflight].
    destruct (decide (k = colId)) as [Ek|Hne].
    + intros _ _. left. eexists. split; [apply elem_of_app; right; left|].
      cbn [req_col]. rewrite Ek. apply (find_col_id _ _ _ Hf).
    + rewrite lookup_insert_ne by (intros Ek; apply Hne; symmetry; exact Ek).
      intros Hk Hl. destruct (H k r Hk Hl) as [(q & Hq & Eq)|[Ek|Hr]].
      * left. exists q. split; [apply elem_of_app; left; exact Hq|exact Eq].
      * contradiction.
      * right. exact Hr.
  - rewrite (loadColumn_single colId col mode s Hf Hs). cbn [inflight setStore].
    apply is_paged_false in Hs. rewrite Hs.
    destruct (decide (k = colId)) as [Ek|Hne].
    + subst k. rewrite lookup_insert_eq. intros [= <-]. cbn. discriminate.
    + rewrite lookup_insert_ne by (intros Ek; apply Hne; symmetry; exact Ek).
      intros Hk Hl. destruct (H k r Hk Hl) as [Hq|[Ek|Hr]]; [left; exact Hq|contradiction|right; exact Hr].
Qed.

Lemma loading_is_pending_loadColumn colId mode s :
  loading_is_pending s -> loading_is_pending (loadColumn colId mode s).
Proof.
  intros H. destruct (find_col colId (columns s)) as [col|] eqn:Hf.
  - intros k r Hk Hl.
    destruct (pending_loadColumn colId mode s [] (ex_intro _ col Hf)
                (fun k r Hk Hl => or_introl (H k r Hk Hl)) k r Hk Hl) as [Hq|Hn].
    + exact Hq.
    + apply elem_of_nil in Hn. contradiction.
  - rewrite (loadColumn_missing colId mode s Hf). exact H.
Qed.

Lemma pending_foldl cols s :
  (forall c, c ∈ cols -> is_Some (find_col (col_id c) (columns s))) ->
  (forall k r, store s !! k = Some r -> loading r = true ->
     (exists q, q ∈ inflight s /\ col_id (req_col q) = k) \/ k ∈ (col_id <$> cols)) ->
  loading_is_pending (foldl (fun st c => loadColumn (col_id c) Refresh st) s cols).
Proof.
  revert s. induction cols as [|c cs IH]; intros s Hf H.
  - intros k r Hk Hl. destruct (H k r Hk Hl) as [Hq|Hn]; [exact Hq|].
    rewrite fmap_nil in Hn. apply elem_of_nil in Hn. contradiction.
  - cbn [foldl]. apply IH.
    + intros c' Hc'. destruct (loadColumn_frame (col_id c) Refresh s) as (Ec & _).
      rewrite Ec. apply Hf. right. exact Hc'.
    + apply pending_loadColumn; [apply Hf; left|].
      intros k r Hk Hl. destruct (H k r Hk Hl) as [Hq|Hn]; [left; exact Hq|right].
      rewrite fmap_cons in Hn. apply elem_of_cons in Hn. exact Hn.
Qed.

Lemma find_col_is_Some c cols : c ∈ cols -> is_Some (find_col (col_id c) cols).
Proof.
  intros Hc. destruct (find_col (col_id c) cols) eqn:E; [eauto|].
  exfalso. apply (find_col_missing _ _ E c Hc). reflexivity.
Qed.

Lemma loading_is_pending_refreshAll s :
  loading_is_pending s -> loading_is_pending (refreshAll s).
Proof.
  intros H. unfold refreshAll. apply pending_foldl.
  - intros c Hc. cbn [columns setStore renew_controller]. apply find_col_is_Some, Hc.
  - cbn [store inflight setStore renew_controller]. intros k r Hk Hl.
    destruct (refresh_reset_lookup_cols _ _ _ _ Hk) as [Hk'|Hin]; [|right; exact Hin].
    left. apply (H k r Hk' Hl).
Qed.

Lemma loading_is_pending_resolve i o s s' :
  loading_is_pending s -> resolve i o s = Some s' -> loading_is_pending s'.
Proof.
  intros H. unfold resolve. destruct (inflight s !! i) as [r|] eqn:Hi; [|intros [= <-]; exact H].
  assert (Hk : forall (p' : gmap string ColState) rec,
    loading rec = false ->
    p' = <[col_id (req_col r) := rec]> (store s) ->
    loading_is_pending (setStore (fun _ => p') (set_inflight (delete i (inflight s)) s))).
  { intros p' rec Hl -> k r0. cbn [store inflight setStore set_inflight].
    destruct (decide (k = col_id (req_col r))) as [E|Hne].
    - subst k. rewrite lookup_insert_eq. intros [= <-]. congruence.
    - rewrite lookup_insert_ne by (intros E; apply Hne; symmetry; exact E).
      intros Hk Hl0. destruct (H k r0 Hk Hl0) as (q & Hq & Eq).
      exists q. split; [|exact Eq].
      apply (delete_elem_of_other _ _ _ _ Hi Hq). intros ->. apply Hne. symmetry. exact Eq. }
  destruct (awaited s r o) as [res|].
  - unfold on_success.
    destruct (req_call r);
      [destruct (prevItems _ _ _); [|discriminate]
      |destruct (prevItems _ _ _); [|discriminate]|];
      cbn; intros [= <-]; refine (Hk _ _ _ eq_refl); reflexivity.
  - intros [= <-]. apply (Hk _ (mark_failed (failure_message (col_type (req_col r)))
                                  (spread (store s !! col_id (req_col r)))));
      reflexivity.
Qed.

Lemma loading_is_pending_columns_effect s :
  loading_is_pending s -> loading_is_pending (columns_effect s).
Proof.
  intros H k r. unfold columns_effect. cbn [store inflight setStore].
  intros Hk Hl. destruct (ensure_store_lookup _ _ _ _ Hk) as [Hk'|[t ->]].
  - apply (H k r Hk' Hl).
  - destruct t; discriminate.
Qed.

Lemma loading_is_pending_step e s s' :
  loading_is_pending s -> step e s = Some s' -> loading_is_pending s'.
Proof.
  intros H. destruct e; cbn [step].
  - intros [= <-]. apply loading_is_pending_loadColumn, H.
  - intros [= <-]. unfold clickLoadMore.
    destruct (_ && _); [apply loading_is_pending_loadColumn, H|exact H].
  - intros [= <-]. apply loading_is_pending_refreshAll, H.
  - intros [= <-]. apply loading_is_pending_columns_effect. exact H.
  - intros [= <-]. apply loading_is_pending_columns_effect. exact H.
  - apply loading_is_pending_resolve, H.
  - intros [= <-]. exact H.
  - intros [= <-]. exact H.
  - intros [= <-]. exact H.
Qed.

(** X8.  Whenever a column shows its loading state, one of its requests is
    in flight: no column is left loading with nothing to wait for. *)
Theorem loading_column_has_a_request (evs : list Event) (s : State) (k : string) :
  run evs init = Some s ->
  prop_loading s k = true ->
  exists q, q ∈ inflight s /\ col_id (req_col q) = k.
Proof.
  intros Hr Hl.
  assert (H : loading_is_pending s).
  { clear Hl. revert Hr. generalize loading_is_pending_init. generalize init.
    induction evs as [|e evs IH]; intros s0 H0.
    - intros [= <-]. exact H0.
    - cbn [run]. destruct (step e s0) as [s1|] eqn:E; [|discriminate]. cbn.
      apply IH. apply (loading_is_pending_step e s0 s1 H0 E). }
  unfold prop_loading in Hl. destruct (store s !! k) as [r|] eqn:Hk; [|discriminate].
  apply (H k r Hk Hl).
Qed.

Lemma loading_column_has_a_request_witness :
  exists q, q ∈ inflight (refreshAll init) /\ col_id (req_col q) = "col_reddit".
Proof.
  apply (loading_column_has_a_request [RefreshAll] (refreshAll init) "col_reddit").
  - reflexivity.
  - vm_compute. reflexivity.
Defined.

(** ** Pagination from the clients to the Load More button *)

Lemma bind_page_spread (o : option ColState) : o ≫= page = page (spread o).
Proof. destruct o; reflexivity. Qed.

Lemma bind_after_spread (o : option ColState) : o ≫= after = after (spread o).
Proof. destruct o; reflexivity. Qed.

Lemma hasMore_spread (o : option ColState) : default false (hasMore <$> o) = hasMore (spread o).
Proof. destruct o; reflexivity. Qed.

Lemma loadColumn_try_ext col mode s s' :
  hnQuery s' = hnQuery s -> hnDaysBack s' = hnDaysBack s ->
  (store s' !! col_id col) ≫= page = (store s !! col_id col) ≫= page ->
  (store s' !! col_id col) ≫= after = (store s !! col_id col) ≫= after ->
  loadColumn_try col mode s' = loadColumn_try col mode s.
Proof.
  intros Eq Ed Ep Ea. unfold loadColumn_try. rewrite Eq, Ed, Ep, Ea. reflexivity.
Qed.

(** The state after a fulfilled request, for a request that can be
    fulfilled: the record of its column is the one [on_success] builds. *)
Lemma resolve_fulfilled_store s i r res :
  inflight s !! i = Some r ->
  signal_aborted s (req_signal r) = false ->
  (req_mode r = More -> is_Some ((store s !! col_id (req_col r)) ≫= items)) ->
  exists s' rec,
    resolve i (Fulfilled res) s = Some s' /\
    store s' = <[col_id (req_col r) := rec]> (store s) /\
    columns s' = columns s /\ hnQuery s' = hnQuery s /\ hnDaysBack s' = hnDaysBack s /\
    abortRef s' = abortRef s /\ inflight s' = delete i (inflight s) /\
    loading rec = false /\
    (forall q pg d, req_call r = CallHN q pg d ->
       page rec = res_nextPage res /\ hasMore rec = res_hasMore res) /\
    (forall q a, req_call r = CallReddit q a ->
       after rec = res_nextAfter res /\ hasMore rec = res_hasMore res).
Proof.
  intros Hi Hs Hm.
  rewrite (resolve_fulfilled i r (Fulfilled res) res s Hi (awaited_live s r _ Hs)).
  assert (Hp : is_Some (prevItems (req_mode r) (store s) (col_id (req_col r)))).
  { unfold prevItems. destruct (req_mode r); [eauto|apply Hm; reflexivity]. }
  destruct Hp as [prev Hp]. unfold on_success. rewrite Hp.
  destruct (req_call r) as [q pg d|q a|]; cbn [mbind option_bind];
    eexists _, _; (split; [reflexivity|]); cbn [store columns hnQuery hnDaysBack abortRef inflight setStore set_inflight];
    (split; [reflexivity|]); repeat (split; [reflexivity|]);
    split; intros; try discriminate; split; reflexivity.
Qed.

(** X9.  The page Load More asks Hacker News for is the one after the page
    last received, and the button goes away with the last page. *)
Theorem hn_load_more_follows_the_pages
  (U : string -> string -> option ParsedURL) (D : string -> option Z)
  (s : State) (i : nat) (r : Request) (q : string) (pg : nat) (d : string)
  (resp : Http HNData) (data : HNData) :
  inflight s !! i = Some r ->
  req_call r = CallHN q pg d ->
  signal_aborted s (req_signal r) = false ->
  (req_mode r = More -> is_Some ((store s !! col_id (req_col r)) ≫= items)) ->
  json_of resp = Some data ->
  let colId := col_id (req_col r) in
  exists s',
    resolve i (fetchHN U D pg resp) s = Some s' /\
    (store s' !! colId) ≫= page = Some (pg + 1) /\
    prop_hasMore s' colId =
      match d_nbPages data with
      | Some n => (pg + 1 <? n)%nat
      | None => false
      end /\
    prop_loading s' colId = false /\
    (prop_hasMore s' colId = false -> clickLoadMore colId s' = s') /\
    (forall col, find_col colId (columns s') = Some col -> col_type col = hn ->
       prop_hasMore s' colId = true ->
       inflight (clickLoadMore colId s') =
       inflight s' ++ [ {| req_col := col; req_mode := More;
                           req_call := CallHN (hnQuery s') (pg + 1) (hnDaysBack s');
                           req_signal := abortRef s' |} ]).
Proof.
  intros Hi Hc Hs Hm Hj colId. unfold fetchHN. rewrite Hj.
  match goal with
  | |- context [resolve i (Fulfilled ?res) s] =>
      destruct (resolve_fulfilled_store s i r res Hi Hs Hm)
        as (s' & rec & E & Est & _ & _ & _ & _ & _ & Hl & Hhn & _)
  end.
  destruct (Hhn q pg d Hc) as [Hp Hh]. cbn [res_nextPage res_hasMore] in Hp, Hh.
  exists s'. split; [exact E|].
  assert (Hrec : store s' !! colId = Some rec).
  { rewrite Est. apply lookup_insert_eq. }
  assert (Hload : prop_loading s' colId = false).
  { unfold prop_loading. rewrite Hrec. exact Hl. }
  assert (Hmore : prop_hasMore s' colId = hasMore rec).
  { unfold prop_hasMore. rewrite Hrec. reflexivity. }
  split; [rewrite Hrec; exact Hp|]. split; [rewrite Hmore; exact Hh|].
  split; [exact Hload|]. split.
  - intros H. unfold clickLoadMore. rewrite H. reflexivity.
  - intros col Hf Ht Ht'. unfold clickLoadMore. rewrite Ht', Hload. cbn [andb negb].
    destruct (loadColumn_paged colId col More s' Hf (or_introl Ht)) as (call & Hcall & El).
    rewrite El. cbn [inflight set_inflight setStore].
    rewrite (loadColumn_try_hn col More s' Ht) in Hcall. injection Hcall as <-.
    rewrite (find_col_id _ _ _ Hf), Hrec. cbn [mbind option_bind]. rewrite Hp. reflexivity.
Qed.

Lemma hn_load_more_follows_the_pages_witness :
  exists s',
    resolve 0
      (fetchHN Sample.URL_after_scheme Sample.Date_parse 0
         (Response true (Some {| d_hits := Some []; d_nbPages := Some 1 |})))
      (loadColumn "col_hn" Refresh init) = Some s' /\
    prop_hasMore s' "col_hn" = false /\
    clickLoadMore "col_hn" s' = s'.
Proof.
  refine (_ (hn_load_more_follows_the_pages Sample.URL_after_scheme Sample.Date_parse
               (loadColumn "col_hn" Refresh init) 0
               {| req_col := {| col_id := "col_hn"; col_type := hn |};
                  req_mode := Refresh; req_call := CallHN "" 0 "7d"; req_signal := None |}
               "" 0 "7d"
               (Response true (Some {| d_hits := Some []; d_nbPages := Some 1 |}))
               {| d_hits := Some []; d_nbPages := Some 1 |}
               eq_refl eq_refl eq_refl _ eq_refl)).
  - intros (s' & E & _ & Hh & _ & Hc & _). exists s'.
    split; [exact E|]. split; [exact Hh|]. apply Hc. exact Hh.
  - intros H. discriminate H.
Defined.

(** X10.  The token Load More sends to Reddit is the one last received, and
    the button goes away when Reddit sends none. *)
Theorem reddit_load_more_follows_the_token
  (U : string -> string -> option ParsedURL)
  (s : State) (i : nat) (r : Request) (q : string) (a : option string)
  (resp : Http RedditData) (data : RedditData) :
  inflight s !! i = Some r ->
  req_call r = CallReddit q a ->
  signal_aborted s (req_signal r) = false ->
  (req_mode r = More -> is_Some ((store s !! col_id (req_col r)) ≫= items)) ->
  json_of resp = Some data ->
  let colId := col_id (req_col r) in
  exists s',
    resolve i (fetchReddit U q resp) s = Some s' /\
    (store s' !! colId) ≫= after =
      (if Js.truthy (d_after data) then d_after data else None) /\
    prop_hasMore s' colId = Js.truthy (d_after data) /\
    prop_loading s' colId = false /\
    (Js.truthy (d_after data) = false -> clickLoadMore colId s' = s') /\
    (forall col, find_col colId (columns s') = Some col -> col_type col = reddit ->
       Js.truthy (d_after data) = true ->
       inflight (clickLoadMore colId s') =
       inflight s' ++ [ {| req_col := col; req_mode := More;
                           req_call := CallReddit (hnQuery s') (d_after data);
                           req_signal := abortRef s' |} ]).
Proof.
  intros Hi Hc Hs Hm Hj colId. unfold fetchReddit. rewrite Hj.
  match goal with
  | |- context [resolve i (Fulfilled ?res) s] =>
      destruct (resolve_fulfilled_store s i r res Hi Hs Hm)
        as (s' & rec & E & Est & _ & _ & _ & _ & _ & Hl & _ & Hrd)
  end.
  destruct (Hrd q a Hc) as [Ha Hh]. cbn [res_nextAfter res_hasMore] in Ha, Hh.
  exists s'. split; [exact E|].
  assert (Hrec : store s' !! colId = Some rec).
  { rewrite Est. apply lookup_insert_eq. }
  assert (Hload : prop_loading s' colId = false).
  { unfold prop_loading. rewrite Hrec. exact Hl. }
  assert (Hmore : prop_hasMore s' colId = Js.truthy (d_after data)).
  { unfold prop_hasMore. rewrite Hrec. cbn. rewrite Hh.
    destruct (d_after data) as [[|c t]|]; reflexivity. }
  split; [rewrite Hrec; exact Ha|]. split; [exact Hmore|].
  split; [exact Hload|]. split.
  - intros H. unfold clickLoadMore. rewrite Hmore, H. reflexivity.
  - intros col Hf Ht Ht'. unfold clickLoadMore. rewrite Hmore, Ht', Hload. cbn [andb negb].
    destruct (loadColumn_paged colId col More s' Hf (or_intror Ht)) as (call & Hcall & El).
    rewrite El. cbn [inflight set_inflight setStore].
    rewrite (loadColumn_try_reddit col More s' Ht) in Hcall. injection Hcall as <-.
    rewrite (find_col_id _ _ _ Hf), Hrec. cbn [mbind option_bind]. rewrite Ha, Ht'. reflexivity.
Qed.

Lemma reddit_load_more_follows_the_token_witness :
  exists s',
    resolve 0
      (fetchReddit Sample.URL_after_scheme ""
         (Response true (Some {| d_children := Some []; d_after := Some "" |})))
      (loadColumn "col_reddit" Refresh init) = Some s' /\
    clickLoadMore "col_reddit" s' = s'.
Proof.
  refine (_ (reddit_load_more_follows_the_token Sample.URL_after_scheme
               (loadColumn "col_reddit" Refresh init) 0
               {| req_col := {| col_id := "col_reddit"; col_type := reddit |};
                  req_mode := Refresh; req_call := CallReddit "" None; req_signal := None |}
               "" None
               (Response true (Some {| d_children := Some []; d_after := Some "" |}))
               {| d_children := Some []; d_after := Some "" |}
               eq_refl eq_refl eq_refl _ eq_refl)).
  - intros (s' & E & _ & _ & _ & Hc & _). exists s'.
    split; [exact E|]. apply Hc. reflexivity.
  - intros H. discriminate H.
Defined.

(** X11.  A request that fails, or that was cancelled, moves no cursor: the
    next call of [loadColumn] asks for what it would have asked before. *)
Theorem failed_load_keeps_the_cursor (s : State) (i : nat) (r : Request) (o : Settled) :
  inflight s !! i = Some r ->
  awaited s r o = Rejected ->
  exists s',
    resolve i o s = Some s' /\
    (forall col mode, loadColumn_try col mode s' = loadColumn_try col mode s) /\
    (forall k, bucket (store s') k = bucket (store s) k) /\
    (forall k, prop_hasMore s' k = prop_hasMore s k) /\
    prop_loading s' (col_id (req_col r)) = false /\
    prop_error s' (col_id (req_col r)) = failure_message (col_type (req_col r)).
Proof.
  intros Hi Ha. rewrite (resolve_rejected i r o s Hi Ha). eexists. split; [reflexivity|].
  cbn [store hnQuery hnDaysBack setStore set_inflight].
  split; [|split; [|split; [|split]]].
  - intros col mode. apply loadColumn_try_ext; cbn [store hnQuery hnDaysBack setStore set_inflight];
      try reflexivity.
    + rewrite !bind_page_spread. apply on_failure_cursor.
    + rewrite !bind_after_spread. apply on_failure_cursor.
  - intros k. unfold bucket. rewrite on_failure_items. reflexivity.
  - intros k. unfold prop_hasMore. cbn [store setStore set_inflight].
    rewrite !hasMore_spread. apply on_failure_cursor.
  - unfold prop_loading. cbn [store setStore set_inflight].
    rewrite (proj1 (on_failure_flags (req_col r) (store s))). reflexivity.
  - unfold prop_error. cbn [store setStore set_inflight].
    rewrite (proj2 (on_failure_flags (req_col r) (store s))). reflexivity.
Qed.

Lemma failed_load_keeps_the_cursor_witness :
  exists s',
    resolve 0 Rejected (loadColumn "col_hn" More init) = Some s' /\
    loadColumn_try {| col_id := "col_hn"; col_type := hn |} More s' =
    Await (CallHN "" 0 "7d").
Proof.
  refine (_ (failed_load_keeps_the_cursor (loadColumn "col_hn" More init) 0
               {| req_col := {| col_id := "col_hn"; col_type := hn |};
                  req_mode := More; req_call := CallHN "" 0 "7d"; req_signal := None |}
               Rejected eq_refl eq_refl)).
  intros (s' & E & H & _). exists s'. split; [exact E|]. rewrite H.
  vm_compute. reflexivity.
Defined.

(** ** Relative dates *)

(** X12.  [formatRelative] shows the age of an item in whole seconds below
    one minute, in whole minutes below one hour, in whole hours below one
    day and in whole days from there on, each rounded down; a date in the
    future is shown in seconds, with a negative count. *)
Theorem formatRelative_rounds_down (now t : Z) :
  let ms := (now - t)%Z in
  formatRelative now None = "" /\
  formatRelative now (Some t) =
    (if (ms <? 60000)%Z then number_to_string (ms / 1000) +:+ "s ago"
     else if (ms <? 3600000)%Z then number_to_string (ms / 60000) +:+ "m ago"
     else if (ms <? 86400000)%Z then number_to_string (ms / 3600000) +:+ "h ago"
     else number_to_string (ms / 86400000) +:+ "d ago") /\
  ((ms < 0)%Z -> (ms / 1000 < 0)%Z) /\
  ((0 <= ms < 60000)%Z -> (0 <= ms / 1000 < 60)%Z) /\
  ((60000 <= ms < 3600000)%Z -> (1 <= ms / 60000 < 60)%Z) /\
  ((3600000 <= ms < 86400000)%Z -> (1 <= ms / 3600000 < 24)%Z) /\
  ((86400000 <= ms)%Z -> (1 <= ms / 86400000)%Z).
Proof.
  intros ms. split; [reflexivity|]. split.
  - unfold formatRelative. fold ms. cbv zeta.
    destruct (Z.ltb_spec (ms / 1000) 60) as [H1|H1].
    { destruct (Z.ltb_spec ms 60000) as [G1|G1]; [reflexivity|].
      exfalso. Z.div_mod_to_equations. lia. }
    destruct (Z.ltb_spec ms 60000) as [G1|G1].
    { exfalso. Z.div_mod_to_equations. lia. }
    assert (E2 : (ms / 1000 / 60 = ms / 60000)%Z) by (Z.div_mod_to_equations; lia).
    rewrite E2.
    destruct (Z.ltb_spec (ms / 60000) 60) as [H2|H2].
    { destruct (Z.ltb_spec ms 3600000) as [G2|G2]; [reflexivity|].
      exfalso. Z.div_mod_to_equations. lia. }
    destruct (Z.ltb_spec ms 3600000) as [G2|G2].
    { exfalso. Z.div_mod_to_equations. lia. }
    assert (E3 : (ms / 60000 / 60 = ms / 3600000)%Z) by (Z.div_mod_to_equations; lia).
    rewrite E3.
    destruct (Z.ltb_spec (ms / 3600000) 24) as [H3|H3].
    { destruct (Z.ltb_spec ms 86400000) as [G3|G3]; [reflexivity|].
      exfalso. Z.div_mod_to_equations. lia. }
    destruct (Z.ltb_spec ms 86400000) as [G3|G3].
    { exfalso. Z.div_mod_to_equations. lia. }
    assert (E4 : (ms / 3600000 / 24 = ms / 86400000)%Z) by (Z.div_mod_to_equations; lia).
    rewrite E4. reflexivity.
  - repeat split; intros; Z.div_mod_to_equations; lia.
Qed.

(** ** The items of the clients *)

Lemma or_else_nonempty x y : y <> "" -> Js.or_else x y <> "".
Proof. intros Hy. destruct x as [[|c r]|]; cbn; [exact Hy|discriminate|exact Hy]. Qed.

Lemma prefix_append (p s : string) : String.prefix p (p +:+ s) = true.
Proof.
  induction p as [|a p IH]; [destruct s; reflexivity|].
  simpl. destruct (Ascii.ascii_dec a a); [exact IH|contradiction].
Qed.

Lemma hn_item_tagged U D h :
  it_source (hn_item U D h) = hn /\
  String.prefix "hn_" (it_id (hn_item U D h)) = true /\
  it_title (hn_item U D h) <> "".
Proof.
  split; [reflexivity|]. split; [apply prefix_append|].
  cbn [it_title hn_item]. apply or_else_nonempty. discriminate.
Qed.

Lemma reddit_item_tagged U p :
  it_source (reddit_item U p) = reddit /\
  String.prefix "rd_" (it_id (reddit_item U p)) = true /\
  it_title (reddit_item U p) <> "".
Proof.
  split; [reflexivity|]. split; [apply prefix_append|].
  cbn [it_title reddit_item]. apply or_else_nonempty. discriminate.
Qed.

Lemma nasa_item_tagged U D d :
  it_source (nasa_item U D d) = nasa /\
  String.prefix "nasa_" (it_id (nasa_item U D d)) = true /\
  it_title (nasa_item U D d) <> "".
Proof.
  split; [reflexivity|]. split; [apply prefix_append|].
  cbn [it_title nasa_item]. apply or_else_nonempty. discriminate.
Qed.

Lemma quote_item_tagged D q :
  it_source (quote_item D q) = quote /\
  String.prefix "quote_" (it_id (quote_item D q)) = true /\
  it_title (quote_item D q) <> "".
Proof.
  split; [reflexivity|]. split; [apply prefix_append|].
  cbn [it_title quote_item]. destruct (Js.truthy (q_author q)); discriminate.
Qed.

Lemma client_item_tagged U D it :
  client_item U D it ->
  String.prefix (id_prefix (it_source it)) (it_id it) = true /\ it_title it <> "".
Proof.
  intros [(pg & resp & res & E & Hin)|[(q & resp & res & E & Hin)|
          [(resp & res & E & Hin)|(resp & res & E & Hin)]]].
  - unfold fetchHN in E. destruct (json_of resp) as [data|]; [|discriminate].
    injection E as <-. cbn [res_items] in Hin.
    apply list_elem_of_fmap in Hin as (h & -> & _).
    destruct (hn_item_tagged U D h) as (Hs & Hp & Ht). rewrite Hs. auto.
  - unfold fetchReddit in E. destruct (json_of resp) as [data|]; [|discriminate].
    injection E as <-. cbn [res_items] in Hin.
    assert (Hin' : it ∈ map (reddit_item U) (omap (fun c => c) (default [] (d_children data)))).
    { destruct (Js.toLowerCase (Js.trim q));
        [|apply list_elem_of_filter in Hin as [_ Hin]]; exact Hin. }
    apply list_elem_of_fmap in Hin' as (p & -> & _).
    destruct (reddit_item_tagged U p) as (Hs & Hp & Ht). rewrite Hs. auto.
  - unfold fetchNASA in E. destruct (json_of resp) as [d|]; [|discriminate].
    injection E as <-. cbn [res_items] in Hin. apply list_elem_of_singleton in Hin as ->.
    destruct (nasa_item_tagged U D d) as (Hs & Hp & Ht). rewrite Hs. auto.
  - unfold fetchQuote in E. destruct (json_of resp) as [q|]; [|discriminate].
    injection E as <-. cbn [res_items] in Hin. apply list_elem_of_singleton in Hin as ->.
    destruct (quote_item_tagged D q) as (Hs & Hp & Ht). rewrite Hs. auto.
Qed.

(** X13.  Every item a client returns has a title, and an id that starts
    with the prefix of its source; items of different sources never share
    an id. *)
Theorem client_ids_tell_the_source
  (U : string -> string -> option ParsedURL) (D : string -> option Z) (a b : Item) :
  client_item U D a -> client_item U D b ->
  String.prefix (id_prefix (it_source a)) (it_id a) = true /\
  it_title a <> "" /\
  (it_id a = it_id b -> it_source a = it_source b).
Proof.
  intros Ha Hb.
  destruct (client_item_tagged U D a Ha) as [Pa Ta].
  destruct (client_item_tagged U D b Hb) as [Pb _].
  split; [exact Pa|]. split; [exact Ta|].
  intros E. rewrite <- E in Pb.
  apply prefix_correct in Pa, Pb.
  destruct (it_id a) as [|c r]; destruct (it_source a), (it_source b);
    try reflexivity; cbn in Pa, Pb; congruence.
Qed.

Lemma client_ids_tell_the_source_witness :
  String.prefix "nasa_"
    (it_id (nasa_item Sample.URL_after_scheme Sample.Date_parse Sample.apod)) = true /\
  it_title (nasa_item Sample.URL_after_scheme Sample.Date_parse Sample.apod) <> "".
Proof.
  refine (_ (client_ids_tell_the_source Sample.URL_after_scheme Sample.Date_parse
               (nasa_item Sample.URL_after_scheme Sample.Date_parse Sample.apod)
               (nasa_item Sample.URL_after_scheme Sample.Date_parse Sample.apod) _ _)).
  - intros (H1 & H2 & _). exact (conj H1 H2).
  - right. right. left. exists (Response true (Some Sample.apod)). eexists.
    split; [reflexivity|]. left.
  - right. right. left. exists (Response true (Some Sample.apod)). eexists.
    split; [reflexivity|]. left.
Defined.

(** ** Links and hosts of the items *)

Lemma new_URL_empty U : new_URL U "" = None.
Proof. reflexivity. Qed.

Lemma hostFromUrl_safeUrl U u :
  safeUrl U u = "" -> hostFromUrl U (safeUrl U u) = "".
Proof. intros ->. unfold hostFromUrl. rewrite new_URL_empty. reflexivity. Qed.

(** X14.  What the constructor [URL] rejects gives an empty link and an empty
    host, and a Hacker News or Reddit item whose link is empty has an
    empty host: no host is shown for an item without a link. *)
Theorem item_without_link_has_no_host
  (U : string -> string -> option ParsedURL) (D : string -> option Z) :
  (forall u, new_URL U u = None -> safeUrl U u = "" /\ hostFromUrl U u = "") /\
  (forall u, Url.split_scheme (Url.remove_tab_newline (Url.strip u)) = None ->
     hostFromUrl U u = "") /\
  (forall h, it_url (hn_item U D h) = Some "" -> it_host (hn_item U D h) = "") /\
  (forall p, it_url (reddit_item U p) = Some "" -> it_host (reddit_item U p) = "").
Proof.
  split; [|split; [|split]].
  - intros u H. unfold safeUrl, hostFromUrl. rewrite H. split; reflexivity.
  - intros u H. unfold hostFromUrl, new_URL. rewrite H. reflexivity.
  - intros h. cbn [it_url it_host hn_item]. intros [= E].
    apply hostFromUrl_safeUrl, E.
  - intros p. cbn [it_url it_host reddit_item]. intros [= E].
    apply hostFromUrl_safeUrl, E.
Qed.

(** ** The client-side query of [fetchReddit] *)

(** X15.  [fetchReddit] returns the posts of the listing, in their order,
    that match the query in their title, summary or subreddit, without
    regard to case; a blank query keeps them all. *)
Theorem fetchReddit_filters_by_query
  (U : string -> string -> option ParsedURL) (query : string)
  (resp : Http RedditData) (data : RedditData) :
  json_of resp = Some data ->
  let posts := map (reddit_item U) (omap (fun c => c) (default [] (d_children data))) in
  let q := Js.toLowerCase (Js.trim query) in
  exists res,
    fetchReddit U query resp = Fulfilled res /\
    res_items res `sublist_of` posts /\
    (q = "" -> res_items res = posts) /\
    (forall it, it ∈ res_items res <->
       it ∈ posts /\
       (q = "" \/
        Js.includes
          (Js.toLowerCase
             (it_title it +:+ " " +:+ it_summary it +:+ " " +:+ Js.interp (it_subreddit it)))
          q = true)) /\
    length (res_items res) <= length (default [] (d_children data)).
Proof.
  intros Hj posts q. unfold fetchReddit. rewrite Hj. eexists. split; [reflexivity|].
  cbn [res_items]. fold posts q.
  assert (Hlen : length posts <= length (default [] (d_children data))).
  { unfold posts. rewrite length_map. generalize (default [] (d_children data)).
    intros l. induction l as [|[x|] l IH]; cbn; lia. }
  destruct q as [|c r] eqn:Eq; cbn [Js.truthy].
  - split; [reflexivity|]. split; [reflexivity|]. split; [|exact Hlen].
    intros it. split; [intros H; split; auto|intros [H _]; exact H].
  - split; [apply sublist_filter|]. split; [discriminate|]. split.
    + intros it. rewrite list_elem_of_filter. unfold reddit_matches. split.
      * intros [H1 H2]. split; [exact H2|right; exact H1].
      * intros [H1 [H2|H2]]; [discriminate|split; assumption].
    + etransitivity; [apply length_filter|exact Hlen].
Qed.

Lemma fetchReddit_filters_by_query_witness :
  exists res,
    fetchReddit Sample.URL_after_scheme "  "
      (Response true (Some {| d_children := Some [None]; d_after := None |})) =
    Fulfilled res /\
    res_items res = [].
Proof.
  refine (_ (fetchReddit_filters_by_query Sample.URL_after_scheme "  "
               (Response true (Some {| d_children := Some [None]; d_after := None |}))
               {| d_children := Some [None]; d_after := None |} eq_refl)).
  intros (res & E & _ & H & _). exists res. split; [exact E|]. apply H. reflexivity.
Defined.

(** ** The single-feed version: [refresh] *)

Lemma FeedApp_settle_all_spec order outcome s :
  let t := FeedApp.settle_all order outcome s in
  FeedApp.results t = FeedApp.results s ++ FeedApp.gathered outcome order /\
  FeedApp.nextErrors t = FeedApp.nextErrors s ++ FeedApp.failures outcome order /\
  FeedApp.items t = FeedApp.items s /\
  FeedApp.loading t = FeedApp.loading s /\
  FeedApp.errors t = FeedApp.errors s.
Proof.
  revert s. induction order as [|src order IH]; intros s.
  - cbn. rewrite !app_nil_r. auto.
  - unfold FeedApp.settle_all. cbn [foldl].
    destruct (IH (FeedApp.task_done src (outcome src) s)) as (H1 & H2 & H3 & H4 & H5).
    unfold FeedApp.settle_all in H1, H2, H3, H4, H5. cbv zeta.
    rewrite H1, H2, H3, H4, H5.
    unfold FeedApp.gathered, FeedApp.failures. rewrite !bind_cons.
    cbn [FeedApp.results FeedApp.nextErrors FeedApp.items FeedApp.loading FeedApp.errors
         FeedApp.task_done].
    destruct (outcome src); rewrite <- ?app_assoc, ?app_nil_l; auto.
Qed.

Lemma FeedApp_flag_clear src x p :
  FeedApp.flag src (FeedApp.clear_partial x p) =
  if decide (x = src) then false else FeedApp.flag src p.
Proof. destruct src, x; reflexivity. Qed.

Lemma FeedApp_flag_settled order outcome s src :
  src ∈ order ->
  FeedApp.flag src (FeedApp.partialLoading (FeedApp.settle_all order outcome s)) = false.
Proof.
  assert (Hkeep : forall order s,
    FeedApp.flag src (FeedApp.partialLoading s) = false ->
    FeedApp.flag src (FeedApp.partialLoading (FeedApp.settle_all order outcome s)) = false).
  { clear. intros order. induction order as [|x order IH]; intros s H; [exact H|].
    unfold FeedApp.settle_all. cbn [foldl]. apply IH.
    cbn [FeedApp.partialLoading FeedApp.task_done]. rewrite FeedApp_flag_clear.
    destruct (decide (x = src)); [reflexivity|exact H]. }
  revert s. induction order as [|x order IH]; intros s Hin.
  - apply elem_of_nil in Hin. contradiction.
  - unfold FeedApp.settle_all. cbn [foldl]. apply elem_of_cons in Hin as [<-|Hin].
    + apply Hkeep. cbn [FeedApp.partialLoading FeedApp.task_done].
      rewrite FeedApp_flag_clear, decide_True by reflexivity. reflexivity.
    + apply IH, Hin.
Qed.

Lemma FeedApp_failures_elem outcome order e :
  e ∈ FeedApp.failures outcome order <->
  exists src dev, src ∈ order /\ outcome src = FeedApp.Failed dev /\ e = FeedApp.error_of src dev.
Proof.
  unfold FeedApp.failures. rewrite list_elem_of_bind. split.
  - intros (src & He & Hin). destruct (outcome src) as [l|dev] eqn:E.
    + apply elem_of_nil in He. contradiction.
    + apply list_elem_of_singleton in He. eauto.
  - intros (src & dev & Hin & E & ->). exists src. rewrite E. split; [left|exact Hin].
Qed.

Lemma FeedApp_gathered_elem outcome order it :
  it ∈ FeedApp.gathered outcome order <->
  exists src l, src ∈ order /\ outcome src = FeedApp.Ok l /\ it ∈ l.
Proof.
  unfold FeedApp.gathered. rewrite list_elem_of_bind. split.
  - intros (src & He & Hin). destruct (outcome src) as [l|dev] eqn:E.
    + eauto.
    + apply elem_of_nil in He. contradiction.
  - intros (src & l & Hin & E & Hl). exists src. rewrite E. split; [exact Hl|exact Hin].
Qed.

Lemma FeedApp_error_of_inj src src' dev dev' :
  FeedApp.error_of src dev = FeedApp.error_of src' dev' -> src = src' /\ dev = dev'.
Proof. destruct src, src'; intros [= ?]; try discriminate; auto. Qed.

(** X16.  One call of [refresh] of the single-feed version, whose three
    tasks settle in any order.  While they settle the feed keeps showing
    the items it had, with no error and the loading flag set.  At the end
    the feed holds exactly the items of the tasks that were fulfilled and
    one error entry for each task that failed, in the order in which they
    failed, and nothing is loading: a source that fails takes no item of
    another source away. *)
Theorem refresh_isolates_sources
  (order : list FeedApp.Source) (outcome : FeedApp.Source -> FeedApp.Result)
  (s : FeedApp.FeedState) :
  order ≡ₚ [FeedApp.HN; FeedApp.NASA; FeedApp.QUOTE] ->
  let s' := FeedApp.refresh order outcome s in
  FeedApp.items s' ≡ₚ FeedApp.gathered outcome [FeedApp.HN; FeedApp.NASA; FeedApp.QUOTE] /\
  FeedApp.errors s' = FeedApp.failures outcome order /\
  (forall src l it, outcome src = FeedApp.Ok l -> it ∈ l -> it ∈ FeedApp.items s') /\
  (forall src dev, outcome src = FeedApp.Failed dev ->
     FeedApp.error_of src dev ∈ FeedApp.errors s') /\
  (forall src l dev, outcome src = FeedApp.Ok l ->
     FeedApp.error_of src dev ∉ FeedApp.errors s') /\
  FeedApp.anyLoading s' = false /\
  (forall done rest, order = done ++ rest ->
     let t := FeedApp.settle_all done outcome (FeedApp.refresh_begin s) in
     FeedApp.items t = FeedApp.items s /\ FeedApp.errors t = [] /\
     FeedApp.anyLoading t = true).
Proof.
  intros Hp s'.
  assert (Hall : forall src, src ∈ order).
  { intros src. rewrite Hp. destruct src; repeat constructor. }
  destruct (FeedApp_settle_all_spec order outcome (FeedApp.refresh_begin s))
    as (H1 & H2 & _).
  cbn [FeedApp.results FeedApp.nextErrors FeedApp.refresh_begin app] in H1, H2.
  assert (Hi : FeedApp.items s' ≡ₚ FeedApp.gathered outcome order).
  { unfold s', FeedApp.refresh, FeedApp.refresh_end. cbn [FeedApp.items].
    rewrite Feed_sort_Permutation, H1. reflexivity. }
  assert (He : FeedApp.errors s' = FeedApp.failures outcome order).
  { unfold s', FeedApp.refresh, FeedApp.refresh_end. cbn [FeedApp.errors]. exact H2. }
  split; [|split; [exact He|split; [|split; [|split; [|split]]]]].
  - rewrite Hi. unfold FeedApp.gathered. rewrite Hp. reflexivity.
  - intros src l it E Hl. rewrite Hi. apply FeedApp_gathered_elem. eauto.
  - intros src dev E. rewrite He. apply FeedApp_failures_elem. eauto.
  - intros src l dev E. rewrite He, FeedApp_failures_elem.
    intros (src' & dev' & _ & E' & Heq).
    apply FeedApp_error_of_inj in Heq as [<- _]. congruence.
  - unfold FeedApp.anyLoading, s', FeedApp.refresh, FeedApp.refresh_end.
    cbn [FeedApp.loading FeedApp.partialLoading].
    pose proof (FeedApp_flag_settled order outcome (FeedApp.refresh_begin s)
                  FeedApp.HN (Hall _)) as F1.
    pose proof (FeedApp_flag_settled order outcome (FeedApp.refresh_begin s)
                  FeedApp.NASA (Hall _)) as F2.
    pose proof (FeedApp_flag_settled order outcome (FeedApp.refresh_begin s)
                  FeedApp.QUOTE (Hall _)) as F3.
    cbn [FeedApp.flag] in F1, F2, F3. rewrite F1, F2, F3. reflexivity.
  - intros done rest _ t.
    destruct (FeedApp_settle_all_spec done outcome (FeedApp.refresh_begin s))
      as (_ & _ & G3 & G4 & G5).
    fold t in G3, G4, G5. split; [exact G3|]. split; [exact G5|].
    unfold FeedApp.anyLoading. rewrite G4. reflexivity.
Qed.

Lemma refresh_isolates_sources_witness :
  let outcome := fun src =>
    match src with
    | FeedApp.HN => FeedApp.Failed "HN request failed (500)"
    | _ => FeedApp.Ok [Sample.i1]
    end in
  let s0 := {| FeedApp.items := []; FeedApp.loading := false;
               FeedApp.partialLoading :=
                 {| FeedApp.pl_HN := false; FeedApp.pl_NASA := false;
                    FeedApp.pl_QUOTE := false |};
               FeedApp.errors := []; FeedApp.results := []; FeedApp.nextErrors := [] |} in
  FeedApp.errors (FeedApp.refresh [FeedApp.NASA; FeedApp.QUOTE; FeedApp.HN] outcome s0) =
    [FeedApp.error_of FeedApp.HN "HN request failed (500)"] /\
  FeedApp.anyLoading
    (FeedApp.refresh [FeedApp.NASA; FeedApp.QUOTE; FeedApp.HN] outcome s0) = false.
Proof.
  intros outcome s0.
  refine (_ (refresh_isolates_sources [FeedApp.NASA; FeedApp.QUOTE; FeedApp.HN]
               outcome s0 _)).
  - intros (_ & H2 & _ & _ & _ & H6 & _). split; [exact H2|exact H6].
  - apply (Permutation_app_comm [FeedApp.NASA; FeedApp.QUOTE] [FeedApp.HN]).
Defined.

(** ** The single-feed version: the clients *)


(** ** The search text *)

Lemma lower_ascii_idem c : Js.lower_ascii (Js.lower_ascii c) = Js.lower_ascii c.
Proof. destruct c as [[] [] [] [] [] [] [] []]; reflexivity. Qed.


Lemma toLowerCase_idem s : Js.toLowerCase (Js.toLowerCase s) = Js.toLowerCase s.
Proof.
  induction s as [|c s IH]; [reflexivity|].
  cbn [Js.toLowerCase]. rewrite lower_ascii_idem, IH. reflexivity.
Qed.





Lemma string_app_cons (x : ascii) (a b : string) : String x a +:+ b = String x (a +:+ b).
Proof. reflexivity. Qed.

Lemma string_app_assoc (a b c : string) : (a +:+ b) +:+ c = a +:+ (b +:+ c).
Proof.
  induction a as [|x a IH]; [reflexivity|].
  rewrite !string_app_cons, IH. reflexivity.
Qed.

Lemma prefix_spec (n h : string) :
  String.prefix n h = true <-> exists post, h = n +:+ post.
Proof.
  revert h. induction n as [|a n IH]; intros h.
  - split; [intros _; exists h; reflexivity|intros _; destruct h; reflexivity].
  - destruct h as [|b h]; cbn [String.prefix].
    + split; [discriminate|intros [post H]; discriminate].
    + destruct (Ascii.ascii_dec a b) as [<-|Hne].
      * rewrite IH. split; intros [post H]; exists post; [rewrite H; reflexivity|].
        rewrite string_app_cons in H. injection H as H. exact H.
      * split; [discriminate|]. intros [post H].
        rewrite string_app_cons in H. injection H as E _. congruence.
Qed.

Lemma includes_spec (h n : string) :
  Js.includes h n = true <-> exists pre post, h = pre +:+ (n +:+ post).
Proof.
  induction h as [|c h IH].
  - cbn [Js.includes]. rewrite orb_false_r, prefix_spec. split.
    + intros [post H]. exists "", post. exact H.
    + intros (pre & post & H). destruct pre; [exists post; exact H|discriminate].
  - cbn [Js.includes]. rewrite orb_true_iff, prefix_spec, IH. split.
    + intros [[post H]|(pre & post & H)].
      * exists "", post. exact H.
      * exists (String c pre), post. rewrite string_app_cons, H. reflexivity.
    + intros (pre & post & H). destruct pre as [|x pre].
      * left. exists post. exact H.
      * right. rewrite string_app_cons in H. injection H as _ H. eauto.
Qed.

Lemma includes_trans (h m n : string) :
  Js.includes h m = true -> Js.includes m n = true -> Js.includes h n = true.
Proof.
  rewrite !includes_spec. intros (a & b & ->) (c & d & ->).
  exists (a +:+ c), (d +:+ b).
  rewrite !string_app_assoc. reflexivity.
Qed.



Lemma visible_bucket_narrows (s1 s2 : string) (b : list Item) :
  Js.includes s2 s1 = true ->
  visible_bucket s2 b `sublist_of` visible_bucket s1 b /\
  (forall it, it ∈ visible_bucket s2 b -> it ∈ visible_bucket s1 b) /\
  visible_bucket s2 (visible_bucket s1 b) = visible_bucket s2 b.
Proof.
  intros H.
  assert (Hsub : visible_bucket s2 b `sublist_of` visible_bucket s1 b /\
                 visible_bucket s2 (visible_bucket s1 b) = visible_bucket s2 b).
  { destruct (visible_bucket_cases s1 b) as [E1 N1].
    destruct (decide (s1 = "")) as [->|Hs1].
    { rewrite (E1 eq_refl). split; [|reflexivity].
      destruct (visible_bucket_cases s2 b) as [E2 N2].
      destruct (decide (s2 = "")) as [->|Hs2];
        [rewrite (E2 eq_refl); reflexivity|rewrite (N2 Hs2); apply sublist_filter]. }
    assert (Hs2 : s2 <> "").
    { intros ->. destruct s1; [congruence|discriminate]. }
    rewrite (N1 Hs1).
    destruct (visible_bucket_cases s2 b) as [_ N2]. rewrite (N2 Hs2).
    destruct (visible_bucket_cases s2
                (filter (fun it => Js.includes (haystack it) s1 = true) b)) as [_ N3].
    rewrite (N3 Hs2). clear E1 N1 N2 N3.
    assert (Hf : filter (fun it => Js.includes (haystack it) s2 = true)
                   (filter (fun it => Js.includes (haystack it) s1 = true) b) =
                 filter (fun it => Js.includes (haystack it) s2 = true) b).
    { rewrite list_filter_filter. apply list_filter_iff. intros it. split.
      - intros [H2 _]. exact H2.
      - intros H2. split; [exact H2|]. apply (includes_trans _ s2 _ H2 H). }
    split; [|exact Hf]. rewrite <- Hf. apply sublist_filter. }
  destruct Hsub as [Hs He]. split; [exact Hs|]. split; [|exact He].
  intros it Hin. apply (elem_of_sublist _ _ _ Hin Hs).
Qed.

(** X19.  A longer search text shows fewer items: when the text searched
    for contains an earlier one (both trimmed and lower-cased), every
    column shows a part of what it showed for the earlier one, in the same
    order, and filtering what was shown gives the same as filtering the
    buffer. *)
Theorem longer_search_narrows
  (cols : list Column) (p : gmap string ColState) (search1 search2 : string) :
  Js.includes (Js.toLowerCase (Js.trim search2)) (Js.toLowerCase (Js.trim search1)) = true ->
  (forall k l2,
     visibleByColumn cols p search2 !! k = Some l2 ->
     exists l1,
       visibleByColumn cols p search1 !! k = Some l1 /\
       l2 `sublist_of` l1 /\
       visible_bucket (Js.toLowerCase (Js.trim search2)) l1 = l2).
Proof.
  intros H k l2. rewrite !visibleByColumn_lookup.
  destruct (decide (k ∈ col_id <$> cols)); [|discriminate].
  intros [= <-]. eexists. split; [reflexivity|].
  destruct (visible_bucket_narrows _ _ (bucket p k) H) as (H1 & _ & H3).
  split; [exact H1|exact H3].
Qed.

Lemma longer_search_narrows_witness :
  exists l1,
    visibleByColumn (columns init) Sample.stories "art" !! "col_hn" = Some l1 /\
    [Sample.story] `sublist_of` l1.
Proof.
  refine (_ (longer_search_narrows (columns init) Sample.stories "art" "Artemis " eq_refl
               "col_hn" [Sample.story] _)).
  - intros (l1 & H1 & H2 & _). exists l1. split; [exact H1|exact H2].
  - vm_compute. reflexivity.
Defined.
